(** * The result parser of the homework assistant (src/App.tsx, parseResult)

    A shallow embedding of [parseResult] and of the JavaScript string and
    regular-expression primitives it is built from, followed by the
    properties of the parser.

    Strings are sequences of UTF-16 code units, as in JavaScript; a code
    unit is a natural number in binary ([N]).  The regular expressions of
    the source are written as abstract syntax and run by a backtracking
    matcher that tries alternatives and repetitions in the order the
    ECMAScript semantics prescribes. *)

From Stdlib Require Import String Ascii List NArith Arith Bool Lia.
Import ListNotations.

(* ================================================================== *)
(** ** Strings *)

Module JS.

Definition code_unit := N.
Definition js_string := list code_unit.

(** A string literal of the source, all of whose characters are ASCII. *)
Definition str (s : string) : js_string :=
  map N_of_ascii (list_ascii_of_string s).
Arguments str s%_string.

Definition is_empty (s : js_string) : bool :=
  match s with [] => true | _ :: _ => false end.

(** WhiteSpace and LineTerminator of ECMAScript: what [\s] matches and what
    [trim] removes. *)
Definition is_space (c : code_unit) : bool :=
  ((c =? 9) || (c =? 10) || (c =? 11) || (c =? 12) || (c =? 13) || (c =? 32)
   || (c =? 160) || (c =? 5760) || ((8192 <=? c) && (c <=? 8202))
   || (c =? 8232) || (c =? 8233) || (c =? 8239) || (c =? 8287)
   || (c =? 12288) || (c =? 65279))%N.

(** [\d] *)
Definition is_digit (c : code_unit) : bool := ((48 <=? c) && (c <=? 57))%N.

(** [[A-Z]] and [[a-z]] *)
Definition is_upper (c : code_unit) : bool := ((65 <=? c) && (c <=? 90))%N.
Definition is_lower (c : code_unit) : bool := ((97 <=? c) && (c <=? 122))%N.

(** [.] matches everything but the four line terminators. *)
Definition is_dot (c : code_unit) : bool :=
  negb ((c =? 10) || (c =? 13) || (c =? 8232) || (c =? 8233))%N.

Definition NL : code_unit := 10%N.

(** Canonicalize of a regular expression with the [i] flag and without the
    [u] flag.  A code unit outside ASCII is never mapped into ASCII, and every
    literal and class of the source is ASCII, so only the ASCII letters need
    their upper case here. *)
Definition canonicalize (c : code_unit) : code_unit :=
  if is_lower c then (c - 32)%N else c.

Fixpoint drop_while (p : code_unit -> bool) (s : js_string) : js_string :=
  match s with
  | [] => []
  | c :: s' => if p c then drop_while p s' else s
  end.

(** [String.prototype.trim] *)
Definition trimStart (s : js_string) : js_string := drop_while is_space s.
Definition trimEnd (s : js_string) : js_string :=
  rev (drop_while is_space (rev s)).
Definition trim (s : js_string) : js_string := trimEnd (trimStart s).

(** [s.substring(a)] and [s.substring(a, b)]; the two-argument form swaps its
    arguments when they come in the wrong order. *)
Definition substring_from (s : js_string) (a : nat) : js_string := skipn a s.
Definition substring (s : js_string) (a b : nat) : js_string :=
  firstn (Nat.max a b - Nat.min a b) (skipn (Nat.min a b) s).

(** [s.split('\n')]: never the empty array. *)
Fixpoint split_nl (s : js_string) : list js_string :=
  match s with
  | [] => [[]]
  | c :: s' =>
      if (c =? NL)%N then [] :: split_nl s'
      else match split_nl s' with
           | h :: t => (c :: h) :: t
           | [] => [[c]]
           end
  end.

(** [a.join('\n')] *)
Fixpoint join_nl (l : list js_string) : js_string :=
  match l with
  | [] => []
  | [x] => x
  | x :: l' => x ++ NL :: join_nl l'
  end.

(** [a.slice(1)] *)
Definition slice1 (l : list js_string) : list js_string := tl l.

(* ------------------------------------------------------------------ *)
(** ** Regular expressions *)

(** The constructs the source uses.  Every quantified atom of the source is
    a single-character atom ("\s*", "\d+", ".*?", "[:.\s-]*"), so [Star]
    repeats a character class; [greedy = false] is the lazy form. *)
Inductive regex : Type :=
| Eps
| Chr (p : code_unit -> bool)
| Cat (r1 r2 : regex)
| Alt (r1 r2 : regex)
| Star (greedy : bool) (p : code_unit -> bool)
| Bol
| Ahead (r : regex).

(** [p+] *)
Definition Plus (p : code_unit -> bool) : regex := Cat (Chr p) (Star true p).

(** One pattern character, under the [i] flag or not. *)
Definition char_is (ci : bool) (a c : code_unit) : bool :=
  if ci then (canonicalize c =? canonicalize a)%N else (c =? a)%N.

Fixpoint lit_of (ci : bool) (cs : js_string) : regex :=
  match cs with
  | [] => Eps
  | a :: cs' => Cat (Chr (char_is ci a)) (lit_of ci cs')
  end.

Definition lit (ci : bool) (s : string) : regex := lit_of ci (str s).
Arguments lit ci s%_string.

(** A continuation receives the position reached and the rest of the input
    and answers with the end position of the whole match. *)
Definition cont := nat -> js_string -> option nat.

Fixpoint star_greedy (p : code_unit -> bool) (k : cont)
         (pos : nat) (s : js_string) : option nat :=
  match s with
  | c :: s' =>
      if p c then
        match star_greedy p k (S pos) s' with
        | Some e => Some e
        | None => k pos s
        end
      else k pos s
  | [] => k pos []
  end.

Fixpoint star_lazy (p : code_unit -> bool) (k : cont)
         (pos : nat) (s : js_string) : option nat :=
  match k pos s with
  | Some e => Some e
  | None =>
      match s with
      | c :: s' => if p c then star_lazy p k (S pos) s' else None
      | [] => None
      end
  end.

(** The backtracking matcher: [m r k pos s] matches [r] at position [pos],
    where [s] is the input from [pos] on. *)
Fixpoint m (r : regex) (k : cont) (pos : nat) (s : js_string) : option nat :=
  match r with
  | Eps => k pos s
  | Chr p =>
      match s with
      | c :: s' => if p c then k (S pos) s' else None
      | [] => None
      end
  | Cat r1 r2 => m r1 (m r2 k) pos s
  | Alt r1 r2 =>
      match m r1 k pos s with
      | Some e => Some e
      | None => m r2 k pos s
      end
  | Star g p => if g then star_greedy p k pos s else star_lazy p k pos s
  | Bol => if pos =? 0 then k pos s else None
  | Ahead r' =>
      match m r' (fun e _ => Some e) pos s with
      | Some _ => k pos s
      | None => None
      end
  end.

(** A match of the whole pattern at exactly [pos]: its end position. *)
Definition match_at (r : regex) (pos : nat) (s : js_string) : option nat :=
  m r (fun e _ => Some e) pos s.

(** The match object: [index] and the matched text [[0]]. *)
Record reg_match : Type := { index : nat; matched : js_string }.

(** [s.match(r)] for a pattern without the [g] flag: the leftmost match. *)
Fixpoint search (r : regex) (pos : nat) (s : js_string) : option reg_match :=
  match match_at r pos s with
  | Some e => Some {| index := pos; matched := firstn (e - pos) s |}
  | None =>
      match s with
      | [] => None
      | _ :: s' => search r (S pos) s'
      end
  end.

Definition exec (r : regex) (s : js_string) : option reg_match := search r 0 s.

(** [r.test(s)] *)
Definition test (r : regex) (s : js_string) : bool :=
  match exec r s with Some _ => true | None => false end.

(** [s.replace(r, '')] for a pattern without the [g] flag. *)
Definition replace_first (r : regex) (s : js_string) : js_string :=
  match exec r s with
  | Some mt =>
      firstn (index mt) s ++ skipn (index mt + length (matched mt)) s
  | None => s
  end.

(** [s.replace(r, '')] for a pattern with the [g] flag: every match is
    removed, the search resuming where the last match ended (one code unit
    further after an empty match). *)
Fixpoint replace_loop (fuel : nat) (r : regex) (pos : nat) (s : js_string)
  : js_string :=
  match fuel with
  | 0 => s
  | S fuel' =>
      match search r pos s with
      | None => s
      | Some mt =>
          let i := index mt - pos in
          let n := length (matched mt) in
          firstn i s ++
          (if n =? 0 then
             match skipn i s with
             | c :: rest => c :: replace_loop fuel' r (S (index mt)) rest
             | [] => []
             end
           else replace_loop fuel' r (index mt + n) (skipn (i + n) s))
      end
  end.

Definition replace_all (r : regex) (s : js_string) : js_string :=
  replace_loop (S (length s)) r 0 s.

(** [s.split(r)], after RegExp.prototype[Symbol.split]: the pattern is tried
    at each position [q] in turn; a match that ends at [p], the start of the
    current piece, is skipped. *)
Fixpoint split_loop (fuel : nat) (r : regex) (s : js_string) (p q : nat)
  : list js_string :=
  match fuel with
  | 0 => [skipn p s]
  | S fuel' =>
      if length s <=? q then [skipn p s]
      else
        match match_at r q (skipn q s) with
        | None => split_loop fuel' r s p (S q)
        | Some e0 =>
            let e := Nat.min e0 (length s) in
            if e =? p then split_loop fuel' r s p (S q)
            else substring s p q :: split_loop fuel' r s e e
        end
  end.

Definition split (r : regex) (s : js_string) : list js_string :=
  match s with
  | [] => match match_at r 0 [] with Some _ => [] | None => [[]] end
  | _ :: _ => split_loop (2 * length s + 2) r s 0 0
  end.

(* ------------------------------------------------------------------ *)
(** ** Completions *)

Inductive js_error : Type := TypeError.

(** The outcome of running a piece of code: a value or a thrown error. *)
Inductive completion (A : Type) : Type :=
| Normal (a : A)
| Throw (e : js_error).
Arguments Normal {A} a.
Arguments Throw {A} e.

Definition bind {A B} (c : completion A) (f : A -> completion B)
  : completion B :=
  match c with
  | Normal a => f a
  | Throw e => Throw e
  end.

(** [a.map(f)] with a callback that may throw. *)
Fixpoint mapM {A B} (f : A -> completion B) (l : list A)
  : completion (list B) :=
  match l with
  | [] => Normal []
  | x :: l' =>
      bind (f x) (fun y => bind (mapM f l') (fun ys => Normal (y :: ys)))
  end.

(** [a[0].trim()]: reading index 0 of an empty array gives [undefined], and
    a method call on [undefined] throws. *)
Definition first_trim (l : list js_string) : completion js_string :=
  match nth_error l 0 with
  | Some s => Normal (trim s)
  | None => Throw TypeError
  end.

End JS.

Import JS.

Notation "x <- c ;; k" := (bind c (fun x => k))
  (at level 61, c at next level, right associativity).

(* ================================================================== *)
(** ** The parser *)

Record SolutionStep : Type := { title : js_string; content : js_string }.

Record ParsedResult : Type :=
  { steps : list SolutionStep; finalAnswer : js_string; fallback : bool }.

(** Line 154, finalAnswerRegex: "##" or two asterisks, then
    "\s*Final Answer", with the [i] flag. *)
Definition finalAnswerRegex : regex :=
  Cat (Alt (lit true "##") (lit true "**"))
      (Cat (Star true is_space) (lit true "Final Answer")).

(** Line 160, the pattern "/^[:\s*]+/". *)
Definition is_lead (c : code_unit) : bool :=
  ((c =? 58) || is_space c || (c =? 42))%N.
Definition leadRegex : regex := Cat Bol (Plus is_lead).

(** Line 165, stepsHeaderRegex: "/##\s*Solution Steps/i". *)
Definition stepsHeaderRegex : regex :=
  Cat (lit true "##") (Cat (Star true is_space) (lit true "Solution Steps")).

(** Lines 178 to 191 all begin with the line start "(?:^|\n)". *)
Definition lineStart : regex := Alt Bol (Chr (fun c => (c =? NL)%N)).

(** Lines 178 and 179: "###\s+" *)
Definition headingMark : regex := Cat (lit false "###") (Plus is_space).

(** Lines 182 and 183: "\*\*(?:Step|Step\s+\d+).*?\*\*", under the [i]
    flag *)
Definition boldMark : regex :=
  Cat (lit true "**")
      (Cat (Alt (lit true "Step")
                (Cat (lit true "Step") (Cat (Plus is_space) (Plus is_digit))))
           (Cat (Star false is_dot) (lit true "**"))).

(** Lines 186 and 187: "Step\s+\d+[:.]", under the [i] flag *)
Definition is_colon_dot (c : code_unit) : bool := ((c =? 58) || (c =? 46))%N.
Definition stepMark : regex :=
  Cat (lit true "Step")
      (Cat (Plus is_space) (Cat (Plus is_digit) (Chr is_colon_dot))).

(** Line 191 splits with "\d+\.\s+", line 190 tests "\d+\.\s+[A-Z]". *)
Definition numberMark : regex :=
  Cat (Plus is_digit) (Cat (lit false ".") (Plus is_space)).
Definition numberMarkUpper : regex := Cat numberMark (Chr is_upper).

(** The four trigger patterns and the four split patterns of step 3. *)
Definition headingTest : regex := Cat lineStart headingMark.
Definition headingSplit : regex := Cat lineStart (Ahead headingMark).
Definition boldTest : regex := Cat lineStart boldMark.
Definition boldSplit : regex := Cat lineStart (Ahead boldMark).
Definition stepTest : regex := Cat lineStart stepMark.
Definition stepSplit : regex := Cat lineStart (Ahead stepMark).
Definition numberTest : regex := Cat lineStart numberMarkUpper.
Definition numberSplit : regex := Cat lineStart (Ahead numberMark).

(** Line 206: "/^###\s*/" and "/\*\*/g" *)
Definition headerHashes : regex :=
  Cat Bol (Cat (lit false "###") (Star true is_space)).
Definition boldStars : regex := lit false "**".

(** Line 210, prefixRegex: "/^(?:Step\s*\d+|Step\s+[A-Z]|\d+\.)[:.\s-]*/i";
    under the [i] flag the class "[A-Z]" matches the letters of both cases. *)
Definition is_letter (c : code_unit) : bool := is_upper (canonicalize c).
Definition is_sep (c : code_unit) : bool :=
  ((c =? 58) || (c =? 46) || is_space c || (c =? 45))%N.
Definition prefixRegex : regex :=
  Cat Bol
      (Cat (Alt (Cat (lit true "Step")
                     (Cat (Star true is_space) (Plus is_digit)))
                (Alt (Cat (lit true "Step")
                          (Cat (Plus is_space) (Chr is_letter)))
                     (Cat (Plus is_digit) (lit true "."))))
           (Star true is_sep)).

(** The filter [s => s.trim()]: a string is truthy when it is not empty. *)
Definition nonblank (s : js_string) : bool := negb (is_empty (trim s)).

(** Step 1 (lines 152 to 162): the final answer and the text the steps are
    taken from. *)
Definition finalAnswerOf (text : js_string) : js_string :=
  match exec finalAnswerRegex text with
  | Some finalMatch =>
      trim (replace_first leadRegex
              (substring_from text
                 (index finalMatch + length (matched finalMatch))))
  | None => []
  end.

Definition stepsTextOf (text : js_string) : js_string :=
  match exec finalAnswerRegex text with
  | Some finalMatch => trim (substring text 0 (index finalMatch))
  | None => text
  end.

(** Step 2 (lines 164 to 171): the content of the "Solution Steps"
    section. *)
Definition contentToParseOf (stepsText : js_string) : js_string :=
  match exec stepsHeaderRegex stepsText with
  | Some stepsMatch =>
      trim (substring_from stepsText
              (index stepsMatch + length (matched stepsMatch)))
  | None => stepsText
  end.

(** Step 3 (lines 173 to 196): the cascade that splits the content into raw
    steps. *)
Definition rawStepsOf (contentToParse : js_string) : list js_string :=
  if test headingTest contentToParse then
    filter nonblank (split headingSplit contentToParse)
  else if test boldTest contentToParse then
    filter nonblank (split boldSplit contentToParse)
  else if test stepTest contentToParse then
    filter nonblank (split stepSplit contentToParse)
  else if test numberTest contentToParse then
    filter nonblank (split numberSplit contentToParse)
  else [contentToParse].

(** The header of a raw step with its heading and bold markers removed. *)
Definition stripMarkers (header : js_string) : js_string :=
  replace_all boldStars (replace_first headerHashes header).

(** The header with a recognised prefix removed as well. *)
Definition stripPrefix (title : js_string) : js_string :=
  match exec prefixRegex title with
  | Some prefixMatch => trim (substring_from title (length (matched prefixMatch)))
  | None => title
  end.

(** The callback of [rawSteps.map] (lines 198 to 232). *)
Definition cleanStep (rawStep : js_string) : completion SolutionStep :=
  let lines := split_nl (trim rawStep) in
  header <- first_trim lines ;;
  let content0 := trim (join_nl (slice1 lines)) in
  let title0 := stripPrefix (stripMarkers header) in
  let '(title1, content1) :=
    if is_empty content0 then
      if 0 <? length title0 then (str "Explanation", title0)
      else (title0, content0)
    else (title0, content0) in
  let title2 := if is_empty title1 then str "Step Details" else title1 in
  Normal {| title := title2; content := content1 |}.

(** The filter [s => s.content && s.content.length > 0] (line 232). *)
Definition hasContent (s : SolutionStep) : bool :=
  negb (is_empty (content s)) && (0 <? length (content s)).

(** The closing block (lines 236 to 243): the whole-content step or the
    fallback flag. *)
Definition finish (kept : list SolutionStep) (contentToParse fa : js_string)
  : ParsedResult :=
  if length kept =? 0 then
    if 0 <? length (trim contentToParse) then
      {| steps := kept ++ [{| title := str "Analysis";
                              content := contentToParse |}];
         finalAnswer := fa; fallback := false |}
    else if is_empty fa then
      {| steps := kept; finalAnswer := fa; fallback := true |}
    else {| steps := kept; finalAnswer := fa; fallback := false |}
  else {| steps := kept; finalAnswer := fa; fallback := false |}.

(** [parseResult] (lines 143 to 246); [None] is the null of the source. *)
Definition parseResult (text : js_string) : completion (option ParsedResult) :=
  if is_empty text then Normal None
  else
    let fa := finalAnswerOf text in
    let stepsText := stepsTextOf text in
    let contentToParse := contentToParseOf stepsText in
    let rawSteps := rawStepsOf contentToParse in
    cleaned <- mapM cleanStep rawSteps ;;
    Normal (Some (finish (filter hasContent cleaned) contentToParse fa)).

(** The input of the worked example of the specification. *)
Definition example_input : js_string :=
  join_nl [ str "## Solution Steps";
            str "### Step 1: Setup";
            str "Do X.";
            str "### Step 2: Solve";
            str "Do Y.";
            str "## Final Answer";
            str "42" ].

Definition example_result : ParsedResult :=
  {| steps := [ {| title := str "Setup"; content := str "Do X." |};
                {| title := str "Solve"; content := str "Do Y." |} ];
     finalAnswer := str "42";
     fallback := false |}.

(* ================================================================== *)
(** ** Vocabulary of the statements *)

(** The length of the longest prefix of [s] made of characters of [p]. *)
Fixpoint count_while (p : code_unit -> bool) (s : js_string) : nat :=
  match s with
  | [] => 0
  | c :: s' => if p c then S (count_while p s') else 0
  end.

(** [s] starts with the pattern characters [cs]. *)
Fixpoint starts_with (ci : bool) (cs s : js_string) : bool :=
  match cs, s with
  | [], _ => true
  | a :: cs', c :: s' => char_is ci a c && starts_with ci cs' s'
  | _ :: _, [] => false
  end.

(** The pattern [body] matches at position [pos], in front of [s]. *)
Definition ahead_ok (body : regex) (pos : nat) (s : js_string) : bool :=
  match match_at body pos s with Some _ => true | None => false end.

(** Position [i] of [s] holds a line break and the line after it begins
    with [body]. *)
Definition boundary (body : regex) (s : js_string) (i : nat) : bool :=
  (nth i s 0 =? NL)%N && ahead_ok body (S i) (skipn (S i) s).

(** [s] from [p] on, cut at the positions [bs], each of which is dropped. *)
Fixpoint slices (s : js_string) (p : nat) (bs : list nat) : list js_string :=
  match bs with
  | [] => [skipn p s]
  | b :: bs' => firstn (b - p) (skipn p s) :: slices s (S b) bs'
  end.

(** [s] cut before every line that begins with [body], and nowhere else. *)
Definition cut_lines (body : regex) (s : js_string) : list js_string :=
  slices s 0 (filter (boundary body s) (seq 0 (length s))).

(** The final-answer marker as the pattern of the source has it: "##" or
    two asterisks, any run of white space, and the phrase in any case; [n]
    is the length of the marker found at the start of [s]. *)
Definition marker_prefix (s : js_string) (n : nat) : Prop :=
  exists mk ws ph rest,
    (mk = str "##" \/ mk = str "**") /\
    forallb is_space ws = true /\
    map canonicalize ph = map canonicalize (str "Final Answer") /\
    s = mk ++ ws ++ ph ++ rest /\
    n = length mk + length ws + length ph.

(** The length of the final-answer marker at the start of [s], if there is
    one. *)
Definition marker_len (s : js_string) : option nat :=
  if (starts_with true (str "##") s || starts_with true (str "**") s)
     && starts_with true (str "Final Answer")
          (drop_while is_space (skipn 2 s))
  then Some (2 + count_while is_space (skipn 2 s) + 12)
  else None.

(** A line that begins with a level-3 heading marker: "###" and a white
    space character. *)
Definition heading_line (s : js_string) : Prop :=
  exists c rest, is_space c = true /\ s = str "###" ++ c :: rest.

(** A line that begins with a decimal number, a period and a white space
    character. *)
Definition number_line (s : js_string) : Prop :=
  exists ds c rest,
    ds <> [] /\ forallb is_digit ds = true /\ is_space c = true /\
    s = ds ++ 46%N :: c :: rest.

(** The header, the body and the candidate title of a raw step, as the
    callback of [map] computes them. *)
Definition headerOf (rawStep : js_string) : js_string :=
  trim (hd [] (split_nl (trim rawStep))).
Definition bodyOf (rawStep : js_string) : js_string :=
  trim (join_nl (slice1 (split_nl (trim rawStep)))).
Definition candidateTitle (rawStep : js_string) : js_string :=
  stripPrefix (stripMarkers (headerOf rawStep)).

(** The step the closing block makes of the whole content. *)
Definition analysisStep (contentToParse : js_string) : SolutionStep :=
  {| title := str "Analysis"; content := contentToParse |}.

(** What a raw step is to become, in the words of the specification: with
    a body and a title it keeps both; with a body and no title it is titled
    "Step Details"; with a title and no body the title becomes the content
    and the step is titled "Explanation"; with neither there is no step. *)
Definition titledStep (rawStep : js_string) : option SolutionStep :=
  match bodyOf rawStep, candidateTitle rawStep with
  | [], [] => None
  | [], t => Some {| title := str "Explanation"; content := t |}
  | b, [] => Some {| title := str "Step Details"; content := b |}
  | b, t => Some {| title := t; content := b |}
  end.

(** The steps the raw steps become, in their order. *)
Definition titledSteps (rawSteps : list js_string) : list SolutionStep :=
  flat_map (fun raw => match titledStep raw with
                       | Some st => [st]
                       | None => []
                       end) rawSteps.

(** A string of white space. *)
Definition all_space (s : js_string) : Prop := forallb is_space s = true.

(** A continuation that never answers with a position before [lo]. *)
Definition cont_mono (lo : nat) (k : cont) : Prop :=
  forall pos s e, lo <= pos -> k pos s = Some e -> lo <= e.

(** What is left to do for the loop of [split] at the piece start [p] and
    the position [q]. *)
Definition split_measure (s : js_string) (p q : nat) : nat :=
  2 * (length s - q) + (if p =? q then 0 else 1).

(** A character that is neither "#" nor an asterisk, and a text made of
    such characters. *)
Definition unmarked_char (c : code_unit) : bool :=
  (negb (c =? 35) && negb (c =? 42))%N.

Definition unmarked (s : js_string) : Prop := forallb unmarked_char s = true.

(** The heading of the steps section as the pattern of the source has it:
    "##", any run of white space, and the phrase "Solution Steps" in any
    case; [n] is the length of the heading found at the start of [s]. *)
Definition steps_heading_prefix (s : js_string) (n : nat) : Prop :=
  exists ws ph rest,
    forallb is_space ws = true /\
    map canonicalize ph = map canonicalize (str "Solution Steps") /\
    s = str "##" ++ ws ++ ph ++ rest /\
    n = 2 + length ws + length ph.

Definition steps_heading_len (s : js_string) : option nat :=
  if starts_with true (str "##") s
     && starts_with true (str "Solution Steps")
          (drop_while is_space (skipn 2 s))
  then Some (2 + count_while is_space (skipn 2 s) + 14)
  else None.

(** The part of prefixRegex behind its anchor. *)
Definition prefixBody : regex :=
  Cat (Alt (Cat (lit true "Step")
                (Cat (Star true is_space) (Plus is_digit)))
           (Alt (Cat (lit true "Step")
                     (Cat (Plus is_space) (Chr is_letter)))
                (Cat (Plus is_digit) (lit true "."))))
      (Star true is_sep).

(** A string without line break. *)
Definition one_line (s : js_string) : Prop :=
  forallb (fun c => negb (c =? NL)%N) s = true.

(** The header line of a step in the format the prompt asks for,
    "### Step N: title", and the line the copy button writes, which has no
    "### " in front; [mk] is the part in front of "Step". *)
Definition stepHeader (mk ds ttl : js_string) : js_string :=
  mk ++ str "Step " ++ ds ++ str ": " ++ ttl.

(** A response in the format the prompt asks for (src/constants.ts,
    SYSTEM_INSTRUCTION): the heading "## Solution Steps", blocks
    "### Step N: title" with the body on the lines below, and the heading
    "## Final Answer" with the answer behind it.  A step is written with its
    number, title and body, and with the white space [stepGap] that follows
    its body before the line break in front of the next step. *)
Record FormattedStep : Type :=
  { stepNumber : js_string; stepTitle : js_string;
    stepBody : js_string; stepGap : js_string }.

Definition stepBlock (b : FormattedStep) : js_string :=
  stepHeader (str "### ") (stepNumber b) (stepTitle b) ++ NL :: stepBody b.

Fixpoint stepBlocks (bs : list FormattedStep) : js_string :=
  match bs with
  | [] => []
  | [b] => stepBlock b
  | b :: bs' => stepBlock b ++ stepGap b ++ NL :: stepBlocks bs'
  end.

(** The pieces the blocks are cut into: every block but the last keeps its
    gap. *)
Fixpoint stepPieces (bs : list FormattedStep) : list js_string :=
  match bs with
  | [] => []
  | [b] => [stepBlock b]
  | b :: bs' => (stepBlock b ++ stepGap b) :: stepPieces bs'
  end.

Definition response (g0 : js_string) (bs : list FormattedStep)
           (gN rest : js_string) : js_string :=
  str "## Solution Steps" ++ g0 ++ stepBlocks bs ++ gN
  ++ str "## Final Answer" ++ rest.

Definition well_formed_step (b : FormattedStep) : Prop :=
  stepNumber b <> [] /\ forallb is_digit (stepNumber b) = true /\
  one_line (stepTitle b) /\ unmarked (stepTitle b) /\
  trim (stepTitle b) = stepTitle b /\ stepTitle b <> [] /\
  is_sep (hd 0%N (stepTitle b)) = false /\
  unmarked (stepBody b) /\ trim (stepBody b) = stepBody b /\
  stepBody b <> [] /\ all_space (stepGap b).

Definition stepOf (b : FormattedStep) : SolutionStep :=
  {| title := stepTitle b; content := stepBody b |}.

(** [x] put in front of the first piece of [l]. *)
Definition prep (x : js_string) (l : list js_string) : list js_string :=
  match l with
  | h :: t => (x ++ h) :: t
  | [] => [x]
  end.

(** The cut before the lines that satisfy [B], along the string. *)
Fixpoint cut_rec (B : js_string -> bool) (s : js_string) : list js_string :=
  match s with
  | [] => [[]]
  | c :: s' =>
      if (c =? NL)%N && B s' then [] :: cut_rec B s'
      else prep [c] (cut_rec B s')
  end.

(** No line break of [u] has a "#" right behind it, [f] being the
    character that follows [u]. *)
Fixpoint calm (u : js_string) (f : code_unit) : bool :=
  match u with
  | [] => true
  | c :: u' =>
      (negb (c =? NL)%N || negb (hd f u' =? 35)%N) && calm u' f
  end.

(** No final-answer marker begins inside [p], whatever follows it. *)
Definition quiet (p : js_string) : Prop :=
  forall suf j, j < length p -> marker_len (skipn j (p ++ suf)) = None.

(** [s] holds two asterisks in a row, the bold marker. *)
Fixpoint has_bold (s : js_string) : bool :=
  match s with
  | [] => false
  | a :: t =>
      (match t with
       | b :: _ => (a =? 42)%N && (b =? 42)%N
       | [] => false
       end) || has_bold t
  end.

(** [b] is a part of [s] in one piece. *)
Definition infix_of (b s : js_string) : Prop :=
  exists a c, s = a ++ b ++ c.

(** A number in a template literal: its decimal digits. *)
Fixpoint digit_units (d : Decimal.uint) : js_string :=
  match d with
  | Decimal.Nil => []
  | Decimal.D0 d' => 48%N :: digit_units d'
  | Decimal.D1 d' => 49%N :: digit_units d'
  | Decimal.D2 d' => 50%N :: digit_units d'
  | Decimal.D3 d' => 51%N :: digit_units d'
  | Decimal.D4 d' => 52%N :: digit_units d'
  | Decimal.D5 d' => 53%N :: digit_units d'
  | Decimal.D6 d' => 54%N :: digit_units d'
  | Decimal.D7 d' => 55%N :: digit_units d'
  | Decimal.D8 d' => 56%N :: digit_units d'
  | Decimal.D9 d' => 57%N :: digit_units d'
  end.

Definition decimal (n : nat) : js_string := digit_units (Nat.to_uint n).

(** Line 511, the text of the copy button of a step:
    "Step ${index + 1}: ${step.title}\n${step.content}". *)
Definition stepCopyText (index : nat) (step : SolutionStep) : js_string :=
  str "Step " ++ decimal (index + 1) ++ str ": " ++ title step
  ++ NL :: content step.

(** A character of a plain line: no "#", no asterisk, no line break. *)
Definition plain_char (c : code_unit) : bool :=
  (negb (c =? 35) && negb (c =? 42) && negb (c =? NL))%N.

Definition plain (s : js_string) : Prop := forallb plain_char s = true.

(* ================================================================== *)
(** ** The solver around the parser *)

(** src/types.ts, lines 24 to 30. *)
Inductive SolveStatus : Type := IDLE | ANALYZING | SOLVING | COMPLETED | ERROR.

(** The state of the solver (lines 44 to 50). *)
Record Solver : Type :=
  { solveStatus : SolveStatus;
    inputText : js_string;
    selectedImage : option js_string;
    language : js_string;
    result : js_string }.

(** The arguments of a call of generateSolution (line 108): the values the
    callback of the timer has captured when the handler ran. *)
Record Request : Type :=
  { questionText : js_string;
    imageDataUri : option js_string;
    targetLanguage : js_string }.

(** What is under way outside the state: a timer set by line 105, or a
    request sent by line 108 and not yet answered. *)
Inductive Work : Type :=
| TimerSet (q : Request)
| Requested (q : Request).

Record Machine : Type := { ui : Solver; work : list Work }.

(** A string, or a string or null, taken as a condition. *)
Definition truthy (s : js_string) : bool := negb (is_empty s).
Definition truthy_opt (o : option js_string) : bool :=
  match o with Some s => truthy s | None => false end.

(** Line 248: [result ? parseResult(result) : null]. *)
Definition parsedData (s : Solver) : completion (option ParsedResult) :=
  if truthy (result s) then parseResult (result s) else Normal None.

(** The four panels of the solver card and their conditions (lines 348,
    435, 454 and 545). *)
Inductive Panel : Type := InputPanel | LoadingPanel | ResultPanel | ErrorPanel.

Definition inputPanel (s : Solver) : bool :=
  match solveStatus s with IDLE => true | _ => false end.

Definition loadingPanel (s : Solver) : bool :=
  match solveStatus s with ANALYZING | SOLVING => true | _ => false end.

Definition resultPanel (s : Solver) : bool :=
  match solveStatus s with
  | COMPLETED =>
      match parsedData s with Normal (Some _) => true | _ => false end
  | _ => false
  end.

Definition errorPanel (s : Solver) : bool :=
  match solveStatus s with ERROR => true | _ => false end.

Definition panels (s : Solver) : list Panel :=
  (if inputPanel s then [InputPanel] else [])
  ++ (if loadingPanel s then [LoadingPanel] else [])
  ++ (if resultPanel s then [ResultPanel] else [])
  ++ (if errorPanel s then [ErrorPanel] else []).

(** [handleSolve] up to the timer it sets (lines 95 to 105). *)
Definition handleSolve (m : Machine) : Machine :=
  if negb (truthy (inputText (ui m)))
     && negb (truthy_opt (selectedImage (ui m)))
  then m
  else
    {| ui := {| solveStatus := ANALYZING;
                inputText := inputText (ui m);
                selectedImage := selectedImage (ui m);
                language := language (ui m);
                result := [] |};
       work := work m
               ++ [TimerSet {| questionText := inputText (ui m);
                               imageDataUri := selectedImage (ui m);
                               targetLanguage := language (ui m) |}] |}.

(** [resetForm] (lines 135 to 140). *)
Definition resetForm (m : Machine) : Machine :=
  {| ui := {| solveStatus := IDLE; inputText := [];
              selectedImage := None; language := language (ui m);
              result := [] |};
     work := work m |}.

Definition setStatusResult (s : Solver) (st : SolveStatus) (r : js_string)
  : Solver :=
  {| solveStatus := st; inputText := inputText s;
     selectedImage := selectedImage s; language := language s;
     result := r |}.

(** What can happen to the solver. *)
Inductive Event : Type :=
| TypeText (t : js_string)
| PickLanguage (l : js_string)
| ImageLoaded (img : js_string)
| ClearImage
| ClickSolve
| ClickReset
| TimerFires (k : nat)
| Resolved (k : nat) (aiResponse : js_string)
| Rejected (k : nat) (message : js_string).

(** One event.  The controls of the input panel, its button (disabled
    without a question and without an image) and the reset buttons of the
    result and error panels exist only while their panel is shown; a timer or
    a request ends only if it is under way; the loading of an image ends at
    any time. *)
Definition step (m : Machine) (e : Event) : option Machine :=
  match e with
  | TypeText t =>
      if inputPanel (ui m) then
        Some {| ui := {| solveStatus := solveStatus (ui m); inputText := t;
                         selectedImage := selectedImage (ui m);
                         language := language (ui m);
                         result := result (ui m) |};
                work := work m |}
      else None
  | PickLanguage l =>
      if inputPanel (ui m) then
        Some {| ui := {| solveStatus := solveStatus (ui m);
                         inputText := inputText (ui m);
                         selectedImage := selectedImage (ui m);
                         language := l; result := result (ui m) |};
                work := work m |}
      else None
  | ImageLoaded img =>
      Some {| ui := {| solveStatus := solveStatus (ui m);
                       inputText := inputText (ui m);
                       selectedImage := Some img;
                       language := language (ui m);
                       result := result (ui m) |};
              work := work m |}
  | ClearImage =>
      if inputPanel (ui m) && truthy_opt (selectedImage (ui m)) then
        Some {| ui := {| solveStatus := solveStatus (ui m);
                         inputText := inputText (ui m);
                         selectedImage := None;
                         language := language (ui m);
                         result := result (ui m) |};
                work := work m |}
      else None
  | ClickSolve =>
      if inputPanel (ui m)
         && (truthy (inputText (ui m))
             || truthy_opt (selectedImage (ui m)))
      then Some (handleSolve m) else None
  | ClickReset =>
      if resultPanel (ui m) || errorPanel (ui m)
      then Some (resetForm m) else None
  | TimerFires k =>
      match nth_error (work m) k with
      | Some (TimerSet q) =>
          Some {| ui := setStatusResult (ui m) SOLVING (result (ui m));
                  work := firstn k (work m) ++ Requested q
                          :: skipn (S k) (work m) |}
      | _ => None
      end
  | Resolved k aiResponse =>
      match nth_error (work m) k with
      | Some (Requested q) =>
          Some {| ui := setStatusResult (ui m) COMPLETED aiResponse;
                  work := firstn k (work m) ++ skipn (S k) (work m) |}
      | _ => None
      end
  | Rejected k message =>
      match nth_error (work m) k with
      | Some (Requested q) =>
          Some {| ui := setStatusResult (ui m) ERROR
                          (str "Error: " ++ message);
                  work := firstn k (work m) ++ skipn (S k) (work m) |}
      | _ => None
      end
  end.

Fixpoint run (m : Machine) (es : list Event) : option Machine :=
  match es with
  | [] => Some m
  | e :: es' =>
      match step m e with
      | Some m' => run m' es'
      | None => None
      end
  end.

(** The state the component starts in (lines 44 to 50). *)
Definition initial : Machine :=
  {| ui := {| solveStatus := IDLE; inputText := []; selectedImage := None;
              language := str "English"; result := [] |};
     work := [] |}.

(** A request that carries a question text or an image. *)
Definition asked (q : Request) : Prop :=
  truthy (questionText q) || truthy_opt (imageDataUri q) = true.

(** What holds in every state the solver reaches. *)
Definition solver_invariant (m : Machine) : Prop :=
  match solveStatus (ui m) with
  | IDLE => result (ui m) = [] /\ work m = []
  | ANALYZING =>
      result (ui m) = [] /\ exists q, work m = [TimerSet q] /\ asked q
  | SOLVING =>
      result (ui m) = [] /\ exists q, work m = [Requested q] /\ asked q
  | COMPLETED => work m = []
  | ERROR =>
      work m = [] /\ starts_with false (str "Error: ") (result (ui m)) = true
  end.

(** Whatever is under way is for the text and the language of the state. *)
Definition form_request (m : Machine) : Prop :=
  forall q, In (TimerSet q) (work m) \/ In (Requested q) (work m) ->
            questionText q = inputText (ui m)
            /\ targetLanguage q = language (ui m).

(* ================================================================== *)
(** ** The parser over regular expression objects *)

(** In JavaScript a regular expression is an object.  It carries the
    position [lastIndex], which [exec] and [test] read and write when the
    object has the [g] flag, so that a call can find what an earlier call
    left.  This second embedding of [parseResult] keeps the objects in a
    store that every call receives and hands on.  No pattern of the source
    has the [y] flag, and the [i] flag is part of the pattern. *)
Record RegExpObject : Type :=
  { source : regex; global : bool; lastIndex : nat }.

(** The objects made so far; an object is named by its place. *)
Definition store : Type := list RegExpObject.

(** Code that runs on the store: the store it leaves and its outcome. *)
Definition St (A : Type) : Type := store -> store * completion A.

Definition ret {A} (a : A) : St A := fun h => (h, Normal a).

Definition bindSt {A B} (c : St A) (f : A -> St B) : St B :=
  fun h =>
    match c h with
    | (h', Normal a) => f a h'
    | (h', Throw e) => (h', Throw e)
    end.

Definition lift {A} (c : completion A) : St A := fun h => (h, c).

Notation "x <~ c ;; k" := (bindSt c (fun x => k))
  (at level 61, c at next level, right associativity).

(** The evaluation of a regular expression literal: every evaluation makes
    a new object, whose [lastIndex] is 0. *)
Definition newRegExp (r : regex) (g : bool) : St nat :=
  fun h =>
    (h ++ [{| source := r; global := g; lastIndex := 0 |}],
     Normal (length h)).

Fixpoint setLastIndex (a i : nat) (h : store) : store :=
  match h, a with
  | [], _ => []
  | R :: h', 0 =>
      {| source := source R; global := global R; lastIndex := i |} :: h'
  | R :: h', S a' => R :: setLastIndex a' i h'
  end.

(** RegExpBuiltinExec: the search starts at [lastIndex] when the object has
    the [g] flag and at 0 otherwise; with the flag, a match leaves its end in
    [lastIndex] and a failure leaves 0.  A receiver that is no regular
    expression object is a TypeError. *)
Definition regExpExec (a : nat) (s : js_string) : St (option reg_match) :=
  fun h =>
    match nth_error h a with
    | None => (h, Throw TypeError)
    | Some R =>
        let start := if global R then lastIndex R else 0 in
        let found :=
          if length s <? start then None
          else search (source R) start (skipn start s) in
        match found with
        | Some mt =>
            ((if global R
              then setLastIndex a (index mt + length (matched mt)) h
              else h),
             Normal (Some mt))
        | None =>
            ((if global R then setLastIndex a 0 h else h), Normal None)
        end
    end.

(** [r.test(s)] *)
Definition regExpTest (a : nat) (s : js_string) : St bool :=
  mt <~ regExpExec a s ;;
  ret (match mt with Some _ => true | None => false end).

(** [s.match(r)] for an object without the [g] flag, the only kind the
    source passes to [match]: RegExpExec. *)
Definition stringMatch (a : nat) (s : js_string) : St (option reg_match) :=
  regExpExec a s.

(** [s.replace(r, '')].  Without the [g] flag it is one search from
    position 0, which leaves the object as it is.  With the flag the method
    first sets [lastIndex] to 0 and removes every match; the search that finds
    no more leaves [lastIndex] at 0. *)
Definition stringReplace (a : nat) (s : js_string) : St js_string :=
  fun h =>
    match nth_error h a with
    | None => (h, Throw TypeError)
    | Some R =>
        if global R
        then (setLastIndex a 0 h, Normal (replace_all (source R) s))
        else (h, Normal (replace_first (source R) s))
    end.

(** [s.split(r)]: the method reads the pattern and the flags of the object
    and works on a copy of its own; the object is left as it is. *)
Definition stringSplit (a : nat) (s : js_string) : St (list js_string) :=
  fun h =>
    match nth_error h a with
    | None => (h, Throw TypeError)
    | Some R => (h, Normal (split (source R) s))
    end.

(** [a.map(f)] with a callback that runs on the store. *)
Fixpoint mapSt {A B} (f : A -> St B) (l : list A) : St (list B) :=
  match l with
  | [] => ret []
  | x :: l' => y <~ f x ;; ys <~ mapSt f l' ;; ret (y :: ys)
  end.

(** The cascade of lines 173 to 196, literal by literal. *)
Definition rawStepsOfSt (contentToParse : js_string) : St (list js_string) :=
  t1 <~ newRegExp headingTest false ;;
  b1 <~ regExpTest t1 contentToParse ;;
  if b1 then
    s1 <~ newRegExp headingSplit false ;;
    l <~ stringSplit s1 contentToParse ;;
    ret (filter nonblank l)
  else
    t2 <~ newRegExp boldTest false ;;
    b2 <~ regExpTest t2 contentToParse ;;
    if b2 then
      s2 <~ newRegExp boldSplit false ;;
      l <~ stringSplit s2 contentToParse ;;
      ret (filter nonblank l)
    else
      t3 <~ newRegExp stepTest false ;;
      b3 <~ regExpTest t3 contentToParse ;;
      if b3 then
        s3 <~ newRegExp stepSplit false ;;
        l <~ stringSplit s3 contentToParse ;;
        ret (filter nonblank l)
      else
        t4 <~ newRegExp numberTest false ;;
        b4 <~ regExpTest t4 contentToParse ;;
        if b4 then
          s4 <~ newRegExp numberSplit false ;;
          l <~ stringSplit s4 contentToParse ;;
          ret (filter nonblank l)
        else ret [contentToParse].

(** The callback of [rawSteps.map] (lines 198 to 232), literal by literal. *)
Definition cleanStepSt (rawStep : js_string) : St SolutionStep :=
  let lines := split_nl (trim rawStep) in
  header <~ lift (first_trim lines) ;;
  let content0 := trim (join_nl (slice1 lines)) in
  hashes <~ newRegExp headerHashes false ;;
  noHashes <~ stringReplace hashes header ;;
  stars <~ newRegExp boldStars true ;;
  title <~ stringReplace stars noHashes ;;
  prefixRegexObject <~ newRegExp prefixRegex false ;;
  prefixMatch <~ stringMatch prefixRegexObject title ;;
  let title0 :=
    match prefixMatch with
    | Some pm => trim (substring_from title (length (matched pm)))
    | None => title
    end in
  let '(title1, content1) :=
    if is_empty content0 then
      if 0 <? length title0 then (str "Explanation", title0)
      else (title0, content0)
    else (title0, content0) in
  let title2 := if is_empty title1 then str "Step Details" else title1 in
  ret {| title := title2; content := content1 |}.

(** [parseResult] (lines 143 to 246) on the store. *)
Definition parseResultSt (text : js_string) : St (option ParsedResult) :=
  if is_empty text then ret None
  else
    finalAnswerRegexObject <~ newRegExp finalAnswerRegex false ;;
    finalMatch <~ stringMatch finalAnswerRegexObject text ;;
    found <~ match finalMatch with
             | Some fm =>
                 lead <~ newRegExp leadRegex false ;;
                 fa <~ stringReplace lead
                         (substring_from text
                            (index fm + length (matched fm))) ;;
                 ret (trim fa, trim (substring text 0 (index fm)))
             | None => ret ([], text)
             end ;;
    let '(fa, stepsText) := found in
    stepsHeaderRegexObject <~ newRegExp stepsHeaderRegex false ;;
    stepsMatch <~ stringMatch stepsHeaderRegexObject stepsText ;;
    let contentToParse :=
      match stepsMatch with
      | Some sm =>
          trim (substring_from stepsText (index sm + length (matched sm)))
      | None => stepsText
      end in
    rawSteps <~ rawStepsOfSt contentToParse ;;
    cleaned <~ mapSt cleanStepSt rawSteps ;;
    ret (Some (finish (filter hasContent cleaned) contentToParse fa)).

(** The object a literal evaluates to. *)
Definition fresh (r : regex) (g : bool) : RegExpObject :=
  {| source := r; global := g; lastIndex := 0 |}.

(** The code [c] has the outcome [v] in every store, and leaves the objects
    it found as they were, with its own behind them. *)
Definition runs_as {A} (c : St A) (v : completion A) : Prop :=
  forall h, exists news, c h = (h ++ news, v).

(* ================================================================== *)
(** ** Basic facts about the string primitives *)

Lemma is_empty_true (s : js_string) : is_empty s = true <-> s = [].
Proof. destruct s; simpl; split; congruence. Qed.

Lemma is_empty_false (s : js_string) : is_empty s = false <-> s <> [].
Proof. destruct s; simpl; split; congruence. Qed.

Lemma split_nl_not_nil (s : js_string) : split_nl s <> [].
Proof.
  induction s as [|c s IH]; simpl; [discriminate|].
  destruct (c =? NL)%N; [discriminate|].
  destruct (split_nl s); discriminate.
Qed.

Lemma first_trim_split_nl (s : js_string) :
  first_trim (split_nl s) = Normal (trim (hd [] (split_nl s))).
Proof.
  unfold first_trim. pose proof (split_nl_not_nil s) as H.
  destruct (split_nl s); [contradiction|reflexivity].
Qed.

(** The callback of [map] always returns. *)
Lemma cleanStep_returns (rawStep : js_string) :
  exists st, cleanStep rawStep = Normal st.
Proof.
  unfold cleanStep. rewrite first_trim_split_nl. simpl.
  destruct (is_empty _); [destruct (0 <? _)|]; eexists; reflexivity.
Qed.

Lemma mapM_returns {A B} (f : A -> completion B) (l : list A) :
  (forall x, exists y, f x = Normal y) ->
  exists ys, mapM f l = Normal ys /\ Forall2 (fun x y => f x = Normal y) l ys.
Proof.
  intros Hf. induction l as [|x l [ys [E F]]]; simpl.
  - exists []. split; [reflexivity|constructor].
  - destruct (Hf x) as [y Ey]. rewrite Ey, E. simpl.
    exists (y :: ys). split; [reflexivity|constructor; assumption].
Qed.

(** The shape of every run on a non-empty input. *)
Lemma parseResult_shape (text : js_string) :
  text <> [] ->
  exists cleaned,
    mapM cleanStep (rawStepsOf (contentToParseOf (stepsTextOf text)))
      = Normal cleaned /\
    Forall2 (fun raw st => cleanStep raw = Normal st)
            (rawStepsOf (contentToParseOf (stepsTextOf text))) cleaned /\
    parseResult text =
      Normal (Some (finish (filter hasContent cleaned)
                           (contentToParseOf (stepsTextOf text))
                           (finalAnswerOf text))).
Proof.
  intros Hne. unfold parseResult.
  apply is_empty_false in Hne. rewrite Hne.
  destruct (mapM_returns cleanStep
              (rawStepsOf (contentToParseOf (stepsTextOf text)))
              cleanStep_returns) as [cleaned [E F]].
  exists cleaned. rewrite E. simpl. auto.
Qed.

Lemma parseResult_empty : parseResult [] = Normal None.
Proof. reflexivity. Qed.

(** What [finish] guarantees, whatever the kept steps are. *)
Lemma finish_fallback (kept : list SolutionStep) (c fa : js_string) :
  let p := finish kept c fa in
  (fallback p = true -> steps p = [] /\ finalAnswer p = []) /\
  (fallback p = false -> steps p <> [] \/ finalAnswer p <> []).
Proof.
  unfold finish. destruct kept as [|st kept]; simpl.
  - destruct (0 <? length (trim c)); simpl.
    + split; [discriminate|]. intros _. left. discriminate.
    + destruct fa as [|a fa]; simpl.
      * split; [auto|discriminate].
      * split; [discriminate|]. intros _. right. discriminate.
  - split; [discriminate|]. intros _. left. discriminate.
Qed.

(** The title a cleaned step ends with is never empty. *)
Lemma cleanStep_title (rawStep : js_string) (st : SolutionStep) :
  cleanStep rawStep = Normal st -> title st <> [].
Proof.
  unfold cleanStep. rewrite first_trim_split_nl. simpl.
  set (t := stripPrefix _). set (b := trim (join_nl _)).
  destruct (is_empty b).
  - destruct t as [|a t']; simpl; intros E; inversion E; simpl; discriminate.
  - destruct t as [|a t']; simpl; intros E; inversion E; simpl; discriminate.
Qed.

Lemma Forall2_In_r {A B} (R : A -> B -> Prop) xs ys y :
  Forall2 R xs ys -> In y ys -> exists x, In x xs /\ R x y.
Proof.
  intros F. induction F as [|x y' xs ys HR F IH]; intros Hin.
  - destruct Hin.
  - destruct Hin as [->|Hin].
    + exists x. split; [left; reflexivity|exact HR].
    + destruct (IH Hin) as [x' [Hx HR']]. exists x'. split; [right|]; auto.
Qed.

Lemma finish_finalAnswer kept c fa : finalAnswer (finish kept c fa) = fa.
Proof.
  unfold finish. destruct (length kept =? 0); [|reflexivity].
  destruct (0 <? length (trim c)); [reflexivity|].
  destruct (is_empty fa); reflexivity.
Qed.

(** The steps the closing block returns: the kept ones, or the one step
    made of the whole content when none is kept and the content is not
    blank. *)
Lemma finish_steps kept c fa :
  steps (finish kept c fa) =
  match kept with
  | [] => if is_empty (trim c) then [] else [analysisStep c]
  | _ :: _ => kept
  end.
Proof.
  unfold finish. destruct kept as [|st kept]; simpl; [|reflexivity].
  destruct (trim c); simpl; [|reflexivity].
  destruct (is_empty fa); reflexivity.
Qed.

(** The three outcomes of the callback of [map]. *)
Lemma cleanStep_cases (rawStep : js_string) :
  cleanStep rawStep =
  Normal
    (match bodyOf rawStep, candidateTitle rawStep with
     | [], [] => {| title := str "Step Details"; content := [] |}
     | [], t => {| title := str "Explanation"; content := t |}
     | b, [] => {| title := str "Step Details"; content := b |}
     | b, t => {| title := t; content := b |}
     end).
Proof.
  unfold cleanStep, bodyOf, candidateTitle, headerOf.
  rewrite first_trim_split_nl. simpl.
  destruct (trim (join_nl _)) as [|b0 b]; simpl;
    destruct (stripPrefix _) as [|t0 t]; reflexivity.
Qed.

(* ================================================================== *)
(** ** The matcher *)

Lemma count_drop (p : code_unit -> bool) (s : js_string) :
  skipn (count_while p s) s = drop_while p s.
Proof.
  induction s as [|c s IH]; simpl; [reflexivity|].
  destruct (p c); simpl; auto.
Qed.

Lemma drop_while_head (p : code_unit -> bool) (s : js_string) c r :
  drop_while p s = c :: r -> p c = false.
Proof.
  induction s as [|a s IH]; simpl; [discriminate|].
  destruct (p a) eqn:E; [assumption|]. intros H. inversion H. subst. exact E.
Qed.

Lemma drop_while_fix (p : code_unit -> bool) (s : js_string) :
  p (hd 0%N s) = false -> drop_while p s = s.
Proof. destruct s as [|c s]; simpl; [reflexivity|]. intros ->. reflexivity. Qed.

Lemma drop_while_all (p : code_unit -> bool) (s : js_string) :
  forallb p s = true -> drop_while p s = [].
Proof.
  induction s as [|c s IH]; simpl; [reflexivity|].
  intros H. apply andb_true_iff in H. destruct H as [-> H]. auto.
Qed.

(** A literal consumes exactly its own characters. *)
Lemma m_lit_of (ci : bool) (cs : js_string) (k : cont) pos s :
  m (lit_of ci cs) k pos s =
  if starts_with ci cs s then k (pos + length cs) (skipn (length cs) s)
  else None.
Proof.
  revert pos s. induction cs as [|a cs IH]; intros pos s; simpl.
  - rewrite Nat.add_0_r. reflexivity.
  - destruct s as [|c s]; [reflexivity|].
    destruct (char_is ci a c); simpl; [|reflexivity].
    rewrite IH. rewrite Nat.add_succ_r. reflexivity.
Qed.

(** A greedy repetition whose continuation cannot start on a character of
    the class takes the whole run. *)
Lemma star_greedy_skip (p : code_unit -> bool) (k : cont) pos s :
  (forall pos' c s', p c = true -> k pos' (c :: s') = None) ->
  star_greedy p k pos s = k (pos + count_while p s) (drop_while p s).
Proof.
  intros Hk. revert pos. induction s as [|c s IH]; intros pos; simpl.
  - rewrite Nat.add_0_r. reflexivity.
  - destruct (p c) eqn:E.
    + rewrite IH. rewrite Nat.add_succ_r. simpl.
      destruct (k (S (pos + count_while p s)) (drop_while p s));
        [reflexivity|]. apply Hk. exact E.
    + rewrite Nat.add_0_r. reflexivity.
Qed.

(** A greedy repetition in front of a continuation that always accepts
    takes the whole run as well. *)
Lemma star_greedy_accept (p : code_unit -> bool) pos s :
  star_greedy p (fun e _ => Some e) pos s = Some (pos + count_while p s).
Proof.
  revert pos. induction s as [|c s IH]; intros pos; simpl.
  - rewrite Nat.add_0_r. reflexivity.
  - destruct (p c).
    + rewrite IH. rewrite Nat.add_succ_r. reflexivity.
    + rewrite Nat.add_0_r. reflexivity.
Qed.

(** An anchored pattern matches at the start of the input only. *)
Lemma search_bol_later (r : regex) pos s :
  search (Cat Bol r) (S pos) s = None.
Proof.
  revert pos. induction s as [|c s IH]; intros pos; simpl; auto.
Qed.

Lemma exec_bol (r : regex) s :
  exec (Cat Bol r) s =
  match match_at r 0 s with
  | Some e => Some {| index := 0; matched := firstn e s |}
  | None => None
  end.
Proof.
  unfold exec. destruct s as [|c s]; simpl; unfold match_at; simpl.
  - destruct (m r _ 0 []); [rewrite Nat.sub_0_r|]; reflexivity.
  - destruct (m r _ 0 (c :: s)); [rewrite Nat.sub_0_r; reflexivity|].
    apply search_bol_later.
Qed.

(** If the pattern matches nowhere on strings of a kind that is closed under
    taking tails, the search fails on them. *)
Lemma search_none (Q : js_string -> Prop) (r : regex) :
  (forall c s, Q (c :: s) -> Q s) ->
  (forall pos s, Q s -> match_at r pos s = None) ->
  forall pos s, Q s -> search r pos s = None.
Proof.
  intros Htl Hm pos s. revert pos.
  induction s as [|c s IH]; intros pos HQ; simpl; rewrite (Hm _ _ HQ); auto.
  apply IH. eapply Htl. exact HQ.
Qed.

(** Where the leftmost match is. *)
Lemma search_some (r : regex) pos s mt :
  search r pos s = Some mt ->
  exists e, pos <= index mt /\ index mt - pos <= length s /\
    match_at r (index mt) (skipn (index mt - pos) s) = Some e /\
    matched mt = firstn (e - index mt) (skipn (index mt - pos) s) /\
    forall j, j < index mt - pos ->
      match_at r (pos + j) (skipn j s) = None.
Proof.
  revert pos. induction s as [|c s IH]; intros pos; simpl.
  - destruct (match_at r pos []) eqn:E; [|discriminate].
    intros H. inversion H. subst. simpl. exists n.
    rewrite Nat.sub_diag. simpl. repeat split; auto. intros j Hj. lia.
  - destruct (match_at r pos (c :: s)) eqn:E.
    + intros H. inversion H. subst. simpl. exists n.
      rewrite Nat.sub_diag. simpl. repeat split; auto; try lia.
    + intros H. destruct (IH _ H) as [e [Hle [Hlen [Hm [Hmt Hno]]]]].
      exists e.
      replace (index mt - pos) with (S (index mt - S pos)) by lia. simpl.
      repeat split; auto; try lia.
      intros j Hj. destruct j as [|j]; simpl.
      * rewrite Nat.add_0_r. exact E.
      * rewrite Nat.add_succ_r. apply Hno. lia.
Qed.

(** The leftmost match, from the first position where the pattern matches. *)
Lemma search_first (r : regex) pos s i e :
  i <= length s ->
  match_at r (pos + i) (skipn i s) = Some e ->
  (forall j, j < i -> match_at r (pos + j) (skipn j s) = None) ->
  search r pos s =
    Some {| index := pos + i; matched := firstn (e - (pos + i)) (skipn i s) |}.
Proof.
  revert pos s. induction i as [|i IH]; intros pos s Hlen Hm Hno.
  - rewrite Nat.add_0_r in *. simpl in *.
    destruct s; simpl; rewrite Hm; reflexivity.
  - destruct s as [|c s]; [simpl in Hlen; lia|].
    simpl. pose proof (Hno 0 ltac:(lia)) as H0. simpl in H0.
    rewrite Nat.add_0_r in H0. rewrite H0.
    rewrite Nat.add_succ_r in *. simpl in Hm.
    rewrite (IH (S pos) s); simpl in *; auto; try lia.
    intros j Hj. specialize (Hno (S j) ltac:(lia)).
    rewrite Nat.add_succ_r in Hno. exact Hno.
Qed.

(* ================================================================== *)
(** ** The loops have fuel enough *)

Lemma star_greedy_mono (p : code_unit -> bool) (k : cont) lo :
  cont_mono lo k -> cont_mono lo (star_greedy p k).
Proof.
  intros Hk pos s. revert pos. induction s as [|c s IH]; intros pos e Hle.
  - simpl. apply Hk. exact Hle.
  - simpl. destruct (p c); [|apply Hk; exact Hle].
    destruct (star_greedy p k (S pos) s) eqn:E.
    + intros H. inversion H. subst. apply (IH (S pos)); [lia|exact E].
    + apply Hk. exact Hle.
Qed.

Lemma star_lazy_mono (p : code_unit -> bool) (k : cont) lo :
  cont_mono lo k -> cont_mono lo (star_lazy p k).
Proof.
  intros Hk pos s. revert pos. induction s as [|c s IH]; intros pos e Hle.
  - simpl. destruct (k pos []) eqn:E; [|discriminate].
    intros H. inversion H. subst. apply (Hk pos [] e Hle E).
  - simpl. destruct (k pos (c :: s)) eqn:E.
    + intros H. inversion H. subst. apply (Hk pos (c :: s) e Hle E).
    + destruct (p c); [|discriminate]. apply IH. lia.
Qed.

(** A match never ends before the position it started from. *)
Lemma m_mono (r : regex) :
  forall k lo, cont_mono lo k -> cont_mono lo (m r k).
Proof.
  induction r as [|p|r1 IH1 r2 IH2|r1 IH1 r2 IH2|g p| |r IH];
    intros k lo Hk pos s e Hle; simpl.
  - apply Hk. exact Hle.
  - destruct s as [|c s]; [discriminate|].
    destruct (p c); [|discriminate]. apply Hk. lia.
  - apply IH1; [|exact Hle]. apply IH2. exact Hk.
  - destruct (m r1 k pos s) eqn:E.
    + intros H. inversion H. subst. apply (IH1 k lo Hk pos s e Hle E).
    + apply IH2; assumption.
  - destruct g; [apply star_greedy_mono|apply star_lazy_mono]; assumption.
  - destruct (pos =? 0); [|discriminate]. apply Hk. exact Hle.
  - destruct (m r _ pos s); [|discriminate]. apply Hk. exact Hle.
Qed.

Lemma match_at_ge (r : regex) pos s e : match_at r pos s = Some e -> pos <= e.
Proof.
  unfold match_at. apply (m_mono r (fun e _ => Some e) pos); [|lia].
  intros pos' s' e' Hle H. inversion H. subst. exact Hle.
Qed.

(** The loop of [split] gives the same pieces with any fuel above its
    measure; [split] starts it with more. *)
Lemma split_loop_fuel (r : regex) (s : js_string) :
  forall f1 f2 p q,
    p <= q -> split_measure s p q < f1 -> split_measure s p q < f2 ->
    split_loop f1 r s p q = split_loop f2 r s p q.
Proof.
  unfold split_measure.
  induction f1 as [|f1 IH]; intros f2 p q Hpq H1 H2; [lia|].
  destruct f2 as [|f2]; [lia|]. simpl.
  destruct (length s <=? q) eqn:Hq; [reflexivity|].
  apply Nat.leb_gt in Hq.
  assert (Hadv : split_loop f1 r s p (S q) = split_loop f2 r s p (S q)).
  { apply IH; [lia| |];
      destruct (p =? q), (p =? S q); lia. }
  destruct (match_at r q (skipn q s)) as [e0|] eqn:E; [|exact Hadv].
  apply match_at_ge in E.
  destruct (Nat.min e0 (length s) =? p) eqn:Ep; [exact Hadv|].
  apply Nat.eqb_neq in Ep. f_equal.
  apply IH; [lia| |]; rewrite Nat.eqb_refl;
    destruct (p =? q) eqn:Epq;
    try (apply Nat.eqb_eq in Epq); lia.
Qed.

Lemma split_fuel (r : regex) (s : js_string) (fuel : nat) :
  s <> [] -> 2 * length s < fuel -> split r s = split_loop fuel r s 0 0.
Proof.
  intros Hne Hf. unfold split. destruct s as [|c s]; [congruence|].
  apply split_loop_fuel; unfold split_measure; simpl in *; lia.
Qed.

(** The loop of the global [replace] as well. *)
Lemma replace_loop_fuel (r : regex) :
  forall f1 f2 pos s,
    length s < f1 -> length s < f2 ->
    replace_loop f1 r pos s = replace_loop f2 r pos s.
Proof.
  induction f1 as [|f1 IH]; intros f2 pos s H1 H2; [lia|].
  destruct f2 as [|f2]; [lia|]. simpl.
  destruct (search r pos s) as [mt|] eqn:E; [|reflexivity].
  destruct (search_some r pos s mt E) as [e [Hle [Hlen [_ [Hmt _]]]]].
  f_equal. destruct (length (matched mt) =? 0) eqn:En.
  - destruct (skipn (index mt - pos) s) as [|c rest] eqn:Es; [reflexivity|].
    f_equal. apply (f_equal (@length _)) in Es.
    rewrite length_skipn in Es. simpl in Es. apply IH; lia.
  - apply Nat.eqb_neq in En.
    assert (Hn : length (matched mt) <= length s - (index mt - pos)).
    { rewrite Hmt, length_firstn, length_skipn. lia. }
    apply IH; rewrite length_skipn; lia.
Qed.

(* ================================================================== *)
(** ** Splitting before the lines that begin with a pattern *)

Lemma skipn_nth (s : js_string) q :
  q < length s -> skipn q s = nth q s 0%N :: skipn (S q) s.
Proof.
  revert q. induction s as [|c s IH]; intros q H; simpl in H; [lia|].
  destruct q as [|q]; [reflexivity|]. simpl. apply IH. lia.
Qed.

Lemma substring_le (s : js_string) p q :
  p <= q -> substring s p q = firstn (q - p) (skipn p s).
Proof.
  intros H. unfold substring.
  rewrite Nat.max_r, Nat.min_l by lia. reflexivity.
Qed.

Section LineSplit.

Variable body : regex.

(** The pattern after the line start begins with a character that is not
    a line break. *)
Hypothesis body_not_nl : forall pos s, ahead_ok body pos (NL :: s) = false.
Hypothesis body_not_nil : forall pos, ahead_ok body pos [] = false.

Lemma match_at_lineSplit q s :
  match_at (Cat lineStart (Ahead body)) q s =
  if (q =? 0) && ahead_ok body q s then Some q
  else match s with
       | c :: s' =>
           if (c =? NL)%N && ahead_ok body (S q) s' then Some (S q)
           else None
       | [] => None
       end.
Proof.
  unfold match_at, lineStart, ahead_ok, match_at. simpl.
  destruct (q =? 0); simpl.
  - destruct (m body _ q s); [reflexivity|].
    destruct s as [|c s]; [reflexivity|].
    destruct (c =? NL)%N; simpl; [|reflexivity].
    destruct (m body _ (S q) s); reflexivity.
  - destruct s as [|c s]; [reflexivity|].
    destruct (c =? NL)%N; simpl; [|reflexivity].
    destruct (m body _ (S q) s); reflexivity.
Qed.

Lemma filter_seq_step (f : nat -> bool) q n :
  filter f (seq q (S n)) =
  if f q then q :: filter f (seq (S q) n) else filter f (seq (S q) n).
Proof. reflexivity. Qed.

Lemma split_loop_cut (s : js_string) fuel p q :
  p <= q -> length s - q < fuel ->
  split_loop fuel (Cat lineStart (Ahead body)) s p q =
  slices s p (filter (boundary body s) (seq q (length s - q))).
Proof.
  revert p q. induction fuel as [|fuel IH]; intros p q Hpq Hfuel; [lia|].
  simpl. destruct (length s <=? q) eqn:Hq.
  - apply Nat.leb_le in Hq.
    replace (length s - q) with 0 by lia. reflexivity.
  - apply Nat.leb_gt in Hq.
    replace (length s - q) with (S (length s - S q)) by lia.
    rewrite filter_seq_step, match_at_lineSplit.
    rewrite (skipn_nth s q Hq). unfold boundary at 1.
    set (t := skipn (S q) s).
    destruct ((q =? 0) && ahead_ok body q (nth q s 0%N :: t)) eqn:H0.
    + apply andb_true_iff in H0. destruct H0 as [Hz Ha].
      apply Nat.eqb_eq in Hz. subst q.
      assert (p = 0) by lia. subst p.
      rewrite Nat.min_l by lia. simpl.
      destruct (nth 0 s 0 =? NL)%N eqn:En.
      * apply N.eqb_eq in En. rewrite En in Ha.
        rewrite body_not_nl in Ha. discriminate.
      * simpl. apply IH; lia.
    + destruct (nth q s 0 =? NL)%N eqn:En; simpl.
      * destruct (ahead_ok body (S q) t) eqn:Ea.
        -- rewrite Nat.min_l by lia.
           destruct (S q =? p) eqn:Ep; [apply Nat.eqb_eq in Ep; lia|].
           rewrite substring_le by lia. simpl. f_equal.
           apply IH; lia.
        -- apply IH; lia.
      * apply IH; lia.
Qed.

(** The split cuts the string before every line that begins with the
    pattern, drops the line break there, and cuts nowhere else. *)
Lemma split_cut_lines (s : js_string) :
  split (Cat lineStart (Ahead body)) s = cut_lines body s.
Proof.
  unfold split, cut_lines. destruct s as [|c s].
  - rewrite match_at_lineSplit. rewrite body_not_nil. reflexivity.
  - rewrite split_loop_cut; [|lia|simpl; lia].
    rewrite Nat.sub_0_r. reflexivity.
Qed.

End LineSplit.

Lemma slices_not_nil (s : js_string) p bs : slices s p bs <> [].
Proof. destruct bs; simpl; discriminate. Qed.

(** The pieces of a cut, put together again with the dropped line breaks,
    give the string back. *)
Lemma slices_filter_join (s : js_string) (B : nat -> bool) n p q :
  p <= q -> q + n = length s ->
  (forall i, B i = true -> nth i s 0%N = NL) ->
  join_nl (slices s p (filter B (seq q n))) = skipn p s.
Proof.
  intros Hpq Hlen HB. revert p q Hpq Hlen.
  induction n as [|n IH]; intros p q Hpq Hlen; [reflexivity|].
  rewrite filter_seq_step. destruct (B q) eqn:Eq.
  - simpl. pose proof (slices_not_nil s (S q) (filter B (seq (S q) n))) as Hn.
    pose proof (IH (S q) (S q) ltac:(lia) ltac:(lia)) as E.
    destruct (slices s (S q) (filter B (seq (S q) n))) eqn:Es; [congruence|].
    rewrite E. rewrite <- (firstn_skipn (q - p) (skipn p s)) at 2.
    f_equal. rewrite skipn_skipn.
    replace (q - p + p) with q by lia.
    rewrite (skipn_nth s q) by lia. rewrite (HB _ Eq). reflexivity.
  - apply IH; lia.
Qed.

Lemma cut_lines_join (body : regex) (s : js_string) :
  join_nl (cut_lines body s) = s.
Proof.
  unfold cut_lines.
  rewrite (slices_filter_join s (boundary body s) (length s) 0 0);
    try reflexivity; try lia.
  intros i Hi. unfold boundary in Hi. apply andb_true_iff in Hi.
  destruct Hi as [Hi _]. apply N.eqb_eq in Hi. exact Hi.
Qed.

(* ================================================================== *)
(** ** Character classes *)

Ltac bool_to_prop H :=
  repeat (rewrite ?orb_true_iff, ?andb_true_iff, ?orb_false_iff,
            ?andb_false_iff, ?negb_true_iff, ?negb_false_iff,
            ?N.eqb_eq, ?N.eqb_neq, ?N.leb_le, ?N.leb_gt in H).

Lemma space_canonical (c : code_unit) :
  is_space c = true -> canonicalize c = c.
Proof.
  intros H. unfold canonicalize, is_lower.
  destruct ((97 <=? c) && (c <=? 122))%N eqn:E; [|reflexivity].
  unfold is_space in H. bool_to_prop H. bool_to_prop E. lia.
Qed.

Lemma space_char_is (ci : bool) (a c : code_unit) :
  is_space c = true -> is_space a = false ->
  is_space (canonicalize a) = false -> char_is ci a c = false.
Proof.
  intros Hc Ha Hca. unfold char_is. destruct ci.
  - rewrite (space_canonical _ Hc). apply N.eqb_neq. intros ->. congruence.
  - apply N.eqb_neq. intros ->. congruence.
Qed.

Lemma space_not_digit (c : code_unit) : is_space c = true -> is_digit c = false.
Proof.
  intros H. unfold is_digit.
  destruct ((48 <=? c) && (c <=? 57))%N eqn:E; [|reflexivity].
  unfold is_space in H. bool_to_prop H. bool_to_prop E. lia.
Qed.

Lemma digit_not_dot (c : code_unit) : is_digit c = true -> (c =? 46)%N = false.
Proof.
  intros H. unfold is_digit in H. bool_to_prop H. apply N.eqb_neq. lia.
Qed.

(* ------------------------------------------------------------------ *)
(** ** White space and [trim] *)

Lemma trim_all_space (s : js_string) : forallb is_space s = true -> trim s = [].
Proof.
  intros H. unfold trim, trimStart, trimEnd.
  rewrite (drop_while_all _ _ H). reflexivity.
Qed.

Lemma forallb_tail {A} (f : A -> bool) c s :
  forallb f (c :: s) = true -> forallb f s = true.
Proof. simpl. intros H. apply andb_true_iff in H. tauto. Qed.

Lemma drop_while_suffix (p : code_unit -> bool) (s : js_string) :
  exists pre, s = pre ++ drop_while p s /\ forallb p pre = true.
Proof.
  induction s as [|c s [pre [E F]]]; simpl.
  - exists []. auto.
  - destruct (p c) eqn:Ec.
    + exists (c :: pre). simpl. rewrite Ec, F. split; [f_equal; exact E|auto].
    + exists []. auto.
Qed.

(** [trim s] is [s] without a run of white space at each end. *)
Lemma trim_decompose (s : js_string) :
  exists pre post, s = pre ++ trim s ++ post /\
    forallb is_space pre = true /\ forallb is_space post = true.
Proof.
  unfold trim, trimEnd, trimStart.
  destruct (drop_while_suffix is_space s) as [pre [E F]].
  destruct (drop_while_suffix is_space (rev (drop_while is_space s)))
    as [post [E' F']].
  exists pre, (rev post). repeat split; auto.
  - rewrite E at 1. f_equal. rewrite <- rev_app_distr, <- E'.
    symmetry. apply rev_involutive.
  - rewrite forallb_forall in *. intros x Hx. apply F'.
    apply in_rev. exact Hx.
Qed.

Lemma forallb_trim (f : code_unit -> bool) (s : js_string) :
  forallb f s = true -> forallb f (trim s) = true.
Proof.
  destruct (trim_decompose s) as [pre [post [E _]]].
  intros H. rewrite E in H. rewrite !forallb_app in H.
  repeat (apply andb_true_iff in H; destruct H as [? H]); tauto.
Qed.

(** A trimmed string starts and ends on a character that is not white. *)
Lemma trim_head (s : js_string) c r : trim s = c :: r -> is_space c = false.
Proof.
  unfold trim, trimEnd, trimStart. intros H.
  destruct (drop_while_suffix is_space (rev (drop_while is_space s)))
    as [post [E' F']].
  set (a := drop_while is_space s) in *.
  set (y := drop_while is_space (rev a)) in *.
  assert (Ea : a = rev y ++ rev post).
  { rewrite <- rev_app_distr, <- E'. symmetry. apply rev_involutive. }
  rewrite H in Ea. simpl in Ea. eapply drop_while_head. exact Ea.
Qed.

Lemma trim_last (s : js_string) c r :
  rev (trim s) = c :: r -> is_space c = false.
Proof.
  unfold trim, trimEnd. rewrite rev_involutive. apply drop_while_head.
Qed.

Lemma trim_idem (s : js_string) : trim (trim s) = trim s.
Proof.
  destruct (trim s) as [|c r] eqn:E; [reflexivity|].
  unfold trim at 1. unfold trimStart, trimEnd.
  rewrite (drop_while_fix is_space (c :: r)) by (simpl; eapply trim_head; eauto).
  rewrite <- E. destruct (rev (trim s)) as [|d t] eqn:Er.
  - apply (f_equal (@rev _)) in Er. rewrite rev_involutive in Er.
    rewrite Er. reflexivity.
  - rewrite (drop_while_fix is_space (d :: t))
      by (simpl; eapply trim_last; eauto).
    rewrite <- Er. apply rev_involutive.
Qed.

(* ================================================================== *)
(** ** The patterns of the parser *)

(** None of the four line patterns can begin on a line break or on the end
    of the input. *)
Lemma headingMark_not_nl pos s : ahead_ok headingMark pos (NL :: s) = false.
Proof. reflexivity. Qed.
Lemma stepMark_not_nl pos s : ahead_ok stepMark pos (NL :: s) = false.
Proof. reflexivity. Qed.
Lemma numberMark_not_nl pos s : ahead_ok numberMark pos (NL :: s) = false.
Proof. reflexivity. Qed.

Lemma headingMark_not_nil pos : ahead_ok headingMark pos [] = false.
Proof. reflexivity. Qed.
Lemma stepMark_not_nil pos : ahead_ok stepMark pos [] = false.
Proof. reflexivity. Qed.
Lemma numberMark_not_nil pos : ahead_ok numberMark pos [] = false.
Proof. reflexivity. Qed.

(** A pattern behind the line start matches nowhere on strings of a kind,
    closed under tails, on which the pattern itself never matches. *)
Lemma lineStart_none (Q : js_string -> Prop) (r : regex) :
  (forall c s, Q (c :: s) -> Q s) ->
  (forall pos s, Q s -> match_at r pos s = None) ->
  forall pos s, Q s -> match_at (Cat lineStart r) pos s = None.
Proof.
  intros Htl Hr pos s HQ. unfold match_at in *. simpl.
  destruct (pos =? 0).
  - rewrite (Hr _ _ HQ). destruct s as [|c s]; [reflexivity|].
    destruct (c =? NL)%N; [|reflexivity]. apply Hr. eapply Htl; eauto.
  - destruct s as [|c s]; [reflexivity|].
    destruct (c =? NL)%N; [|reflexivity]. apply Hr. eapply Htl; eauto.
Qed.

Lemma test_false_iff (r : regex) s : test r s = false <-> exec r s = None.
Proof. unfold test. destruct (exec r s); split; congruence. Qed.

(** *** On white space alone, no pattern of the parser matches *)

Lemma all_space_tail c s : all_space (c :: s) -> all_space s.
Proof. apply forallb_tail. Qed.

Lemma all_space_head c s : all_space (c :: s) -> is_space c = true.
Proof. unfold all_space. simpl. intros H. apply andb_true_iff in H. tauto. Qed.

Arguments char_is : simpl never.
Arguments is_digit : simpl never.
Arguments is_space : simpl never.

Ltac space_first :=
  let c := fresh "c" in
  let s := fresh "s" in
  let H := fresh "H" in
  intros ? [|c s] H; unfold match_at; simpl; [reflexivity|];
  apply all_space_head in H;
  rewrite ?(space_char_is true 35%N c H eq_refl eq_refl),
          ?(space_char_is true 42%N c H eq_refl eq_refl),
          ?(space_char_is false 35%N c H eq_refl eq_refl),
          ?(space_char_is true 83%N c H eq_refl eq_refl),
          ?(space_not_digit c H);
  reflexivity.

Lemma finalAnswerRegex_space :
  forall pos s, all_space s -> match_at finalAnswerRegex pos s = None.
Proof. space_first. Qed.

Lemma stepsHeaderRegex_space :
  forall pos s, all_space s -> match_at stepsHeaderRegex pos s = None.
Proof. space_first. Qed.

Lemma headingMark_space :
  forall pos s, all_space s -> match_at headingMark pos s = None.
Proof. space_first. Qed.

Lemma boldMark_space :
  forall pos s, all_space s -> match_at boldMark pos s = None.
Proof. space_first. Qed.

Lemma stepMark_space :
  forall pos s, all_space s -> match_at stepMark pos s = None.
Proof. space_first. Qed.

Lemma numberMarkUpper_space :
  forall pos s, all_space s -> match_at numberMarkUpper pos s = None.
Proof. space_first. Qed.

Lemma rawStepsOf_space (s : js_string) : all_space s -> rawStepsOf s = [s].
Proof.
  intros H. unfold rawStepsOf.
  assert (T : forall r, (forall pos s, all_space s -> match_at r pos s = None)
                        -> test (Cat lineStart r) s = false).
  { intros r Hr. apply test_false_iff. unfold exec.
    apply search_none with (Q := all_space);
      [exact all_space_tail| |exact H].
    apply lineStart_none with (Q := all_space);
      [exact all_space_tail|exact Hr]. }
  unfold headingTest, boldTest, stepTest, numberTest.
  rewrite (T _ headingMark_space), (T _ boldMark_space),
          (T _ stepMark_space), (T _ numberMarkUpper_space).
  reflexivity.
Qed.

Lemma cleanStep_space (s : js_string) :
  all_space s ->
  cleanStep s = Normal {| title := str "Step Details"; content := [] |}.
Proof.
  intros H. unfold cleanStep. rewrite (trim_all_space _ H). reflexivity.
Qed.

Lemma parseResult_space (text : js_string) :
  text <> [] -> all_space text ->
  parseResult text =
    Normal (Some {| steps := []; finalAnswer := []; fallback := true |}).
Proof.
  intros Hne H. unfold parseResult.
  apply is_empty_false in Hne. rewrite Hne.
  assert (Ef : exec finalAnswerRegex text = None).
  { apply search_none with (Q := all_space);
      [exact all_space_tail|exact finalAnswerRegex_space|exact H]. }
  unfold finalAnswerOf, stepsTextOf. rewrite Ef.
  assert (Es : exec stepsHeaderRegex text = None).
  { apply search_none with (Q := all_space);
      [exact all_space_tail|exact stepsHeaderRegex_space|exact H]. }
  unfold contentToParseOf. rewrite Es.
  rewrite (rawStepsOf_space _ H). simpl. rewrite (cleanStep_space _ H). simpl.
  unfold finish. simpl. rewrite (trim_all_space _ H). reflexivity.
Qed.

(** *** Without "#" and asterisk, no marker pattern matches *)

Lemma unmarked_tail c s : unmarked (c :: s) -> unmarked s.
Proof. apply forallb_tail. Qed.

Lemma unmarked_head c s : unmarked (c :: s) -> unmarked_char c = true.
Proof.
  unfold unmarked. simpl. intros H. apply andb_true_iff in H. tauto.
Qed.

Lemma unmarked_not_hash (ci : bool) (c : code_unit) :
  unmarked_char c = true -> char_is ci 35%N c = false.
Proof.
  unfold unmarked_char, char_is, canonicalize, is_lower. intros H.
  bool_to_prop H.
  destruct ci; [|apply N.eqb_neq; lia].
  destruct ((97 <=? c) && (c <=? 122))%N eqn:E; simpl;
    bool_to_prop E; apply N.eqb_neq; lia.
Qed.

Lemma unmarked_not_star (ci : bool) (c : code_unit) :
  unmarked_char c = true -> char_is ci 42%N c = false.
Proof.
  unfold unmarked_char, char_is, canonicalize, is_lower. intros H.
  bool_to_prop H.
  destruct ci; [|apply N.eqb_neq; lia].
  destruct ((97 <=? c) && (c <=? 122))%N eqn:E; simpl;
    bool_to_prop E; apply N.eqb_neq; lia.
Qed.

Ltac unmarked_first :=
  let c := fresh "c" in
  let s := fresh "s" in
  let H := fresh "H" in
  intros ? [|c s] H; unfold match_at; simpl; [reflexivity|];
  apply unmarked_head in H;
  rewrite ?(unmarked_not_hash true c H), ?(unmarked_not_hash false c H),
          ?(unmarked_not_star true c H), ?(unmarked_not_star false c H);
  reflexivity.

Lemma finalAnswerRegex_unmarked :
  forall pos s, unmarked s -> match_at finalAnswerRegex pos s = None.
Proof. unmarked_first. Qed.

Lemma stepsHeaderRegex_unmarked :
  forall pos s, unmarked s -> match_at stepsHeaderRegex pos s = None.
Proof. unmarked_first. Qed.

Lemma headingMark_unmarked :
  forall pos s, unmarked s -> match_at headingMark pos s = None.
Proof. unmarked_first. Qed.

Lemma boldMark_unmarked :
  forall pos s, unmarked s -> match_at boldMark pos s = None.
Proof. unmarked_first. Qed.

Lemma boldStars_unmarked :
  forall pos s, unmarked s -> match_at boldStars pos s = None.
Proof. unmarked_first. Qed.

Lemma headerHashes_unmarked s : unmarked s -> exec headerHashes s = None.
Proof.
  intros H. unfold headerHashes. rewrite exec_bol.
  destruct s as [|c s]; unfold match_at; simpl; [reflexivity|].
  apply unmarked_head in H. rewrite (unmarked_not_hash false c H).
  reflexivity.
Qed.

Lemma stripMarkers_unmarked s : unmarked s -> stripMarkers s = s.
Proof.
  intros H. unfold stripMarkers, replace_first.
  rewrite (headerHashes_unmarked _ H). unfold replace_all. simpl.
  rewrite (search_none unmarked boldStars unmarked_tail boldStars_unmarked
             0 s H).
  reflexivity.
Qed.

Lemma exec_unmarked (r : regex) s :
  (forall pos s, unmarked s -> match_at r pos s = None) ->
  unmarked s -> exec r s = None.
Proof.
  intros Hr H. unfold exec.
  apply search_none with (Q := unmarked); [exact unmarked_tail|exact Hr|exact H].
Qed.

Lemma test_unmarked (r : regex) s :
  (forall pos s, unmarked s -> match_at r pos s = None) ->
  unmarked s -> test (Cat lineStart r) s = false.
Proof.
  intros Hr H. apply test_false_iff. apply exec_unmarked; [|exact H].
  apply lineStart_none with (Q := unmarked); [exact unmarked_tail|exact Hr].
Qed.

Lemma unmarked_trim s : unmarked s -> unmarked (trim s).
Proof. apply forallb_trim. Qed.

Lemma split_nl_forallb (f : code_unit -> bool) s :
  forallb f s = true -> Forall (fun l => forallb f l = true) (split_nl s).
Proof.
  induction s as [|c s IH]; intros H; simpl.
  - constructor; [reflexivity|constructor].
  - simpl in H. apply andb_true_iff in H. destruct H as [Hc H].
    specialize (IH H). destruct (c =? NL)%N.
    + constructor; [reflexivity|exact IH].
    + destruct (split_nl s) as [|h t]; inversion IH; subst.
      * constructor; [simpl; rewrite Hc; reflexivity|constructor].
      * constructor; [simpl; rewrite Hc; assumption|assumption].
Qed.

Lemma unmarked_headerOf s : unmarked s -> unmarked (headerOf s).
Proof.
  intros H. unfold headerOf. apply unmarked_trim.
  pose proof (split_nl_forallb unmarked_char (trim s) (unmarked_trim s H))
    as F.
  destruct (split_nl (trim s)); [reflexivity|]. inversion F. assumption.
Qed.

(** *** The first line of a text that is not blank *)

Lemma drop_while_last (p : code_unit -> bool) l c :
  p c = false -> drop_while p (l ++ [c]) <> [].
Proof.
  intros Hc. induction l as [|a l IH]; simpl.
  - rewrite Hc. discriminate.
  - destruct (p a); [exact IH|discriminate].
Qed.

Lemma trim_cons_not_nil c s : is_space c = false -> trim (c :: s) <> [].
Proof.
  intros Hc. unfold trim, trimStart, trimEnd. simpl drop_while. rewrite Hc.
  intros H. apply (f_equal (@rev _)) in H. rewrite rev_involutive in H.
  simpl in H. revert H. apply drop_while_last. exact Hc.
Qed.

Lemma space_NL (c : code_unit) : (c =? NL)%N = true -> is_space c = true.
Proof. intros H. apply N.eqb_eq in H. subst. reflexivity. Qed.

Lemma headerOf_not_nil s : trim s <> [] -> headerOf s <> [].
Proof.
  intros H. unfold headerOf. destruct (trim s) as [|c r] eqn:E; [congruence|].
  pose proof (trim_head s c r E) as Hc. simpl.
  destruct (c =? NL)%N eqn:En.
  - apply space_NL in En. congruence.
  - destruct (split_nl r); simpl; apply trim_cons_not_nil; exact Hc.
Qed.

(** *** On a plain line nothing is cut *)

Lemma plain_unmarked s : plain s -> unmarked s.
Proof.
  unfold plain, unmarked. intros H. rewrite forallb_forall in *.
  intros c Hc. specialize (H c Hc). unfold plain_char in H.
  unfold unmarked_char. apply andb_true_iff in H. tauto.
Qed.

Lemma plain_tail c s : plain (c :: s) -> plain s.
Proof. apply forallb_tail. Qed.

Lemma plain_head c s : plain (c :: s) -> plain_char c = true.
Proof. unfold plain. simpl. intros H. apply andb_true_iff in H. tauto. Qed.

Lemma plain_not_nl (c : code_unit) : plain_char c = true -> (c =? NL)%N = false.
Proof. unfold plain_char. intros H. bool_to_prop H. apply N.eqb_neq. tauto. Qed.

Lemma plain_nth s i : plain s -> (nth i s 0 =? NL)%N = false.
Proof.
  revert i. induction s as [|c s IH]; intros i H.
  - destruct i; reflexivity.
  - destruct i as [|i]; simpl.
    + apply plain_not_nl. eapply plain_head; eauto.
    + apply IH. eapply plain_tail; eauto.
Qed.

(** A plain line has no line to cut before. *)
Lemma cut_lines_plain (body : regex) s : plain s -> cut_lines body s = [s].
Proof.
  intros H. unfold cut_lines.
  replace (filter (boundary body s) (seq 0 (length s))) with (@nil nat);
    [reflexivity|].
  symmetry. generalize (seq 0 (length s)). intros l.
  induction l as [|i l IH]; simpl; [reflexivity|].
  unfold boundary at 1. rewrite (plain_nth _ i H). simpl. exact IH.
Qed.

Lemma split_nl_plain s : plain s -> split_nl s = [s].
Proof.
  induction s as [|c s IH]; intros H; simpl; [reflexivity|].
  rewrite (plain_not_nl _ (plain_head _ _ H)). rewrite (IH (plain_tail _ _ H)).
  reflexivity.
Qed.

Lemma nonblank_trim s : trim s <> [] -> nonblank s = true.
Proof.
  unfold nonblank. intros H. apply is_empty_false in H. rewrite H. reflexivity.
Qed.

Lemma rawStepsOf_plain s : plain s -> trim s <> [] -> rawStepsOf s = [s].
Proof.
  intros H Hne. unfold rawStepsOf, headingTest, boldTest.
  rewrite (test_unmarked _ _ headingMark_unmarked (plain_unmarked _ H)).
  rewrite (test_unmarked _ _ boldMark_unmarked (plain_unmarked _ H)).
  unfold stepSplit, numberSplit.
  rewrite (split_cut_lines _ stepMark_not_nl stepMark_not_nil).
  rewrite (split_cut_lines _ numberMark_not_nl numberMark_not_nil).
  rewrite !(cut_lines_plain _ _ H). simpl. rewrite (nonblank_trim _ Hne).
  destruct (test stepTest s); [reflexivity|].
  destruct (test numberTest s); reflexivity.
Qed.

Lemma rawStepsOf_unmarked s :
  unmarked s -> test stepTest s = false -> test numberTest s = false ->
  rawStepsOf s = [s].
Proof.
  intros H H3 H4. unfold rawStepsOf, headingTest, boldTest.
  rewrite (test_unmarked _ _ headingMark_unmarked H).
  rewrite (test_unmarked _ _ boldMark_unmarked H).
  rewrite H3, H4. reflexivity.
Qed.

Lemma plain_trim s : plain s -> plain (trim s).
Proof. apply forallb_trim. Qed.

Lemma headerOf_plain s : plain s -> headerOf s = trim s.
Proof.
  intros H. unfold headerOf. rewrite (split_nl_plain _ (plain_trim _ H)).
  simpl. apply trim_idem.
Qed.

Lemma bodyOf_plain s : plain s -> bodyOf s = [].
Proof.
  intros H. unfold bodyOf. rewrite (split_nl_plain _ (plain_trim _ H)).
  reflexivity.
Qed.

(** The one step made of a text without markers. *)
Lemma cleanStep_unmarked s :
  unmarked s -> trim s <> [] -> exec prefixRegex (headerOf s) = None ->
  cleanStep s =
    Normal (match bodyOf s with
            | [] => {| title := str "Explanation"; content := headerOf s |}
            | b => {| title := headerOf s; content := b |}
            end).
Proof.
  intros H Hne Hp. rewrite cleanStep_cases. unfold candidateTitle.
  rewrite (stripMarkers_unmarked _ (unmarked_headerOf _ H)).
  unfold stripPrefix. rewrite Hp.
  pose proof (headerOf_not_nil s Hne) as Hh.
  destruct (bodyOf s); destruct (headerOf s); try congruence; reflexivity.
Qed.

Lemma parseResult_unmarked (text : js_string) :
  unmarked text -> test stepTest text = false ->
  test numberTest text = false -> trim text <> [] ->
  exec prefixRegex (headerOf text) = None ->
  parseResult text =
    Normal (Some {| steps :=
                      [match bodyOf text with
                       | [] => {| title := str "Explanation";
                                  content := headerOf text |}
                       | b => {| title := headerOf text; content := b |}
                       end];
                    finalAnswer := []; fallback := false |}).
Proof.
  intros H H3 H4 Hne Hp. unfold parseResult.
  assert (Hie : is_empty text = false).
  { apply is_empty_false. intros ->. apply Hne. reflexivity. }
  rewrite Hie. unfold finalAnswerOf, stepsTextOf.
  rewrite (exec_unmarked _ _ finalAnswerRegex_unmarked H).
  unfold contentToParseOf.
  rewrite (exec_unmarked _ _ stepsHeaderRegex_unmarked H).
  rewrite (rawStepsOf_unmarked _ H H3 H4). simpl.
  rewrite (cleanStep_unmarked _ H Hne Hp). simpl.
  pose proof (headerOf_not_nil text Hne) as Hh.
  unfold hasContent.
  destruct (bodyOf text); destruct (headerOf text); try congruence;
    reflexivity.
Qed.

Lemma parseResult_plain (text : js_string) :
  plain text -> trim text <> [] -> exec prefixRegex (trim text) = None ->
  parseResult text =
    Normal (Some {| steps := [{| title := str "Explanation";
                                 content := trim text |}];
                    finalAnswer := []; fallback := false |}).
Proof.
  intros H Hne Hp. unfold parseResult.
  assert (Hie : is_empty text = false).
  { apply is_empty_false. intros ->. apply Hne. reflexivity. }
  rewrite Hie. unfold finalAnswerOf, stepsTextOf.
  rewrite (exec_unmarked _ _ finalAnswerRegex_unmarked (plain_unmarked _ H)).
  unfold contentToParseOf.
  rewrite (exec_unmarked _ _ stepsHeaderRegex_unmarked (plain_unmarked _ H)).
  rewrite (rawStepsOf_plain _ H Hne). simpl.
  rewrite <- (headerOf_plain _ H) in Hp.
  rewrite (cleanStep_unmarked _ (plain_unmarked _ H) Hne Hp).
  rewrite (bodyOf_plain _ H), (headerOf_plain _ H). simpl.
  unfold hasContent. simpl.
  destruct (trim text) as [|c r] eqn:E; [congruence|]. reflexivity.
Qed.

(* ================================================================== *)
(** ** The final-answer marker *)

Lemma m_plus_accept (p : code_unit -> bool) pos s :
  match_at (Plus p) pos s =
  match s with
  | c :: s' => if p c then Some (S pos + count_while p s') else None
  | [] => None
  end.
Proof.
  unfold match_at, Plus. simpl. destruct s as [|c s]; [reflexivity|].
  destruct (p c); [|reflexivity]. apply star_greedy_accept.
Qed.

Lemma count_while_le (p : code_unit -> bool) s : count_while p s <= length s.
Proof.
  induction s as [|c s IH]; simpl; [lia|]. destruct (p c); simpl; lia.
Qed.

Lemma count_while_app (p : code_unit -> bool) ws r :
  forallb p ws = true -> p (hd 0%N r) = false \/ r = [] ->
  count_while p (ws ++ r) = length ws /\ drop_while p (ws ++ r) = r.
Proof.
  intros Hws Hr. induction ws as [|c ws IH]; simpl in *.
  - destruct r as [|a r]; simpl; [auto|].
    destruct Hr as [Hr|Hr]; [|discriminate]. simpl in Hr. rewrite Hr. auto.
  - apply andb_true_iff in Hws. destruct Hws as [Hc Hws]. rewrite Hc.
    destruct (IH Hws) as [E1 E2]. rewrite E1, E2. auto.
Qed.

(** The leading characters [replace] removes from the final answer. *)
Lemma replace_lead (x : js_string) :
  replace_first leadRegex x = drop_while is_lead x.
Proof.
  unfold replace_first, leadRegex. rewrite exec_bol, m_plus_accept.
  destruct x as [|c x]; [reflexivity|]. simpl drop_while.
  destruct (is_lead c) eqn:E; [|reflexivity].
  cbn [index matched]. rewrite (firstn_length_le (c :: x)).
  - simpl. apply count_drop.
  - pose proof (count_while_le is_lead x). simpl. lia.
Qed.

Lemma starts_with_ci (cs s : js_string) :
  starts_with true cs s = true <->
  exists ph rest, s = ph ++ rest /\
                  map canonicalize ph = map canonicalize cs.
Proof.
  revert s. induction cs as [|a cs IH]; intros s; simpl.
  - split; [intros _; exists [], s; auto|auto].
  - destruct s as [|c s].
    + split; [discriminate|]. intros [ph [rest [E M]]].
      destruct ph; simpl in *; discriminate.
    + rewrite andb_true_iff, IH. unfold char_is. rewrite N.eqb_eq. split.
      * intros [Hc [ph [rest [E M]]]]. exists (c :: ph), rest. simpl.
        rewrite E, M, Hc. auto.
      * intros [ph [rest [E M]]]. destruct ph as [|h ph]; [discriminate|].
        simpl in *. inversion E. inversion M. subst. split; [auto|].
        exists ph, rest. auto.
Qed.

Lemma char_is_hash (c : code_unit) : char_is true 35%N c = true -> c = 35%N.
Proof.
  unfold char_is, canonicalize, is_lower. intros H.
  destruct ((97 <=? c) && (c <=? 122))%N eqn:E; simpl in H;
    bool_to_prop H; bool_to_prop E; lia.
Qed.

Lemma char_is_star (c : code_unit) : char_is true 42%N c = true -> c = 42%N.
Proof.
  unfold char_is, canonicalize, is_lower. intros H.
  destruct ((97 <=? c) && (c <=? 122))%N eqn:E; simpl in H;
    bool_to_prop H; bool_to_prop E; lia.
Qed.

(** What stands in front of the phrase: "##" or two asterisks. *)
Lemma starts_with_opener (s : js_string) :
  starts_with true (str "##") s || starts_with true (str "**") s = true <->
  exists mk, (mk = str "##" \/ mk = str "**") /\ s = mk ++ skipn 2 s.
Proof.
  split.
  - intros H. apply orb_true_iff in H.
    destruct s as [|a [|b s]];
      try (destruct H as [H|H]; simpl in H;
           rewrite ?andb_false_r in H; discriminate).
    destruct H as [H|H]; simpl in H; rewrite andb_true_r in H;
      apply andb_true_iff in H; destruct H as [Ha Hb].
    + apply char_is_hash in Ha, Hb. subst. exists (str "##"). auto.
    + apply char_is_star in Ha, Hb. subst. exists (str "**"). auto.
  - intros [mk [[E|E] Es]]; subst mk; rewrite Es; reflexivity.
Qed.

(** The phrase cannot begin on white space. *)
Lemma phrase_not_space (c : code_unit) :
  is_space c = true -> char_is true 70%N c = false.
Proof. intros H. apply space_char_is; auto. Qed.

Lemma finalAnswerRegex_match pos s :
  match_at finalAnswerRegex pos s =
  match marker_len s with Some n => Some (pos + n) | None => None end.
Proof.
  unfold match_at, finalAnswerRegex, marker_len, lit. cbn [m].
  rewrite !m_lit_of.
  assert (K : forall pos' s',
    star_greedy is_space
      (m (lit_of true (str "Final Answer")) (fun e _ => Some e)) pos' s' =
    if starts_with true (str "Final Answer") (drop_while is_space s')
    then Some (pos' + count_while is_space s' + 12) else None).
  { intros pos' s'. rewrite star_greedy_skip.
    - rewrite m_lit_of. reflexivity.
    - intros p c t Hc. rewrite m_lit_of.
      change (starts_with true (str "Final Answer") (c :: t))
        with (char_is true 70%N c
              && starts_with true (str "inal Answer") t).
      rewrite (phrase_not_space c Hc). reflexivity. }
  rewrite !K. change (length (str "##")) with 2.
  change (length (str "**")) with 2.
  destruct (starts_with true (str "##") s);
    destruct (starts_with true (str "**") s); simpl orb; cbn [andb];
    destruct (starts_with true (str "Final Answer")
                (drop_while is_space (skipn 2 s)));
    try reflexivity; f_equal; lia.
Qed.

Lemma phrase_head (ph : js_string) :
  map canonicalize ph = map canonicalize (str "Final Answer") ->
  length ph = 12 /\ is_space (hd 0%N ph) = false.
Proof.
  intros M. split.
  - apply (f_equal (@length _)) in M. rewrite !length_map in M. exact M.
  - destruct ph as [|h ph]; [discriminate|]. simpl.
    destruct (is_space h) eqn:E; [|reflexivity].
    pose proof (phrase_not_space h E) as F. unfold char_is in F.
    inversion M as [[Hh Hr]]. rewrite Hh in F. discriminate.
Qed.

(** The running form of the marker agrees with its description. *)
Lemma marker_len_spec (s : js_string) (n : nat) :
  marker_len s = Some n <-> marker_prefix s n.
Proof.
  unfold marker_len, marker_prefix. split.
  - destruct (starts_with true (str "##") s || starts_with true (str "**") s)
      eqn:A; [|discriminate].
    destruct (starts_with true (str "Final Answer")
                (drop_while is_space (skipn 2 s))) eqn:B; [|discriminate].
    simpl. intros E. inversion E. clear E.
    apply starts_with_opener in A. destruct A as [mk [Hmk Es]].
    apply starts_with_ci in B. destruct B as [ph [rest [Ed M]]].
    destruct (drop_while_suffix is_space (skipn 2 s)) as [ws [Ew Fw]].
    destruct (phrase_head ph M) as [Lp Hp].
    exists mk, ws, ph, rest. repeat split; auto.
    + rewrite Es at 1. rewrite Ew at 1. rewrite Ed. reflexivity.
    + rewrite Ew at 1. rewrite Ed.
      destruct (count_while_app is_space ws (ph ++ rest) Fw) as [C _].
      { left. destruct ph; [discriminate|exact Hp]. }
      rewrite C, Lp. destruct Hmk; subst mk; simpl; lia.
  - intros [mk [ws [ph [rest [Hmk [Fw [M [Es En]]]]]]]].
    destruct (phrase_head ph M) as [Lp Hp].
    assert (E2 : skipn 2 s = ws ++ ph ++ rest).
    { rewrite Es. destruct Hmk; subst mk; reflexivity. }
    assert (A : starts_with true (str "##") s
                || starts_with true (str "**") s = true).
    { apply starts_with_opener. exists mk. split; [exact Hmk|].
      rewrite E2. exact Es. }
    rewrite A, E2.
    destruct (count_while_app is_space ws (ph ++ rest) Fw) as [C D].
    { left. destruct ph; [discriminate|exact Hp]. }
    rewrite C, D.
    assert (B : starts_with true (str "Final Answer") (ph ++ rest) = true).
    { apply starts_with_ci. exists ph, rest. auto. }
    rewrite B. simpl. f_equal. rewrite En, Lp.
    destruct Hmk; subst mk; simpl; lia.
Qed.

Lemma marker_len_bound (s : js_string) (n : nat) :
  marker_len s = Some n -> n <= length s.
Proof.
  intros H. apply marker_len_spec in H.
  destruct H as [mk [ws [ph [rest [_ [_ [_ [Es En]]]]]]]].
  rewrite Es, En, !length_app. lia.
Qed.

(** The match the parser finds: the first marker of the text. *)
Lemma exec_finalAnswerRegex (text : js_string) (i n : nat) :
  marker_prefix (skipn i text) n ->
  (forall j n', j < i -> ~ marker_prefix (skipn j text) n') ->
  exists mt, exec finalAnswerRegex text = Some mt /\
             index mt = i /\ length (matched mt) = n.
Proof.
  intros Hm Hno. apply marker_len_spec in Hm.
  assert (Hi : i <= length text).
  { destruct (Nat.le_gt_cases i (length text)) as [L|G]; [exact L|].
    rewrite skipn_all2 in Hm by lia. discriminate. }
  unfold exec. rewrite (search_first finalAnswerRegex 0 text i (i + n) Hi).
  - eexists. split; [reflexivity|]. simpl. split; [reflexivity|].
    rewrite firstn_length_le; [lia|].
    replace (i + n - i) with n by lia. apply marker_len_bound. exact Hm.
  - simpl. rewrite finalAnswerRegex_match, Hm. reflexivity.
  - intros j Hj. simpl. rewrite finalAnswerRegex_match.
    destruct (marker_len (skipn j text)) as [n'|] eqn:E; [|reflexivity].
    exfalso. apply (Hno j n' Hj). apply marker_len_spec. exact E.
Qed.

Lemma substring_0 (s : js_string) (i : nat) : substring s 0 i = firstn i s.
Proof.
  unfold substring. rewrite Nat.max_r, Nat.min_l by lia.
  rewrite Nat.sub_0_r. reflexivity.
Qed.

(* ================================================================== *)
(** ** The lines the content is cut before *)

Lemma starts_with_exact (cs s : js_string) :
  starts_with false cs s = true <-> exists rest, s = cs ++ rest.
Proof.
  revert s. induction cs as [|a cs IH]; intros s; simpl.
  - split; [intros _; exists s; reflexivity|auto].
  - destruct s as [|c s].
    + split; [discriminate|]. intros [rest E]. discriminate.
    + rewrite andb_true_iff, IH. unfold char_is. rewrite N.eqb_eq. split.
      * intros [-> [rest ->]]. exists rest. reflexivity.
      * intros [rest E]. inversion E. subst. split; [auto|].
        exists rest. reflexivity.
Qed.

Lemma headingMark_match pos s :
  match_at headingMark pos s =
  if starts_with false (str "###") s
  then match skipn 3 s with
       | c :: s' =>
           if is_space c then Some (S (pos + 3) + count_while is_space s')
           else None
       | [] => None
       end
  else None.
Proof.
  unfold match_at, headingMark, lit. cbn [m]. rewrite m_lit_of.
  destruct (starts_with false (str "###") s); [|reflexivity].
  apply (m_plus_accept is_space).
Qed.

Lemma headingMark_spec pos s :
  ahead_ok headingMark pos s = true <-> heading_line s.
Proof.
  unfold ahead_ok, heading_line. rewrite headingMark_match. split.
  - destruct (starts_with false (str "###") s) eqn:A; [|discriminate].
    apply starts_with_exact in A. destruct A as [rest ->].
    change (skipn 3 (str "###" ++ rest)) with rest.
    destruct rest as [|c rest]; [discriminate|].
    destruct (is_space c) eqn:E; [|discriminate].
    intros _. exists c, rest. auto.
  - intros [c [rest [Hc ->]]].
    change (skipn 3 (str "###" ++ c :: rest)) with (c :: rest).
    change (starts_with false (str "###") (str "###" ++ c :: rest))
      with true.
    cbv iota. rewrite Hc. reflexivity.
Qed.

Lemma numberMark_match pos s :
  match_at numberMark pos s =
  match s with
  | d :: s' =>
      if is_digit d then
        match drop_while is_digit s' with
        | p :: c :: r =>
            if (p =? 46)%N && is_space c
            then Some (S (S (S pos + count_while is_digit s'))
                       + count_while is_space r)
            else None
        | _ => None
        end
      else None
  | [] => None
  end.
Proof.
  unfold match_at, numberMark, Plus, lit. cbn [m].
  destruct s as [|d s]; [reflexivity|].
  destruct (is_digit d); [|reflexivity].
  rewrite star_greedy_skip.
  - rewrite m_lit_of. simpl skipn. simpl length.
    destruct (drop_while is_digit s) as [|p [|c r]]; simpl starts_with.
    + reflexivity.
    + unfold char_is. rewrite andb_true_r. destruct (p =? 46)%N; reflexivity.
    + unfold char_is. rewrite andb_true_r.
      destruct (p =? 46)%N; simpl; [|reflexivity].
      destruct (is_space c); [|reflexivity].
      rewrite star_greedy_accept. f_equal. lia.
  - intros p c t Hc. rewrite m_lit_of. simpl starts_with. unfold char_is.
    rewrite (digit_not_dot c Hc). reflexivity.
Qed.

Lemma numberMark_spec pos s :
  ahead_ok numberMark pos s = true <-> number_line s.
Proof.
  unfold ahead_ok, number_line. rewrite numberMark_match. split.
  - destruct s as [|d s]; [discriminate|].
    destruct (is_digit d) eqn:Ed; [|discriminate].
    destruct (drop_while_suffix is_digit s) as [ds [Es Fd]].
    destruct (drop_while is_digit s) as [|p [|c r]]; try discriminate.
    destruct (p =? 46)%N eqn:Ep; [|discriminate].
    destruct (is_space c) eqn:Ec; [|discriminate].
    intros _. apply N.eqb_eq in Ep. subst p.
    exists (d :: ds), c, r. repeat split; auto.
    + discriminate.
    + simpl. rewrite Ed, Fd. reflexivity.
    + simpl. f_equal. exact Es.
  - intros [ds [c [rest [Hne [Fd [Hc ->]]]]]].
    destruct ds as [|d ds]; [congruence|].
    simpl in Fd. apply andb_true_iff in Fd. destruct Fd as [Hd Fd].
    simpl. rewrite Hd.
    destruct (count_while_app is_digit ds (46%N :: c :: rest) Fd) as [_ D].
    { left. reflexivity. }
    rewrite D. rewrite Hc. reflexivity.
Qed.

(** Where a boundary is: a line break with the pattern right after it. *)
Lemma boundary_spec (body : regex) (s : js_string) (i : nat) :
  (forall pos, ahead_ok body pos [] = false) ->
  boundary body s i = true <->
  exists pre rest,
    s = pre ++ NL :: rest /\ length pre = i /\
    ahead_ok body (S i) rest = true.
Proof.
  intros Hnil. unfold boundary. rewrite andb_true_iff, N.eqb_eq. split.
  - intros [Hn Ha].
    assert (Hi : i < length s).
    { destruct (Nat.lt_ge_cases i (length s)) as [L|G]; [exact L|].
      rewrite skipn_all2 in Ha by lia. rewrite Hnil in Ha. discriminate. }
    exists (firstn i s), (skipn (S i) s). repeat split.
    + rewrite <- (firstn_skipn i s) at 1. f_equal.
      rewrite (skipn_nth s i Hi), Hn. reflexivity.
    + apply firstn_length_le. lia.
    + exact Ha.
  - intros [pre [rest [-> [<- Ha]]]]. split.
    + rewrite app_nth2 by lia. rewrite Nat.sub_diag. reflexivity.
    + replace (skipn (S (length pre)) (pre ++ NL :: rest)) with rest;
        [exact Ha|].
      clear Ha. induction pre as [|c pre IH]; [reflexivity|exact IH].
Qed.

(* ================================================================== *)
(** ** Where the pattern of a line start matches *)

Lemma search_none_all (r : regex) pos s :
  search r pos s = None ->
  forall j, j <= length s -> match_at r (pos + j) (skipn j s) = None.
Proof.
  revert pos. induction s as [|c s IH]; intros pos H j Hj; simpl in H.
  - assert (j = 0) by (simpl in Hj; lia). subst j. rewrite Nat.add_0_r.
    simpl. destruct (match_at r pos []); [discriminate|reflexivity].
  - destruct (match_at r pos (c :: s)) eqn:E; [discriminate|].
    destruct j as [|j]; simpl.
    + rewrite Nat.add_0_r. exact E.
    + rewrite Nat.add_succ_r. apply (IH (S pos) H j). simpl in Hj. lia.
Qed.

Lemma match_at_lineStart (body : regex) q s :
  match_at (Cat lineStart body) q s =
  match (if q =? 0 then match_at body q s else None) with
  | Some e => Some e
  | None =>
      match s with
      | c :: s' => if (c =? NL)%N then match_at body (S q) s' else None
      | [] => None
      end
  end.
Proof. reflexivity. Qed.

(** The test of a line pattern succeeds exactly when the content begins
    with the pattern or holds a line break followed by it. *)
Lemma test_lineStart_spec (body : regex) (s : js_string) :
  (forall pos, ahead_ok body pos [] = false) ->
  test (Cat lineStart body) s = true <->
  ahead_ok body 0 s = true \/ exists i, boundary body s i = true.
Proof.
  intros Hnil. unfold test, exec. split.
  - destruct (search (Cat lineStart body) 0 s) as [mt|] eqn:E;
      [|discriminate].
    intros _. destruct (search_some _ _ _ _ E) as [e [_ [Hl [Hm _]]]].
    rewrite Nat.sub_0_r in *. rewrite match_at_lineStart in Hm.
    destruct (index mt =? 0) eqn:Ez.
    + apply Nat.eqb_eq in Ez. rewrite Ez in *. simpl skipn in Hm.
      destruct (match_at body 0 s) eqn:Eb.
      * left. unfold ahead_ok. rewrite Eb. reflexivity.
      * right. exists 0. unfold boundary, ahead_ok.
        destruct s as [|c s]; [discriminate|]. simpl.
        destruct (c =? NL)%N; [|discriminate].
        simpl in Hm. rewrite Hm. reflexivity.
    + right. exists (index mt). unfold boundary, ahead_ok.
      destruct (Nat.lt_ge_cases (index mt) (length s)) as [L|G].
      * rewrite (skipn_nth s _ L) in Hm.
        destruct (nth (index mt) s 0 =? NL)%N; [|discriminate].
        rewrite Hm. reflexivity.
      * rewrite skipn_all2 in Hm by lia. discriminate.
  - intros H.
    destruct (search (Cat lineStart body) 0 s) as [mt|] eqn:E;
      [reflexivity|]. exfalso.
    pose proof (search_none_all _ _ _ E) as Hno. simpl in Hno.
    destruct H as [H|[i H]].
    + specialize (Hno 0 ltac:(lia)). simpl in Hno.
      rewrite match_at_lineStart in Hno. simpl in Hno.
      unfold ahead_ok in H. destruct (match_at body 0 s); discriminate.
    + unfold boundary in H. apply andb_true_iff in H. destruct H as [Hn Ha].
      assert (Hi : i < length s).
      { destruct (Nat.lt_ge_cases i (length s)) as [L|G]; [exact L|].
        rewrite skipn_all2 in Ha by lia. rewrite Hnil in Ha. discriminate. }
      specialize (Hno i ltac:(lia)). rewrite match_at_lineStart in Hno.
      rewrite (skipn_nth s i Hi), Hn in Hno. unfold ahead_ok in Ha.
      destruct (i =? 0) eqn:Ez.
      * apply Nat.eqb_eq in Ez. subst i.
        destruct (match_at body 0 _); [discriminate|].
        destruct (match_at body 1 _); discriminate.
      * destruct (match_at body (S i) _); discriminate.
Qed.

(* ================================================================== *)
(** ** Runs of the parser *)

(** Bold markers instead of level-3 headings: the bold pattern cuts the
    content into two steps. *)
Example bold_steps :
  parseResult (join_nl [str "**Step 1: A**"; str "body1";
                        str "**Step 2: B**"; str "body2"]) =
    Normal (Some {| steps := [ {| title := str "A"; content := str "body1" |};
                               {| title := str "B"; content := str "body2" |} ];
                    finalAnswer := []; fallback := false |}).
Proof. vm_compute. reflexivity. Qed.

(** A final-answer heading with nothing before or after it: no step, no
    final answer, and the fallback flag. *)
Example heading_alone :
  parseResult (str "## Final Answer") =
    Normal (Some {| steps := []; finalAnswer := []; fallback := true |}).
Proof. vm_compute. reflexivity. Qed.

(** A header that is nothing but markers: every cleaned step is dropped and
    the whole content comes back as the step "Analysis". *)
Example markers_alone :
  parseResult (str "Step 1:") =
    Normal (Some {| steps := [analysisStep (str "Step 1:")];
                    finalAnswer := []; fallback := false |}).
Proof. vm_compute. reflexivity. Qed.

(** Numbered lines below a level-3 heading stay inside its step. *)
Example heading_over_numbers :
  parseResult (join_nl [str "### Step 1: Sum"; str "1. Add"; str "2. Check"]) =
    Normal (Some {| steps := [ {| title := str "Sum";
                                  content := join_nl [str "1. Add";
                                                      str "2. Check"] |} ];
                    finalAnswer := []; fallback := false |}).
Proof. vm_compute. reflexivity. Qed.

(* ================================================================== *)
(** ** The properties of the parser *)

(** C1. For every input, the result [parseResult] returns satisfies: if
    [fallback] is true then [steps] is the empty list and [finalAnswer] is the
    empty string, and if [fallback] is false then [steps] is not empty or
    [finalAnswer] is not empty. *)
Theorem fallback_invariant (text : js_string) (p : ParsedResult) :
  parseResult text = Normal (Some p) ->
  (fallback p = true -> steps p = [] /\ finalAnswer p = []) /\
  (fallback p = false -> steps p <> [] \/ finalAnswer p <> []).
Proof.
  intros H. destruct text as [|c t] eqn:Et; [discriminate|].
  destruct (parseResult_shape (c :: t) ltac:(discriminate))
    as [cleaned [_ [_ E]]].
  rewrite E in H. inversion H. apply finish_fallback.
Qed.

Lemma fallback_invariant_witness :
  (fallback example_result = true ->
   steps example_result = [] /\ finalAnswer example_result = []) /\
  (fallback example_result = false ->
   steps example_result <> [] \/ finalAnswer example_result <> []).
Proof.
  apply (fallback_invariant example_input example_result).
  vm_compute. reflexivity.
Defined.

(** C2. [parseResult] returns null if and only if its input is the empty
    string; on every other input it returns a result and never throws. *)
Theorem null_iff_empty (text : js_string) :
  (parseResult text = Normal None <-> text = []) /\
  (text <> [] -> exists p, parseResult text = Normal (Some p)) /\
  (forall e, parseResult text <> Throw e).
Proof.
  destruct text as [|c t].
  - repeat split; try reflexivity; try discriminate. intros H. congruence.
  - destruct (parseResult_shape (c :: t) ltac:(discriminate))
      as [cleaned [_ [_ E]]].
    rewrite E. repeat split; try discriminate.
    intros _. eexists. reflexivity.
Qed.

Lemma null_iff_empty_witness :
  exists p, parseResult example_input = Normal (Some p).
Proof.
  apply (proj1 (proj2 (null_iff_empty example_input))).
  vm_compute. discriminate.
Defined.

(** C3. On the worked example of the specification, a "Solution Steps"
    heading, two level-3 steps "Setup" and "Solve" with the bodies "Do X." and
    "Do Y.", and a final answer "42", [parseResult] returns exactly these two
    steps, the final answer "42" and no fallback. *)
Theorem worked_example :
  parseResult example_input = Normal (Some example_result).
Proof. vm_compute. reflexivity. Qed.

(** C4, as stated: the text before the first marker is not the text the
    steps are taken from.  On " x ## Final Answer: 42" the marker begins at
    index 3 and the final answer is "42", as the claim says, but the text
    the steps are taken from is "x", not the " x " that stands before the
    marker: line 161 trims it. *)
Lemma steps_text_trimmed_counterexample :
  let text := str " x ## Final Answer: 42" in
  marker_prefix (skipn 3 text) 15 /\
  (forall j n', j < 3 -> ~ marker_prefix (skipn j text) n') /\
  finalAnswerOf text = str "42" /\
  firstn 3 text = str " x " /\
  stepsTextOf text = str "x" /\
  stepsTextOf text <> firstn 3 text.
Proof.
  intros text. split; [|split; [|split; [|split; [|split]]]].
  - apply marker_len_spec. vm_compute. reflexivity.
  - intros j n' Hj Hm. apply marker_len_spec in Hm.
    do 3 (destruct j as [|j]; [vm_compute in Hm; discriminate|]). lia.
  - vm_compute. reflexivity.
  - reflexivity.
  - vm_compute. reflexivity.
  - vm_compute. discriminate.
Qed.

(** C4, amended.  The marker is read as the heading "## Final Answer" of
    the specification has it: "##" or two asterisks, any run of white space,
    and the phrase "Final Answer" in any case.  For every input that holds
    such a marker, [finalAnswer] is the text after the first marker with its
    leading colons, asterisks and white space removed and the rest trimmed,
    whatever steps there are; the text before that marker, trimmed, is the
    text the steps are taken from. *)
Theorem final_answer_after_marker (text : js_string) (i n : nat) :
  marker_prefix (skipn i text) n ->
  (forall j n', j < i -> ~ marker_prefix (skipn j text) n') ->
  stepsTextOf text = trim (firstn i text) /\
  exists p cleaned,
    parseResult text = Normal (Some p) /\
    finalAnswer p = trim (drop_while is_lead (skipn (i + n) text)) /\
    Forall2 (fun raw st => cleanStep raw = Normal st)
            (rawStepsOf (contentToParseOf (trim (firstn i text)))) cleaned /\
    steps p =
      steps (finish (filter hasContent cleaned)
                    (contentToParseOf (trim (firstn i text)))
                    (finalAnswer p)).
Proof.
  intros Hm Hno.
  destruct (exec_finalAnswerRegex text i n Hm Hno) as [mt [E [Ei En]]].
  assert (Hs : stepsTextOf text = trim (firstn i text)).
  { unfold stepsTextOf. rewrite E, Ei, substring_0. reflexivity. }
  assert (Hf : finalAnswerOf text
               = trim (drop_while is_lead (skipn (i + n) text))).
  { unfold finalAnswerOf. rewrite E, Ei, En. unfold substring_from.
    rewrite replace_lead. reflexivity. }
  split; [exact Hs|].
  assert (Hne : text <> []).
  { intros ->. apply marker_len_spec in Hm. destruct i; discriminate. }
  destruct (parseResult_shape text Hne) as [cleaned [_ [F P]]].
  eexists. exists cleaned. split; [exact P|].
  rewrite finish_finalAnswer. rewrite <- Hs, <- Hf. auto.
Qed.

Lemma final_answer_after_marker_witness :
  let text := str "x ## Final Answer: 42" in
  stepsTextOf text = trim (firstn 2 text) /\
  exists p cleaned,
    parseResult text = Normal (Some p) /\
    finalAnswer p = trim (drop_while is_lead (skipn (2 + 15) text)) /\
    Forall2 (fun raw st => cleanStep raw = Normal st)
            (rawStepsOf (contentToParseOf (trim (firstn 2 text)))) cleaned /\
    steps p =
      steps (finish (filter hasContent cleaned)
                    (contentToParseOf (trim (firstn 2 text)))
                    (finalAnswer p)).
Proof.
  intros text. apply (final_answer_after_marker text 2 15).
  - apply marker_len_spec. vm_compute. reflexivity.
  - intros j n' Hj Hm. apply marker_len_spec in Hm.
    destruct j as [|[|j]]; [vm_compute in Hm; discriminate ..|lia].
Defined.



(** C6, as stated: a single line of plain prose, with no heading, no step
    marker and no final-answer marker, does not come back as one step titled
    "Analysis". *)
Lemma plain_paragraph_counterexample :
  let text := str "Hello world" in
  plain text /\ trim text = text /\
  exec prefixRegex text = None /\
  exec finalAnswerRegex text = None /\
  exec stepsHeaderRegex text = None /\
  test headingTest text = false /\ test boldTest text = false /\
  test stepTest text = false /\ test numberTest text = false /\
  parseResult text <>
    Normal (Some {| steps := [analysisStep text];
                    finalAnswer := []; fallback := false |}) /\
  parseResult text =
    Normal (Some {| steps := [{| title := str "Explanation";
                                 content := text |}];
                    finalAnswer := []; fallback := false |}).
Proof.
  intros text. repeat split; try (vm_compute; reflexivity).
  vm_compute. discriminate.
Qed.

(** C6, amended.  For every input with no "#" and no asterisk, in which no
    line begins with a "Step N:" or numbered-list marker, that is not blank and
    whose first line does not begin with a step prefix, [parseResult] returns
    exactly one step, an empty [finalAnswer] and no fallback: when nothing
    follows the first line, the step is titled "Explanation" and its content
    is that line, trimmed; otherwise its title is the first line and its
    content is the rest, trimmed.  In particular a single line gives the one
    step "Explanation" with the trimmed line.  The step titled "Analysis",
    holding the whole content, is returned exactly when no cleaned step keeps
    a content and the content is not blank. *)
Theorem plain_paragraph (text : js_string) :
  (unmarked text -> test stepTest text = false ->
   test numberTest text = false -> trim text <> [] ->
   exec prefixRegex (headerOf text) = None ->
   parseResult text =
     Normal (Some {| steps :=
                       [match bodyOf text with
                        | [] => {| title := str "Explanation";
                                   content := headerOf text |}
                        | b => {| title := headerOf text; content := b |}
                        end];
                     finalAnswer := []; fallback := false |})) /\
  (plain text -> trim text <> [] -> exec prefixRegex (trim text) = None ->
   parseResult text =
     Normal (Some {| steps := [{| title := str "Explanation";
                                  content := trim text |}];
                     finalAnswer := []; fallback := false |})) /\
  (forall p, parseResult text = Normal (Some p) ->
   exists cleaned,
     Forall2 (fun raw st => cleanStep raw = Normal st)
             (rawStepsOf (contentToParseOf (stepsTextOf text))) cleaned /\
     steps p =
       match filter hasContent cleaned with
       | [] => if is_empty (trim (contentToParseOf (stepsTextOf text)))
               then []
               else [analysisStep (contentToParseOf (stepsTextOf text))]
       | kept => kept
       end).
Proof.
  split; [|split].
  - apply parseResult_unmarked.
  - apply parseResult_plain.
  - intros p H. destruct text as [|c t]; [discriminate|].
    destruct (parseResult_shape (c :: t) ltac:(discriminate))
      as [cleaned [_ [F E]]].
    exists cleaned. split; [exact F|].
    rewrite E in H. inversion H. rewrite finish_steps.
    destruct (filter hasContent cleaned); reflexivity.
Qed.

Lemma plain_paragraph_witness :
  parseResult (join_nl [str " Hello"; str "world "]) =
    Normal (Some {| steps := [{| title := str "Hello";
                                 content := str "world" |}];
                    finalAnswer := []; fallback := false |}).
Proof.
  apply (proj1 (plain_paragraph (join_nl [str " Hello"; str "world "])));
    try (vm_compute; reflexivity).
  vm_compute. discriminate.
Defined.

(** C7, as stated: when the numbered-list heuristic is the one chosen, the
    content is also cut before a numbered line whose text does not begin
    with an upper-case letter. *)
Lemma numbered_split_counterexample :
  let content := join_nl [str "1. A"; str "2. b"] in
  test headingTest content = false /\ test boldTest content = false /\
  test stepTest content = false /\ test numberTest content = true /\
  rawStepsOf content = [str "1. A"; str "2. b"] /\
  filter nonblank (cut_lines numberMarkUpper content) = [content] /\
  rawStepsOf content <> filter nonblank (cut_lines numberMarkUpper content).
Proof.
  intros content. repeat split; try (vm_compute; reflexivity).
  vm_compute. discriminate.
Qed.

(** C7, amended.  When the numbered-list heuristic is the one chosen (the
    three patterns before it are absent and some line begins with a decimal
    number, a period, white space and an upper-case letter), the content is
    cut exactly before each line that begins with a decimal number, a period
    and a white space character, whether or not an upper-case letter follows,
    and at no other point; the pieces that are blank are dropped. *)
Theorem numbered_split (content : js_string) :
  test headingTest content = false -> test boldTest content = false ->
  test stepTest content = false -> test numberTest content = true ->
  rawStepsOf content = filter nonblank (cut_lines numberMark content) /\
  (forall i, boundary numberMark content i = true <->
     exists pre rest,
       content = pre ++ NL :: rest /\ length pre = i /\ number_line rest) /\
  join_nl (cut_lines numberMark content) = content.
Proof.
  intros H1 H2 H3 H4. split; [|split].
  - unfold rawStepsOf. rewrite H1, H2, H3, H4. unfold numberSplit.
    rewrite (split_cut_lines _ numberMark_not_nl numberMark_not_nil).
    reflexivity.
  - intros i. rewrite (boundary_spec _ _ _ numberMark_not_nil).
    split; intros [pre [rest [E [L H]]]]; exists pre, rest;
      (split; [exact E|split; [exact L|]]);
      apply (numberMark_spec (S i) rest); exact H.
  - apply cut_lines_join.
Qed.

Lemma numbered_split_witness :
  let content := join_nl [str "1. A"; str "2. b"] in
  rawStepsOf content = filter nonblank (cut_lines numberMark content) /\
  (forall i, boundary numberMark content i = true <->
     exists pre rest,
       content = pre ++ NL :: rest /\ length pre = i /\ number_line rest) /\
  join_nl (cut_lines numberMark content) = content.
Proof.
  intros content. apply (numbered_split content); vm_compute; reflexivity.
Defined.

(* ------------------------------------------------------------------ *)
(** *** The parser on the store *)

Lemma runs_ret {A} (a : A) : runs_as (ret a) (Normal a).
Proof. intros h. exists []. unfold ret. rewrite app_nil_r. reflexivity. Qed.

Lemma runs_lift {A} (c : completion A) : runs_as (lift c) c.
Proof. intros h. exists []. unfold lift. rewrite app_nil_r. reflexivity. Qed.

Lemma runs_bind {A B} (c : St A) (v : completion A) (f : A -> St B)
      (g : A -> completion B) :
  runs_as c v -> (forall a, runs_as (f a) (g a)) ->
  runs_as (bindSt c f) (bind v g).
Proof.
  intros Hc Hf h. unfold bindSt. destruct (Hc h) as [n1 E1]. rewrite E1.
  destruct v as [a|e]; simpl.
  - destruct (Hf a (h ++ n1)) as [n2 E2]. rewrite E2.
    exists (n1 ++ n2). rewrite app_assoc. reflexivity.
  - exists n1. reflexivity.
Qed.

Lemma nth_error_fresh (h : store) (R : RegExpObject) :
  nth_error (h ++ [R]) (length h) = Some R.
Proof. induction h as [|x h IH]; simpl; auto. Qed.

Lemma setLastIndex_fresh (h : store) (R : RegExpObject) (i : nat) :
  setLastIndex (length h) i (h ++ [R])
  = h ++ [{| source := source R; global := global R; lastIndex := i |}].
Proof. induction h as [|x h IH]; simpl; [reflexivity|]. rewrite IH. reflexivity. Qed.

(** A literal that is searched where it is written is searched from
    position 0. *)
Lemma fresh_match {B} (r : regex) (s : js_string)
      (k : option reg_match -> St B) (h : store) :
  (a <~ newRegExp r false ;; x <~ stringMatch a s ;; k x) h
  = k (exec r s) (h ++ [fresh r false]).
Proof.
  unfold bindSt, newRegExp, stringMatch, regExpExec.
  rewrite nth_error_fresh. cbn [global lastIndex source].
  change (length s <? 0) with false. cbv iota.
  change (skipn 0 s) with s. fold (exec r s).
  destruct (exec r s) as [mt|]; reflexivity.
Qed.

Lemma fresh_test {B} (r : regex) (s : js_string)
      (k : bool -> St B) (h : store) :
  (a <~ newRegExp r false ;; x <~ regExpTest a s ;; k x) h
  = k (test r s) (h ++ [fresh r false]).
Proof.
  unfold bindSt, newRegExp, regExpTest, bindSt, regExpExec, ret.
  rewrite nth_error_fresh. cbn [global lastIndex source].
  change (length s <? 0) with false. cbv iota.
  change (skipn 0 s) with s. unfold test. fold (exec r s).
  destruct (exec r s) as [mt|]; reflexivity.
Qed.

(** A literal with the [g] flag that takes part in [replace] where it is
    written removes every match, and one without the flag the first. *)
Lemma fresh_replace {B} (r : regex) (gf : bool) (s : js_string)
      (k : js_string -> St B) (h : store) :
  (a <~ newRegExp r gf ;; x <~ stringReplace a s ;; k x) h
  = k (if gf then replace_all r s else replace_first r s)
      (h ++ [fresh r gf]).
Proof.
  unfold bindSt, newRegExp, stringReplace.
  rewrite nth_error_fresh. cbn [global lastIndex source].
  destruct gf; [|reflexivity].
  rewrite setLastIndex_fresh. reflexivity.
Qed.

Lemma fresh_split {B} (r : regex) (s : js_string)
      (k : list js_string -> St B) (h : store) :
  (a <~ newRegExp r false ;; x <~ stringSplit a s ;; k x) h
  = k (split r s) (h ++ [fresh r false]).
Proof.
  unfold bindSt, newRegExp, stringSplit.
  rewrite nth_error_fresh. reflexivity.
Qed.

Ltac close_run :=
  unfold ret; eexists; rewrite <- ?app_assoc; reflexivity.

Lemma mapSt_runs {A B} (f : A -> St B) (g : A -> completion B)
      (l : list A) :
  (forall x, runs_as (f x) (g x)) -> runs_as (mapSt f l) (mapM g l).
Proof.
  intros H. induction l as [|x l IH]; simpl.
  - apply runs_ret.
  - apply runs_bind; [apply H|]. intros y.
    apply runs_bind; [exact IH|]. intros ys. apply runs_ret.
Qed.

Lemma cleanStepSt_runs (rawStep : js_string) :
  runs_as (cleanStepSt rawStep) (cleanStep rawStep).
Proof.
  intros h. unfold cleanStepSt, cleanStep.
  unfold bindSt at 1. unfold lift.
  destruct (first_trim (split_nl (trim rawStep))) as [header|e];
    [|exists []; rewrite app_nil_r; reflexivity].
  rewrite fresh_replace, fresh_replace, fresh_match.
  cbn [bind]. unfold stripPrefix, stripMarkers.
  destruct (exec prefixRegex _) as [pm|];
    (destruct (is_empty (trim _)); [destruct (0 <? _)|]); close_run.
Qed.

Lemma rawStepsOfSt_runs (contentToParse : js_string) :
  runs_as (rawStepsOfSt contentToParse) (Normal (rawStepsOf contentToParse)).
Proof.
  intros h. unfold rawStepsOfSt, rawStepsOf.
  rewrite fresh_test. destruct (test headingTest contentToParse).
  { rewrite fresh_split. close_run. }
  rewrite fresh_test. destruct (test boldTest contentToParse).
  { rewrite fresh_split. close_run. }
  rewrite fresh_test. destruct (test stepTest contentToParse).
  { rewrite fresh_split. close_run. }
  rewrite fresh_test. destruct (test numberTest contentToParse).
  { rewrite fresh_split. close_run. }
  close_run.
Qed.

(** The part of [parseResult] from the cascade on. *)
Lemma stepsOfSt_runs (contentToParse fa : js_string) :
  runs_as
    (rawSteps <~ rawStepsOfSt contentToParse ;;
     cleaned <~ mapSt cleanStepSt rawSteps ;;
     ret (Some (finish (filter hasContent cleaned) contentToParse fa)))
    (bind (Normal (rawStepsOf contentToParse))
       (fun rawSteps =>
          bind (mapM cleanStep rawSteps)
            (fun cleaned =>
               Normal (Some (finish (filter hasContent cleaned)
                                    contentToParse fa))))).
Proof.
  apply runs_bind; [apply rawStepsOfSt_runs|]. intros rawSteps.
  apply runs_bind; [apply mapSt_runs; apply cleanStepSt_runs|].
  intros cleaned. apply runs_ret.
Qed.

(** On every store the parser has the outcome of [parseResult], and it
    leaves the objects it found as they were. *)
Lemma parseResultSt_runs (text : js_string) :
  runs_as (parseResultSt text) (parseResult text).
Proof.
  intros h. unfold parseResultSt, parseResult.
  destruct (is_empty text); [exists []; rewrite app_nil_r; reflexivity|].
  rewrite fresh_match.
  unfold finalAnswerOf, stepsTextOf, contentToParseOf.
  destruct (exec finalAnswerRegex text) as [fm|].
  - unfold bindSt at 1. rewrite fresh_replace. unfold ret at 1.
    cbv iota beta. rewrite fresh_match.
    match goal with
    | |- exists news, bindSt (rawStepsOfSt ?c) _ ?h1 = _ =>
        destruct (stepsOfSt_runs c
                    (trim (replace_first leadRegex
                             (substring_from text
                                (index fm + length (matched fm))))) h1)
          as [n E]
    end.
    rewrite E. eexists. rewrite <- ?app_assoc. reflexivity.
  - unfold bindSt at 1. unfold ret at 1. cbv iota beta.
    rewrite fresh_match.
    match goal with
    | |- exists news, bindSt (rawStepsOfSt ?c) _ ?h1 = _ =>
        destruct (stepsOfSt_runs c [] h1) as [n E]
    end.
    rewrite E. eexists. rewrite <- ?app_assoc. reflexivity.
Qed.

(** What the store is for: an object with the [g] flag that two calls of
    [test] share answers differently the second time, on the same string. *)
Example shared_object_remembers :
  let h := [{| source := lit false "a"; global := true; lastIndex := 0 |}] in
  snd (regExpTest 0 (str "a") h) = Normal true /\
  snd (regExpTest 0 (str "a") (fst (regExpTest 0 (str "a") h)))
  = Normal false.
Proof. split; reflexivity. Qed.

(** C8. [parseResult] is deterministic.  Run on the store of regular
    expression objects, whatever objects the store holds and whatever
    positions they carry, the parser has the same outcome on the same input:
    the same null, or the same steps in the same order, the same final answer
    and the same fallback flag.  So has a second call that runs on the store
    the first one left.  The parser never reads an object it did not make:
    every pattern is a literal that the call evaluates anew and uses once,
    and the objects it found are left as they were. *)
Theorem deterministic (text : js_string) (h h' : store) :
  snd (parseResultSt text h) = snd (parseResultSt text h') /\
  snd (parseResultSt text (fst (parseResultSt text h)))
  = snd (parseResultSt text h) /\
  snd (parseResultSt text h) = parseResult text /\
  firstn (length h) (fst (parseResultSt text h)) = h.
Proof.
  assert (R : forall k, snd (parseResultSt text k) = parseResult text).
  { intros k. destruct (parseResultSt_runs text k) as [n E].
    rewrite E. reflexivity. }
  split; [rewrite !R; reflexivity|].
  split; [rewrite !R; reflexivity|].
  split; [apply R|].
  destruct (parseResultSt_runs text h) as [n E]. rewrite E. simpl.
  rewrite firstn_app, Nat.sub_diag, firstn_all. simpl.
  apply app_nil_r.
Qed.

(** C9. For every input that is not empty and holds white space only,
    [parseResult] does not return null: it returns no step, an empty final
    answer and the fallback flag. *)
Theorem blank_input_falls_back (text : js_string) :
  text <> [] -> forallb is_space text = true ->
  parseResult text =
    Normal (Some {| steps := []; finalAnswer := []; fallback := true |}).
Proof. apply parseResult_space. Qed.

Lemma blank_input_falls_back_witness :
  parseResult [32%N; NL; 9%N; 160%N] =
    Normal (Some {| steps := []; finalAnswer := []; fallback := true |}).
Proof.
  apply (blank_input_falls_back [32%N; NL; 9%N; 160%N]).
  - discriminate.
  - vm_compute. reflexivity.
Defined.

Lemma titledStep_title (raw : js_string) (st : SolutionStep) :
  titledStep raw = Some st -> title st <> [].
Proof.
  unfold titledStep.
  destruct (bodyOf raw) as [|b0 b]; destruct (candidateTitle raw) as [|t0 t];
    intros E; inversion E; simpl; discriminate.
Qed.

Lemma titledSteps_title (raws : list js_string) :
  Forall (fun st => title st <> []) (titledSteps raws).
Proof.
  apply Forall_forall. intros st Hin. unfold titledSteps in Hin.
  apply in_flat_map in Hin. destruct Hin as [raw [_ Hin]].
  destruct (titledStep raw) as [st'|] eqn:E; [|destruct Hin].
  destruct Hin as [<-|[]]. eapply titledStep_title. exact E.
Qed.

(** The cleaned steps that are kept are the steps the specification
    describes. *)
Lemma kept_titledSteps (raws : list js_string) (cleaned : list SolutionStep) :
  Forall2 (fun raw st => cleanStep raw = Normal st) raws cleaned ->
  filter hasContent cleaned = titledSteps raws.
Proof.
  intros F. induction F as [|raw st raws cleaned Hc F IH]; [reflexivity|].
  unfold titledSteps in *. simpl. rewrite <- IH. clear IH.
  rewrite cleanStep_cases in Hc. inversion Hc as [Hst]. clear Hc.
  unfold titledStep.
  destruct (bodyOf raw) as [|b0 b]; destruct (candidateTitle raw) as [|t0 t];
    reflexivity.
Qed.

(** The parser on a response with a step that has no title and a step that
    has no body. *)
Example placeholders_example :
  parseResult (join_nl [str "### Step 1: Setup"; str "Do X."; str "###";
                        str "body"; str "### Step 3: only a title"])
  = Normal (Some {| steps :=
                      [ {| title := str "Setup"; content := str "Do X." |};
                        {| title := str "Step Details";
                           content := str "body" |};
                        {| title := str "Explanation";
                           content := str "only a title" |} ];
                    finalAnswer := []; fallback := false |}).
Proof. vm_compute. reflexivity. Qed.

(** C10. Every step of the result has a title that is not empty, and the
    steps are exactly these.  Each raw step with a body or a title left
    gives one step, in the order of the raw steps: with both it keeps both;
    with a body and an empty title it is titled "Step Details"; with a title
    and an empty body the title becomes the content and the step is titled
    "Explanation"; a raw step with neither gives none.  When no raw step gives
    a step and the content is not blank, the one step is the whole content,
    titled "Analysis"; when the content is blank there is no step. *)
Theorem titles_not_empty (text : js_string) (p : ParsedResult) :
  parseResult text = Normal (Some p) ->
  let contentToParse := contentToParseOf (stepsTextOf text) in
  let kept := titledSteps (rawStepsOf contentToParse) in
  Forall (fun st => title st <> []) (steps p) /\
  (kept <> [] -> steps p = kept) /\
  (kept = [] -> trim contentToParse <> [] ->
   steps p = [{| title := str "Analysis"; content := contentToParse |}]) /\
  (kept = [] -> trim contentToParse = [] -> steps p = []).
Proof.
  intros H. cbv zeta.
  destruct text as [|c t] eqn:Et; [discriminate|].
  rewrite <- Et in *.
  destruct (parseResult_shape text ltac:(rewrite Et; discriminate))
    as [cleaned [_ [F E]]].
  rewrite E in H. inversion H as [Hp]. clear H E Hp.
  rewrite finish_steps.
  rewrite (kept_titledSteps _ _ F). clear F.
  remember (contentToParseOf (stepsTextOf text)) as contentToParse.
  pose proof (titledSteps_title (rawStepsOf contentToParse)) as T.
  destruct (titledSteps (rawStepsOf contentToParse)) as [|k kept'].
  - destruct (trim contentToParse) as [|a r] eqn:Ec; simpl.
    + split; [constructor|]. split; [intros N; congruence|].
      split; [intros _ N; congruence|reflexivity].
    + split; [constructor; [discriminate|constructor]|].
      split; [intros N; congruence|].
      split; [reflexivity|intros _ N; discriminate].
  - split; [exact T|]. split; [reflexivity|].
    split; intros N; discriminate.
Qed.

Lemma titles_not_empty_witness :
  let text := join_nl [str "### Step 1: Setup"; str "Do X."; str "###";
                       str "body"; str "### Step 3: only a title"] in
  let three := [ {| title := str "Setup"; content := str "Do X." |};
                 {| title := str "Step Details"; content := str "body" |};
                 {| title := str "Explanation";
                    content := str "only a title" |} ] in
  Forall (fun st => title st <> []) three /\
  three = titledSteps (rawStepsOf (contentToParseOf (stepsTextOf text))).
Proof.
  intros text three.
  destruct (titles_not_empty text
              {| steps := three; finalAnswer := []; fallback := false |}
              ltac:(vm_compute; reflexivity)) as [T [K _]].
  split; [exact T|]. apply K. vm_compute. discriminate.
Defined.

(* ================================================================== *)
(** ** Further properties of the parser *)

Lemma trim_nil_all_space (s : js_string) : trim s = [] -> all_space s.
Proof.
  intros H. destruct (trim_decompose s) as [pre [post [E [Fp Fq]]]].
  rewrite H in E. simpl in E. unfold all_space. rewrite E.
  rewrite forallb_app, Fp, Fq. reflexivity.
Qed.

Lemma hasContent_true (st : SolutionStep) :
  hasContent st = true <-> content st <> [].
Proof.
  unfold hasContent. destruct (content st); simpl; split;
    congruence || discriminate || auto.
Qed.

(** X1. Every step of the result has a content that is not empty: a
    cleaned step without content is dropped, and the step made of the whole
    content is only made when that content is not blank. *)
Theorem steps_have_content (text : js_string) (p : ParsedResult) :
  parseResult text = Normal (Some p) ->
  Forall (fun st => content st <> []) (steps p).
Proof.
  intros H. destruct text as [|c t]; [discriminate|].
  destruct (parseResult_shape (c :: t) ltac:(discriminate))
    as [cleaned [_ [_ E]]].
  rewrite E in H. inversion H. rewrite finish_steps.
  destruct (filter hasContent cleaned) as [|k kept] eqn:Ek.
  - destruct (trim (contentToParseOf (stepsTextOf (c :: t)))) eqn:Et;
      simpl; [constructor|].
    constructor; [|constructor]. simpl. intros E0. rewrite E0 in Et.
    discriminate.
  - rewrite <- Ek. apply Forall_forall. intros st Hin.
    apply filter_In in Hin. apply hasContent_true. tauto.
Qed.

Lemma steps_have_content_witness :
  Forall (fun st => content st <> []) (steps example_result).
Proof.
  apply (steps_have_content example_input example_result).
  vm_compute. reflexivity.
Defined.

(** X2. The fallback flag is set exactly when the content left for the
    steps is blank and no final answer was found; a blank content never
    yields a step. *)
Theorem fallback_iff_blank (text : js_string) (p : ParsedResult) :
  parseResult text = Normal (Some p) ->
  (fallback p = true <->
   trim (contentToParseOf (stepsTextOf text)) = [] /\
   finalAnswerOf text = []) /\
  (trim (contentToParseOf (stepsTextOf text)) = [] -> steps p = []).
Proof.
  intros H. destruct text as [|c t] eqn:Et; [discriminate|].
  rewrite <- Et in *.
  assert (Hne : text <> []) by (rewrite Et; discriminate).
  unfold parseResult in H. apply is_empty_false in Hne. rewrite Hne in H.
  set (cp := contentToParseOf (stepsTextOf text)) in *.
  destruct (trim cp) as [|a r] eqn:Ec.
  - pose proof (trim_nil_all_space cp Ec) as Hs.
    rewrite (rawStepsOf_space cp Hs) in H. simpl in H.
    rewrite (cleanStep_space cp Hs) in H. simpl in H.
    unfold finish in H. simpl in H. rewrite Ec in H. simpl in H.
    destruct (finalAnswerOf text) as [|f fa]; simpl in H;
      inversion H; simpl; split; try tauto; split; try tauto;
      try discriminate; intros [_ D]; discriminate.
  - destruct (mapM_returns cleanStep (rawStepsOf cp) cleanStep_returns)
      as [cleaned [E _]].
    rewrite E in H. simpl in H. inversion H as [Hp].
    split; [|discriminate].
    unfold finish. rewrite Ec. simpl.
    destruct (length (filter hasContent cleaned) =? 0); simpl;
      split; try discriminate; intros [D _]; discriminate.
Qed.

Lemma fallback_iff_blank_witness :
  (fallback example_result = true <->
   trim (contentToParseOf (stepsTextOf example_input)) = [] /\
   finalAnswerOf example_input = []) /\
  (trim (contentToParseOf (stepsTextOf example_input)) = [] ->
   steps example_result = []).
Proof.
  apply (fallback_iff_blank example_input example_result).
  vm_compute. reflexivity.
Defined.

Lemma exec_finalAnswerRegex_none (text : js_string) :
  (forall j n, ~ marker_prefix (skipn j text) n) ->
  exec finalAnswerRegex text = None.
Proof.
  intros Hno. unfold exec.
  apply search_none
    with (Q := fun s => forall j n, ~ marker_prefix (skipn j s) n).
  - intros c s H j n. apply (H (S j) n).
  - intros pos s H. rewrite finalAnswerRegex_match.
    destruct (marker_len s) as [n|] eqn:E; [|reflexivity].
    exfalso. apply (H 0 n). apply marker_len_spec. exact E.
  - exact Hno.
Qed.

(** X3. When the input holds no final-answer marker at all, the final
    answer is empty and the whole input, untrimmed, is the text the steps
    are taken from. *)
Theorem no_marker_no_answer (text : js_string) (p : ParsedResult) :
  (forall j n, ~ marker_prefix (skipn j text) n) ->
  parseResult text = Normal (Some p) ->
  finalAnswer p = [] /\ finalAnswerOf text = [] /\ stepsTextOf text = text.
Proof.
  intros Hno H. pose proof (exec_finalAnswerRegex_none text Hno) as E.
  assert (Hf : finalAnswerOf text = []).
  { unfold finalAnswerOf. rewrite E. reflexivity. }
  assert (Hs : stepsTextOf text = text).
  { unfold stepsTextOf. rewrite E. reflexivity. }
  split; [|split; assumption].
  destruct text as [|c t] eqn:Et; [discriminate|]. rewrite <- Et in *.
  destruct (parseResult_shape text ltac:(rewrite Et; discriminate))
    as [cleaned [_ [_ P]]].
  rewrite P in H. inversion H. rewrite finish_finalAnswer. exact Hf.
Qed.

Lemma no_marker_no_answer_witness :
  let text := str "# Final" in
  finalAnswerOf text = [] /\ stepsTextOf text = text.
Proof.
  intros text.
  apply (proj2 (no_marker_no_answer text
           {| steps := [{| title := str "Explanation";
                           content := str "# Final" |}];
              finalAnswer := []; fallback := false |}
           ltac:(intros j n Hm; apply marker_len_spec in Hm;
                 do 8 (destruct j as [|j];
                       [vm_compute in Hm; discriminate|]);
                 vm_compute in Hm; discriminate)
           ltac:(vm_compute; reflexivity))).
Defined.

(** X4. The final answer never begins with a colon, an asterisk or white
    space, and never ends with white space. *)
Theorem final_answer_clean (text : js_string) (p : ParsedResult) :
  parseResult text = Normal (Some p) ->
  is_lead (hd 0%N (finalAnswer p)) = false /\
  is_space (hd 0%N (rev (finalAnswer p))) = false /\
  trim (finalAnswer p) = finalAnswer p.
Proof.
  intros H. destruct text as [|c t] eqn:Et; [discriminate|].
  rewrite <- Et in *.
  destruct (parseResult_shape text ltac:(rewrite Et; discriminate))
    as [cleaned [_ [_ P]]].
  rewrite P in H. inversion H. rewrite finish_finalAnswer. clear.
  unfold finalAnswerOf. destruct (exec finalAnswerRegex text) as [mt|];
    [|repeat split; reflexivity].
  rewrite replace_lead. set (x := substring_from text _).
  split; [|split].
  - destruct (trim_decompose (drop_while is_lead x))
      as [pre [post [E [Fp _]]]].
    destruct (trim (drop_while is_lead x)) as [|a r] eqn:Et;
      [reflexivity|]. simpl.
    destruct pre as [|b pre].
    + simpl in E. eapply drop_while_head. exact E.
    + simpl in E. pose proof (drop_while_head is_lead x b _ E) as Hb.
      simpl in Fp. apply andb_true_iff in Fp. destruct Fp as [Fb _].
      unfold is_lead in Hb. rewrite Fb in Hb.
      rewrite orb_true_r in Hb. discriminate.
  - destruct (rev (trim (drop_while is_lead x))) as [|a r] eqn:Er;
      [reflexivity|]. simpl. eapply trim_last. exact Er.
  - apply trim_idem.
Qed.

Lemma final_answer_clean_witness :
  is_lead (hd 0%N (finalAnswer example_result)) = false /\
  is_space (hd 0%N (rev (finalAnswer example_result))) = false /\
  trim (finalAnswer example_result) = finalAnswer example_result.
Proof.
  apply (final_answer_clean example_input example_result).
  vm_compute. reflexivity.
Defined.

(* ------------------------------------------------------------------ *)
(** *** The heading of the steps section *)

Lemma phrase_head_gen (f : code_unit) (cs ph : js_string) :
  is_space f = false -> is_space (canonicalize f) = false ->
  map canonicalize ph = map canonicalize (f :: cs) ->
  length ph = S (length cs) /\ is_space (hd 0%N ph) = false.
Proof.
  intros Hf Hcf M. split.
  - apply (f_equal (@length _)) in M. rewrite !length_map in M. exact M.
  - destruct ph as [|h ph]; [discriminate|]. simpl.
    destruct (is_space h) eqn:E; [|reflexivity].
    pose proof (space_char_is true f h E Hf Hcf) as F. unfold char_is in F.
    inversion M as [[Hh Hr]]. rewrite Hh in F.
    rewrite N.eqb_refl in F. discriminate.
Qed.

Lemma starts_with_hashes (s : js_string) :
  starts_with true (str "##") s = true <-> s = str "##" ++ skipn 2 s.
Proof.
  split.
  - destruct s as [|a [|b s]]; simpl; rewrite ?andb_false_r;
      try discriminate.
    rewrite andb_true_r. intros H. apply andb_true_iff in H.
    destruct H as [Ha Hb]. apply char_is_hash in Ha, Hb. subst. reflexivity.
  - intros ->. reflexivity.
Qed.

Lemma stepsHeaderRegex_match pos s :
  match_at stepsHeaderRegex pos s =
  match steps_heading_len s with Some n => Some (pos + n) | None => None end.
Proof.
  unfold match_at, stepsHeaderRegex, steps_heading_len, lit. cbn [m].
  rewrite m_lit_of. change (length (str "##")) with 2.
  destruct (starts_with true (str "##") s); [|reflexivity]. cbn [andb].
  rewrite star_greedy_skip.
  - rewrite m_lit_of.
    destruct (starts_with true (str "Solution Steps")
                (drop_while is_space (skipn 2 s))); [|reflexivity].
    f_equal. change (length (str "Solution Steps")) with 14. lia.
  - intros p c t Hc. rewrite m_lit_of.
    change (starts_with true (str "Solution Steps") (c :: t))
      with (char_is true 83%N c
            && starts_with true (str "olution Steps") t).
    rewrite (space_char_is true 83%N c Hc eq_refl eq_refl). reflexivity.
Qed.

Lemma steps_heading_len_spec (s : js_string) (n : nat) :
  steps_heading_len s = Some n <-> steps_heading_prefix s n.
Proof.
  unfold steps_heading_len, steps_heading_prefix. split.
  - destruct (starts_with true (str "##") s) eqn:A; [|discriminate].
    destruct (starts_with true (str "Solution Steps")
                (drop_while is_space (skipn 2 s))) eqn:B; [|discriminate].
    simpl. intros E. inversion E. clear E.
    apply starts_with_hashes in A.
    apply starts_with_ci in B. destruct B as [ph [rest [Ed M]]].
    destruct (drop_while_suffix is_space (skipn 2 s)) as [ws [Ew Fw]].
    destruct (phrase_head_gen 83%N (str "olution Steps") ph
                eq_refl eq_refl M) as [Lp Hp].
    exists ws, ph, rest. repeat split; auto.
    + rewrite A at 1. rewrite Ew at 1. rewrite Ed. reflexivity.
    + rewrite Ew at 1. rewrite Ed.
      destruct (count_while_app is_space ws (ph ++ rest) Fw) as [C _].
      { left. destruct ph; [discriminate|exact Hp]. }
      rewrite C, Lp. simpl. lia.
  - intros [ws [ph [rest [Fw [M [Es En]]]]]].
    destruct (phrase_head_gen 83%N (str "olution Steps") ph
                eq_refl eq_refl M) as [Lp Hp].
    assert (E2 : skipn 2 s = ws ++ ph ++ rest) by (rewrite Es; reflexivity).
    assert (A : starts_with true (str "##") s = true).
    { apply starts_with_hashes. rewrite E2. exact Es. }
    rewrite A, E2.
    destruct (count_while_app is_space ws (ph ++ rest) Fw) as [C D].
    { left. destruct ph; [discriminate|exact Hp]. }
    rewrite C, D.
    assert (B : starts_with true (str "Solution Steps") (ph ++ rest) = true).
    { apply starts_with_ci. exists ph, rest. auto. }
    rewrite B. simpl. f_equal. rewrite En, Lp. simpl. lia.
Qed.

Lemma steps_heading_len_bound (s : js_string) (n : nat) :
  steps_heading_len s = Some n -> n <= length s.
Proof.
  intros H. apply steps_heading_len_spec in H.
  destruct H as [ws [ph [rest [_ [_ [Es En]]]]]].
  rewrite Es, En, !length_app. simpl. lia.
Qed.

(** X5. The steps section: when the text holds the heading "##", white
    space, "Solution Steps" (in any case, anywhere in the text), everything up
    to and including the first such heading is dropped and the rest is
    trimmed; when it holds none, the text is kept as it is, untrimmed. *)
Theorem steps_section (stepsText : js_string) :
  (forall i n,
     steps_heading_prefix (skipn i stepsText) n ->
     (forall j n', j < i -> ~ steps_heading_prefix (skipn j stepsText) n') ->
     contentToParseOf stepsText = trim (skipn (i + n) stepsText)) /\
  ((forall j n, ~ steps_heading_prefix (skipn j stepsText) n) ->
   contentToParseOf stepsText = stepsText).
Proof.
  split.
  - intros i n Hm Hno. apply steps_heading_len_spec in Hm.
    assert (Hi : i <= length stepsText).
    { destruct (Nat.le_gt_cases i (length stepsText)) as [L|G]; [exact L|].
      rewrite skipn_all2 in Hm by lia. discriminate. }
    unfold contentToParseOf, exec.
    rewrite (search_first stepsHeaderRegex 0 stepsText i (i + n) Hi).
    + cbn [index matched]. unfold substring_from. simpl Nat.add.
      replace (i + n - i) with n by lia.
      rewrite firstn_length_le; [reflexivity|].
      apply steps_heading_len_bound. exact Hm.
    + simpl. rewrite stepsHeaderRegex_match, Hm. reflexivity.
    + intros j Hj. simpl. rewrite stepsHeaderRegex_match.
      destruct (steps_heading_len (skipn j stepsText)) as [n'|] eqn:E;
        [|reflexivity].
      exfalso. apply (Hno j n' Hj). apply steps_heading_len_spec. exact E.
  - intros Hno. unfold contentToParseOf, exec.
    rewrite (search_none
               (fun s => forall j n, ~ steps_heading_prefix (skipn j s) n)
               stepsHeaderRegex).
    + reflexivity.
    + intros c s H j n. apply (H (S j) n).
    + intros pos s H. rewrite stepsHeaderRegex_match.
      destruct (steps_heading_len s) as [n|] eqn:E; [|reflexivity].
      exfalso. apply (H 0 n). apply steps_heading_len_spec. exact E.
    + exact Hno.
Qed.

Lemma steps_section_witness :
  let s := str "Intro ##  solution STEPS: x " in
  contentToParseOf s = str ": x".
Proof.
  intros s.
  rewrite (proj1 (steps_section s) 6 18).
  - vm_compute. reflexivity.
  - apply steps_heading_len_spec. vm_compute. reflexivity.
  - intros j n' Hj Hm. apply steps_heading_len_spec in Hm.
    do 6 (destruct j as [|j]; [vm_compute in Hm; discriminate|]). lia.
Defined.

(* ------------------------------------------------------------------ *)
(** *** The prefix of a title *)

Lemma star_greedy_total (p : code_unit -> bool) (k : cont) pos s :
  (forall pos' s', k pos' s' <> None) ->
  star_greedy p k pos s = k (pos + count_while p s) (drop_while p s).
Proof.
  intros Hk. revert pos. induction s as [|c s IH]; intros pos; simpl.
  - rewrite Nat.add_0_r. reflexivity.
  - destruct (p c).
    + rewrite IH. rewrite Nat.add_succ_r. simpl.
      destruct (k (S (pos + count_while p s)) (drop_while p s)) eqn:E;
        [reflexivity|]. exfalso. eapply Hk. exact E.
    + rewrite Nat.add_0_r. reflexivity.
Qed.

Lemma seps_accept pos s :
  m (Star true is_sep) (fun e _ => Some e) pos s
  = Some (pos + count_while is_sep s).
Proof. apply star_greedy_accept. Qed.

Lemma seps_total : forall pos s,
  m (Star true is_sep) (fun e _ => Some e) pos s <> None.
Proof. intros pos s. rewrite seps_accept. discriminate. Qed.

Lemma prefixRegex_body : prefixRegex = Cat Bol prefixBody.
Proof. reflexivity. Qed.

(** What [stripPrefix] does with the match of the anchored pattern. *)
Lemma stripPrefix_match (t : js_string) :
  stripPrefix t =
  match match_at prefixBody 0 t with
  | Some e => trim (skipn (length (firstn e t)) t)
  | None => t
  end.
Proof.
  unfold stripPrefix. rewrite prefixRegex_body, exec_bol.
  destruct (match_at prefixBody 0 t); reflexivity.
Qed.

Lemma skipn_count_seps (n : nat) (t rest : js_string) :
  skipn n t = rest -> n <= length t ->
  skipn (length (firstn (n + count_while is_sep rest) t)) t
  = drop_while is_sep rest.
Proof.
  intros E Hn. pose proof (count_while_le is_sep rest) as Hc.
  rewrite firstn_length_le.
  - rewrite Nat.add_comm, <- skipn_skipn, E. apply count_drop.
  - assert (L : length rest = length t - n)
      by (rewrite <- E; apply length_skipn).
    lia.
Qed.

Lemma letter_not_digit (c : code_unit) : is_letter c = true -> is_digit c = false.
Proof.
  unfold is_letter, is_upper, canonicalize, is_lower, is_digit. intros H.
  destruct ((48 <=? c) && (c <=? 57))%N eqn:E; [|reflexivity].
  bool_to_prop E.
  destruct ((97 <=? c) && (c <=? 122))%N eqn:L; bool_to_prop L;
    bool_to_prop H; lia.
Qed.

Lemma space_not_letter (c : code_unit) : is_space c = true -> is_letter c = false.
Proof.
  intros H. unfold is_letter. rewrite (space_canonical c H).
  unfold is_upper. destruct ((65 <=? c) && (c <=? 90))%N eqn:E;
    [|reflexivity].
  unfold is_space in H. bool_to_prop H. bool_to_prop E. lia.
Qed.

Lemma digit_not_S (c : code_unit) : is_digit c = true -> char_is true 83%N c = false.
Proof.
  unfold is_digit, char_is, canonicalize, is_lower. intros H. bool_to_prop H.
  destruct ((97 <=? c) && (c <=? 122))%N eqn:L; bool_to_prop L;
    simpl; apply N.eqb_neq; lia.
Qed.

Lemma digit_not_dot_ci (c : code_unit) :
  is_digit c = true -> char_is true 46%N c = false.
Proof.
  unfold is_digit, char_is, canonicalize, is_lower. intros H. bool_to_prop H.
  destruct ((97 <=? c) && (c <=? 122))%N eqn:L; bool_to_prop L;
    simpl; apply N.eqb_neq; lia.
Qed.

Lemma step_word (st rest : js_string) :
  map canonicalize st = map canonicalize (str "Step") ->
  starts_with true (str "Step") (st ++ rest) = true /\
  skipn 4 (st ++ rest) = rest /\ length st = 4.
Proof.
  intros M. assert (L : length st = 4).
  { apply (f_equal (@length _)) in M. rewrite !length_map in M. exact M. }
  split; [|split; [|exact L]].
  - apply starts_with_ci. exists st, rest. auto.
  - rewrite skipn_app, L, Nat.sub_diag. rewrite skipn_all2 by lia.
    reflexivity.
Qed.

(** The match on "Step", white space, digits. *)
Lemma prefixBody_step_digits (st ws ds rest : js_string) :
  map canonicalize st = map canonicalize (str "Step") ->
  forallb is_space ws = true ->
  ds <> [] -> forallb is_digit ds = true ->
  is_digit (hd 0%N rest) = false ->
  match_at prefixBody 0 (st ++ ws ++ ds ++ rest)
  = Some (length st + length ws + length ds + count_while is_sep rest).
Proof.
  intros M Fw Hne Fd Hr.
  destruct (step_word st (ws ++ ds ++ rest) M) as [A [B L]].
  unfold match_at, prefixBody, lit. cbn [m].
  rewrite m_lit_of, A. change (length (str "Step")) with 4. rewrite B.
  rewrite star_greedy_skip.
  2:{ intros p c t Hc. unfold Plus. cbn [m].
      rewrite (space_not_digit c Hc). reflexivity. }
  destruct ds as [|d ds]; [congruence|].
  simpl in Fd. apply andb_true_iff in Fd. destruct Fd as [Hd Fd].
  destruct (count_while_app is_space ws ((d :: ds) ++ rest) Fw) as [C D].
  { left. simpl. apply Bool.not_true_is_false. intros E.
    apply space_not_digit in E. congruence. }
  rewrite C, D. unfold Plus. cbn [m]. simpl app. cbv iota beta. rewrite Hd.
  rewrite star_greedy_total
    by (intros; rewrite star_greedy_accept; discriminate).
  destruct (count_while_app is_digit ds rest Fd) as [C' D'].
  { left. exact Hr. }
  rewrite C', D', star_greedy_accept. f_equal. simpl. lia.
Qed.

(** The match on "Step", white space, a letter. *)
Lemma prefixBody_step_letter (st ws rest : js_string) (c : code_unit) :
  map canonicalize st = map canonicalize (str "Step") ->
  ws <> [] -> forallb is_space ws = true -> is_letter c = true ->
  match_at prefixBody 0 (st ++ ws ++ c :: rest)
  = Some (length st + length ws + 1 + count_while is_sep rest).
Proof.
  intros M Hne Fw Hc.
  destruct (step_word st (ws ++ c :: rest) M) as [A [B L]].
  unfold match_at, prefixBody, lit. cbn [m].
  rewrite !m_lit_of, A. change (length (str "Step")) with 4. rewrite B.
  rewrite star_greedy_skip.
  2:{ intros p x t Hx. unfold Plus. cbn [m].
      rewrite (space_not_digit x Hx). reflexivity. }
  assert (Hcs : is_space c = false).
  { apply Bool.not_true_is_false. intros E. apply space_not_letter in E.
    congruence. }
  destruct (count_while_app is_space ws (c :: rest) Fw) as [C D].
  { left. exact Hcs. }
  rewrite C, D. unfold Plus at 1. cbn [m]. cbv iota beta.
  rewrite (letter_not_digit c Hc).
  destruct ws as [|w ws]; [congruence|].
  simpl in Fw. apply andb_true_iff in Fw. destruct Fw as [Hw Fw].
  unfold Plus. cbn [m]. simpl app. cbv iota beta. rewrite Hw.
  rewrite star_greedy_skip.
  2:{ intros p x t Hx. rewrite (space_not_letter x Hx). reflexivity. }
  destruct (count_while_app is_space ws (c :: rest) Fw) as [C' D'].
  { left. exact Hcs. }
  rewrite C', D', Hc, star_greedy_accept. f_equal. simpl. lia.
Qed.

Lemma skipn_app_length (a b : js_string) (n : nat) :
  skipn (length a + n) (a ++ b) = skipn n b.
Proof. induction a as [|x a IH]; simpl; auto. Qed.

(** The match on digits and a period. *)
Lemma prefixBody_number (ds rest : js_string) :
  ds <> [] -> forallb is_digit ds = true ->
  match_at prefixBody 0 (ds ++ 46%N :: rest)
  = Some (length ds + 1 + count_while is_sep rest).
Proof.
  intros Hne Fd. destruct ds as [|d ds]; [congruence|].
  simpl in Fd. apply andb_true_iff in Fd. destruct Fd as [Hd Fd].
  unfold match_at, prefixBody, lit. cbn [m].
  rewrite !m_lit_of.
  change (starts_with true (str "Step") ((d :: ds) ++ 46%N :: rest))
    with (char_is true 83%N d
          && starts_with true (str "tep") (ds ++ 46%N :: rest)).
  rewrite (digit_not_S d Hd). cbn [andb]. cbv iota.
  unfold Plus. cbn [m]. simpl app. cbv iota beta. rewrite Hd.
  rewrite star_greedy_skip.
  2:{ intros p x t Hx. rewrite m_lit_of.
      change (starts_with true (str ".") (x :: t))
        with (char_is true 46%N x && true).
      rewrite (digit_not_dot_ci x Hx). reflexivity. }
  destruct (count_while_app is_digit ds (46%N :: rest) Fd) as [C D].
  { left. reflexivity. }
  rewrite C, D, m_lit_of.
  change (starts_with true (str ".") (46%N :: rest)) with true.
  cbv iota. change (skipn (length (str ".")) (46%N :: rest)) with rest.
  rewrite star_greedy_accept. f_equal; simpl; lia.
Qed.

(** No match on a title that starts neither with "S" nor with a digit. *)
Lemma prefixBody_none (t : js_string) :
  char_is true 83%N (hd 0%N t) = false -> is_digit (hd 0%N t) = false ->
  match_at prefixBody 0 t = None.
Proof.
  intros Hs Hd. unfold match_at, prefixBody, lit. cbn [m].
  rewrite !m_lit_of. destruct t as [|c t]; [reflexivity|]. simpl in Hs, Hd.
  change (starts_with true (str "Step") (c :: t))
    with (char_is true 83%N c && starts_with true (str "tep") t).
  rewrite Hs. cbn [andb]. cbv iota. unfold Plus. cbn [m]. rewrite Hd.
  reflexivity.
Qed.

(** X6. A title that begins with "Step", optional white space and a
    number, or with a number and a period, loses that prefix and the colons,
    periods, hyphens and white space behind it, and is trimmed; a title that
    begins neither with the letter S nor with a digit is left as it is. *)
Theorem prefix_stripped (st ws ds rest : js_string) :
  (map canonicalize st = map canonicalize (str "Step") ->
   forallb is_space ws = true -> ds <> [] -> forallb is_digit ds = true ->
   is_digit (hd 0%N rest) = false ->
   stripPrefix (st ++ ws ++ ds ++ rest) = trim (drop_while is_sep rest)) /\
  (ds <> [] -> forallb is_digit ds = true ->
   stripPrefix (ds ++ 46%N :: rest) = trim (drop_while is_sep rest)) /\
  (char_is true 83%N (hd 0%N rest) = false ->
   is_digit (hd 0%N rest) = false ->
   stripPrefix rest = rest).
Proof.
  split; [|split].
  - intros M Fw Hne Fd Hr. rewrite stripPrefix_match.
    rewrite (prefixBody_step_digits st ws ds rest M Fw Hne Fd Hr).
    rewrite skipn_count_seps; [reflexivity| |].
    + replace (length st + length ws + length ds)
        with (length st + (length ws + (length ds + 0))) by lia.
      rewrite !skipn_app_length. reflexivity.
    + rewrite !length_app. lia.
  - intros Hne Fd. rewrite stripPrefix_match.
    rewrite (prefixBody_number ds rest Hne Fd).
    rewrite skipn_count_seps; [reflexivity| |].
    + rewrite skipn_app_length. reflexivity.
    + rewrite !length_app. simpl. lia.
  - intros Hs Hd. rewrite stripPrefix_match.
    rewrite (prefixBody_none rest Hs Hd). reflexivity.
Qed.

Lemma prefix_stripped_witness :
  stripPrefix (str "STEP  12: - Setup ") = str "Setup" /\
  stripPrefix (str "3.Solve") = str "Solve" /\
  stripPrefix (str "Therefore x") = str "Therefore x".
Proof.
  split; [|split].
  - apply (proj1 (prefix_stripped (str "STEP") (str "  ") (str "12")
                    (str ": - Setup "))); vm_compute;
      reflexivity || discriminate.
  - apply (proj1 (proj2 (prefix_stripped [] [] (str "3") (str "Solve"))));
      vm_compute; reflexivity || discriminate.
  - apply (proj2 (proj2 (prefix_stripped [] [] [] (str "Therefore x"))));
      vm_compute; reflexivity.
Defined.

(** X7. A title that begins with "Step", white space and any letter loses
    "Step", the white space, that one letter and the separators behind it:
    the class of the pattern is written for one capital, and the [i] flag
    lets it take the first letter of any word. *)
Theorem step_word_eaten (st ws rest : js_string) (c : code_unit) :
  map canonicalize st = map canonicalize (str "Step") ->
  ws <> [] -> forallb is_space ws = true -> is_letter c = true ->
  stripPrefix (st ++ ws ++ c :: rest) = trim (drop_while is_sep rest).
Proof.
  intros M Hne Fw Hc. rewrite stripPrefix_match.
  rewrite (prefixBody_step_letter st ws rest c M Hne Fw Hc).
  rewrite skipn_count_seps; [reflexivity| |].
  - replace (length st + length ws + 1)
      with (length st + (length ws + 1)) by lia.
    rewrite !skipn_app_length. reflexivity.
  - rewrite !length_app. simpl. lia.
Qed.

Lemma step_word_eaten_witness :
  stripPrefix (str "Step into the light") = str "nto the light" /\
  stripPrefix (str "Step A: Setup") = str "Setup".
Proof.
  split.
  - apply (step_word_eaten (str "Step") (str " ") (str "nto the light")
             105%N); vm_compute; reflexivity || discriminate.
  - apply (step_word_eaten (str "Step") (str " ") (str ": Setup")
             65%N); vm_compute; reflexivity || discriminate.
Defined.

(* ------------------------------------------------------------------ *)
(** *** A step in the format of the prompt *)

Lemma trim_fix (s : js_string) :
  is_space (hd 0%N s) = false -> is_space (hd 0%N (rev s)) = false ->
  trim s = s.
Proof.
  intros Hh Hl. unfold trim, trimStart, trimEnd.
  rewrite (drop_while_fix is_space s Hh).
  rewrite (drop_while_fix is_space (rev s) Hl). apply rev_involutive.
Qed.

Lemma trim_fix_inv (s : js_string) :
  trim s = s -> s <> [] ->
  is_space (hd 0%N s) = false /\ is_space (hd 0%N (rev s)) = false.
Proof.
  intros E Hne. split.
  - destruct s as [|c r]; [congruence|]. simpl. eapply trim_head. exact E.
  - destruct (rev s) as [|c r] eqn:Er.
    + apply (f_equal (@rev _)) in Er. rewrite rev_involutive in Er.
      simpl in Er. congruence.
    + simpl. rewrite <- E in Er. eapply trim_last. exact Er.
Qed.

Lemma hd_app (a b : js_string) : a <> [] -> hd 0%N (a ++ b) = hd 0%N a.
Proof. destruct a; [congruence|reflexivity]. Qed.

Lemma hd_rev_app (a b : js_string) :
  b <> [] -> hd 0%N (rev (a ++ b)) = hd 0%N (rev b).
Proof.
  intros H. rewrite rev_app_distr. apply hd_app.
  intros E. apply (f_equal (@rev _)) in E. rewrite rev_involutive in E.
  simpl in E. congruence.
Qed.

Lemma split_nl_line (h b : js_string) :
  one_line h -> split_nl (h ++ NL :: b) = h :: split_nl b.
Proof.
  unfold one_line. induction h as [|c h IH]; intros H; simpl.
  - reflexivity.
  - simpl in H. apply andb_true_iff in H. destruct H as [Hc H].
    apply negb_true_iff in Hc. rewrite Hc. rewrite (IH H). reflexivity.
Qed.

(** Joining the lines of a string gives the string back. *)
Lemma join_split_nl (s : js_string) : join_nl (split_nl s) = s.
Proof.
  induction s as [|c s IH]; simpl; [reflexivity|].
  destruct (c =? NL)%N eqn:E.
  - apply N.eqb_eq in E. subst c.
    pose proof (split_nl_not_nil s) as Hn.
    destruct (split_nl s) as [|h t]; [congruence|].
    simpl. simpl in IH. rewrite IH. reflexivity.
  - destruct (split_nl s) as [|h t] eqn:Es.
    + exfalso. eapply split_nl_not_nil. exact Es.
    + simpl in *. destruct t; simpl in *; rewrite <- IH; reflexivity.
Qed.

Lemma digits_unmarked (ds : js_string) :
  forallb is_digit ds = true -> unmarked ds /\ one_line ds.
Proof.
  unfold unmarked, one_line. intros H. rewrite !forallb_forall in *.
  split; intros c Hc; specialize (H c Hc);
    unfold is_digit in H; bool_to_prop H.
  - unfold unmarked_char. apply andb_true_iff.
    split; apply negb_true_iff; apply N.eqb_neq; lia.
  - apply negb_true_iff. apply N.eqb_neq. unfold NL. lia.
Qed.

Lemma unmarked_app (a b : js_string) :
  unmarked a -> unmarked b -> unmarked (a ++ b).
Proof.
  unfold unmarked. intros Ha Hb. rewrite forallb_app.
  apply andb_true_iff. split; assumption.
Qed.

Lemma one_line_app (a b : js_string) :
  one_line a -> one_line b -> one_line (a ++ b).
Proof.
  unfold one_line. intros Ha Hb. rewrite forallb_app.
  apply andb_true_iff. split; assumption.
Qed.

Lemma stripPrefix_step_digits (st ws ds rest : js_string) :
  map canonicalize st = map canonicalize (str "Step") ->
  forallb is_space ws = true -> ds <> [] -> forallb is_digit ds = true ->
  is_digit (hd 0%N rest) = false ->
  stripPrefix (st ++ ws ++ ds ++ rest) = trim (drop_while is_sep rest).
Proof.
  intros M Fw Hne Fd Hr. rewrite stripPrefix_match.
  rewrite (prefixBody_step_digits st ws ds rest M Fw Hne Fd Hr).
  rewrite skipn_count_seps; [reflexivity| |].
  - replace (length st + length ws + length ds)
      with (length st + (length ws + (length ds + 0))) by lia.
    rewrite !skipn_app_length. reflexivity.
  - rewrite !length_app. lia.
Qed.

(** The header without its heading marker. *)
Lemma stripMarkers_heading (h : js_string) :
  unmarked h -> is_space (hd 0%N h) = false ->
  stripMarkers (str "### " ++ h) = h.
Proof.
  intros Hu Hh. unfold stripMarkers, replace_first, headerHashes.
  rewrite exec_bol. unfold match_at, lit. cbn [m]. rewrite m_lit_of.
  change (starts_with false (str "###") (str "### " ++ h)) with true.
  cbv iota. change (skipn (length (str "###")) (str "### " ++ h))
    with (32%N :: h).
  rewrite star_greedy_accept. cbn [index matched].
  change (count_while is_space (32%N :: h))
    with (S (count_while is_space h)).
  assert (C : count_while is_space h = 0).
  { destruct h as [|c h]; [reflexivity|]. simpl in *. rewrite Hh.
    reflexivity. }
  rewrite C. simpl firstn. simpl skipn.
  unfold replace_all. simpl.
  rewrite (search_none unmarked boldStars unmarked_tail boldStars_unmarked
             0 h Hu).
  reflexivity.
Qed.

Lemma stepHeader_facts (mk ds ttl : js_string) :
  mk = [] \/ mk = str "### " ->
  ds <> [] -> forallb is_digit ds = true ->
  one_line ttl -> unmarked ttl -> trim ttl = ttl -> ttl <> [] ->
  is_sep (hd 0%N ttl) = false ->
  one_line (stepHeader mk ds ttl) /\
  trim (stepHeader mk ds ttl) = stepHeader mk ds ttl /\
  is_space (hd 0%N (stepHeader mk ds ttl)) = false /\
  stripPrefix (stripMarkers (stepHeader mk ds ttl)) = ttl.
Proof.
  intros Hmk Hne Fd Ho Hu Ht Htn Hs.
  destruct (digits_unmarked ds Fd) as [Du Do].
  destruct (trim_fix_inv ttl Ht Htn) as [Th Tl].
  assert (Hrest : one_line (str "Step " ++ ds ++ str ": " ++ ttl)
                  /\ unmarked (str "Step " ++ ds ++ str ": " ++ ttl)).
  { split.
    - apply one_line_app; [reflexivity|].
      apply one_line_app; [exact Do|].
      apply one_line_app; [reflexivity|exact Ho].
    - apply unmarked_app; [reflexivity|].
      apply unmarked_app; [exact Du|].
      apply unmarked_app; [reflexivity|exact Hu]. }
  destruct Hrest as [Ro Ru].
  assert (Hlast : is_space (hd 0%N (rev (stepHeader mk ds ttl))) = false).
  { unfold stepHeader. rewrite !app_assoc. rewrite hd_rev_app by exact Htn.
    exact Tl. }
  assert (Hhead : is_space (hd 0%N (stepHeader mk ds ttl)) = false).
  { unfold stepHeader. destruct Hmk; subst mk; reflexivity. }
  assert (Hstrip : stripMarkers (stepHeader mk ds ttl)
                   = str "Step " ++ ds ++ str ": " ++ ttl).
  { unfold stepHeader. destruct Hmk; subst mk.
    - simpl app. apply stripMarkers_unmarked. exact Ru.
    - apply stripMarkers_heading; [exact Ru|reflexivity]. }
  split; [|split; [|split]].
  - unfold stepHeader. apply one_line_app; [|exact Ro].
    destruct Hmk; subst mk; reflexivity.
  - apply trim_fix; assumption.
  - exact Hhead.
  - rewrite Hstrip.
    change (str "Step " ++ ds ++ str ": " ++ ttl)
      with (str "Step" ++ str " " ++ ds ++ (str ": " ++ ttl)).
    rewrite (stripPrefix_step_digits (str "Step") (str " ") ds
               (str ": " ++ ttl)); auto.
    simpl drop_while.
    rewrite (drop_while_fix is_sep ttl Hs). exact Ht.
Qed.

Lemma cleanStep_stepHeader (raw mk ds ttl body : js_string) :
  trim raw = stepHeader mk ds ttl ++ NL :: body ->
  mk = [] \/ mk = str "### " ->
  ds <> [] -> forallb is_digit ds = true ->
  one_line ttl -> unmarked ttl -> trim ttl = ttl -> ttl <> [] ->
  is_sep (hd 0%N ttl) = false ->
  trim body = body -> body <> [] ->
  cleanStep raw = Normal {| title := ttl; content := body |}.
Proof.
  intros Hraw Hmk Hne Fd Ho Hu Ht Htn Hs Hb Hbn.
  destruct (stepHeader_facts mk ds ttl Hmk Hne Fd Ho Hu Ht Htn Hs)
    as [Hol [Htr [_ Hsp]]].
  rewrite cleanStep_cases. unfold candidateTitle, bodyOf, headerOf.
  rewrite Hraw, (split_nl_line _ _ Hol). simpl hd. unfold slice1. simpl tl.
  rewrite Htr, Hsp, join_split_nl, Hb.
  destruct body; [congruence|]. destruct ttl; [congruence|]. reflexivity.
Qed.

(** X8. A raw step that, once trimmed, is a header line "Step N: title",
    with or without "### " in front, followed by a body, is cleaned to exactly
    that title and that body.  The title is a trimmed line without "#" and
    asterisk that does not begin with a separator, and the body is trimmed
    and not empty. *)
Theorem step_in_format (raw mk ds ttl body : js_string) :
  trim raw = stepHeader mk ds ttl ++ NL :: body ->
  mk = [] \/ mk = str "### " ->
  ds <> [] -> forallb is_digit ds = true ->
  one_line ttl -> unmarked ttl -> trim ttl = ttl -> ttl <> [] ->
  is_sep (hd 0%N ttl) = false ->
  trim body = body -> body <> [] ->
  cleanStep raw = Normal {| title := ttl; content := body |}.
Proof. apply cleanStep_stepHeader. Qed.

Lemma step_in_format_witness :
  cleanStep (join_nl [str "  ### Step 12: Solve for x"; str "Move 3.";
                      str "Divide. "])
  = Normal {| title := str "Solve for x";
              content := join_nl [str "Move 3."; str "Divide."] |}.
Proof.
  apply (step_in_format _ (str "### ") (str "12") (str "Solve for x")
           (join_nl [str "Move 3."; str "Divide."]));
    try (vm_compute; reflexivity); try (vm_compute; discriminate).
  right. reflexivity.
Defined.

(* ------------------------------------------------------------------ *)
(** *** A whole response in the format of the prompt *)

Lemma all_space_unmarked (s : js_string) : all_space s -> unmarked s.
Proof.
  unfold all_space, unmarked. intros H. rewrite !forallb_forall in *.
  intros c Hc. specialize (H c Hc). unfold unmarked_char.
  apply andb_true_iff.
  split; apply negb_true_iff; apply N.eqb_neq; intros ->; discriminate.
Qed.

Lemma trim_unique (pre t post : js_string) :
  all_space pre -> all_space post -> trim t = t ->
  trim (pre ++ t ++ post) = t.
Proof.
  intros Hp Hq Ht. destruct t as [|c r] eqn:Et.
  - simpl. apply trim_all_space. rewrite forallb_app. apply andb_true_iff.
    split; assumption.
  - rewrite <- Et in *.
    assert (Hne : t <> []) by (rewrite Et; discriminate).
    destruct (trim_fix_inv t Ht Hne) as [Hh Hl].
    unfold trim, trimStart, trimEnd.
    destruct (count_while_app is_space pre (t ++ post) Hp) as [_ D].
    { left. rewrite hd_app by exact Hne. exact Hh. }
    rewrite D, rev_app_distr.
    assert (Hq' : forallb is_space (rev post) = true).
    { unfold all_space in Hq. rewrite forallb_forall in *. intros x Hx.
      apply Hq. apply in_rev. exact Hx. }
    destruct (count_while_app is_space (rev post) (rev t) Hq') as [_ D'].
    { left. exact Hl. }
    rewrite D'. apply rev_involutive.
Qed.

(** A marker needs "#" or an asterisk to begin. *)
Lemma marker_len_unmarked (c : code_unit) (s : js_string) :
  unmarked_char c = true -> marker_len (c :: s) = None.
Proof.
  intros H. unfold marker_len. simpl starts_with.
  rewrite (unmarked_not_hash true c H), (unmarked_not_star true c H).
  reflexivity.
Qed.

Lemma quiet_unmarked (u : js_string) : unmarked u -> quiet u.
Proof.
  unfold quiet. induction u as [|c u IH]; intros Hu suf j Hj.
  - simpl in Hj. lia.
  - destruct j as [|j].
    + simpl. apply marker_len_unmarked. eapply unmarked_head. exact Hu.
    + simpl. apply IH; [eapply unmarked_tail; exact Hu|simpl in Hj; lia].
Qed.

Lemma quiet_app (a b : js_string) : quiet a -> quiet b -> quiet (a ++ b).
Proof.
  unfold quiet. intros Ha Hb suf j Hj.
  destruct (Nat.lt_ge_cases j (length a)) as [L|G].
  - rewrite <- app_assoc. apply Ha. exact L.
  - rewrite <- app_assoc. rewrite skipn_app.
    rewrite skipn_all2 by lia. simpl. apply Hb.
    rewrite length_app in Hj. lia.
Qed.

Lemma quiet_stepsHeading : quiet (str "## Solution Steps").
Proof.
  intros suf j Hj.
  do 17 (destruct j as [|j]; [reflexivity|]). simpl in Hj. lia.
Qed.

Lemma quiet_stepMark : quiet (str "### Step ").
Proof.
  intros suf j Hj.
  do 9 (destruct j as [|j]; [reflexivity|]). simpl in Hj. lia.
Qed.

Lemma stepBlock_shape (b : FormattedStep) :
  stepBlock b =
  str "### Step " ++ stepNumber b ++ str ": " ++ stepTitle b
  ++ NL :: stepBody b.
Proof.
  unfold stepBlock, stepHeader. rewrite <- !app_assoc. reflexivity.
Qed.

Lemma NL_unmarked (s : js_string) : unmarked s -> unmarked (NL :: s).
Proof. intros H. unfold unmarked. simpl. exact H. Qed.

Lemma stepBlock_tail_unmarked (b : FormattedStep) :
  well_formed_step b ->
  unmarked (stepNumber b ++ str ": " ++ stepTitle b ++ NL :: stepBody b).
Proof.
  intros [_ [Fd [_ [Hu [_ [_ [_ [Hb _]]]]]]]].
  apply unmarked_app; [apply digits_unmarked; exact Fd|].
  apply unmarked_app; [reflexivity|].
  apply unmarked_app; [exact Hu|]. apply NL_unmarked. exact Hb.
Qed.

Lemma quiet_stepBlock (b : FormattedStep) :
  well_formed_step b -> quiet (stepBlock b).
Proof.
  intros H. rewrite stepBlock_shape.
  apply quiet_app; [exact quiet_stepMark|].
  apply quiet_unmarked. apply stepBlock_tail_unmarked. exact H.
Qed.

Lemma quiet_stepBlocks (bs : list FormattedStep) :
  Forall well_formed_step bs -> quiet (stepBlocks bs).
Proof.
  induction bs as [|b bs IH]; intros F.
  - intros suf j Hj. simpl in Hj. lia.
  - inversion F as [|? ? Hb F']. subst.
    destruct bs as [|b' bs'].
    + simpl. apply quiet_stepBlock. exact Hb.
    + change (stepBlocks (b :: b' :: bs'))
        with (stepBlock b ++ stepGap b ++ NL :: stepBlocks (b' :: bs')).
      apply quiet_app; [apply quiet_stepBlock; exact Hb|].
      apply quiet_app.
      * apply quiet_unmarked. apply all_space_unmarked.
        destruct Hb as [_ [_ [_ [_ [_ [_ [_ [_ [_ [_ Hg]]]]]]]]]]. exact Hg.
      * change (NL :: stepBlocks (b' :: bs'))
          with ([NL] ++ stepBlocks (b' :: bs')).
        apply quiet_app; [apply quiet_unmarked; reflexivity|].
        apply IH. exact F'.
Qed.

Lemma stepBlock_ends (b : FormattedStep) :
  well_formed_step b ->
  is_space (hd 0%N (stepBlock b)) = false /\
  is_space (hd 0%N (rev (stepBlock b))) = false /\
  stepBlock b <> [].
Proof.
  intros [_ [_ [_ [_ [_ [_ [_ [_ [Ht [Hn _]]]]]]]]]].
  rewrite stepBlock_shape. split; [reflexivity|]. split.
  - change (str "### Step " ++ stepNumber b ++ str ": " ++ stepTitle b
            ++ NL :: stepBody b)
      with (str "### Step " ++ stepNumber b ++ str ": " ++ stepTitle b
            ++ [NL] ++ stepBody b).
    rewrite !app_assoc. rewrite hd_rev_app by exact Hn.
    apply (trim_fix_inv _ Ht Hn).
  - discriminate.
Qed.

Lemma stepBlocks_ends (bs : list FormattedStep) :
  bs <> [] -> Forall well_formed_step bs ->
  (exists rest, stepBlocks bs = str "### " ++ rest) /\
  is_space (hd 0%N (rev (stepBlocks bs))) = false.
Proof.
  induction bs as [|b bs IH]; intros Hne F; [congruence|].
  inversion F as [|? ? Hb F']. subst.
  destruct (stepBlock_ends b Hb) as [_ [Hl Hn]].
  destruct bs as [|b' bs'].
  - simpl. split; [|exact Hl]. rewrite stepBlock_shape. eexists. reflexivity.
  - change (stepBlocks (b :: b' :: bs'))
      with (stepBlock b ++ stepGap b ++ NL :: stepBlocks (b' :: bs')).
    destruct (IH ltac:(discriminate) F') as [[rest Er] Hl'].
    split.
    + rewrite stepBlock_shape. eexists. rewrite <- !app_assoc. reflexivity.
    + change (stepBlock b ++ stepGap b ++ NL :: stepBlocks (b' :: bs'))
        with (stepBlock b ++ stepGap b ++ [NL] ++ stepBlocks (b' :: bs')).
      rewrite !app_assoc. rewrite hd_rev_app; [exact Hl'|].
      rewrite Er. discriminate.
Qed.

Lemma trim_stepBlocks (bs : list FormattedStep) :
  bs <> [] -> Forall well_formed_step bs ->
  trim (stepBlocks bs) = stepBlocks bs.
Proof.
  intros Hne F. destruct (stepBlocks_ends bs Hne F) as [[rest Er] Hl].
  apply trim_fix; [|exact Hl]. rewrite Er. reflexivity.
Qed.

Lemma ahead_heading_pos pos s :
  ahead_ok headingMark pos s = ahead_ok headingMark 0 s.
Proof.
  unfold ahead_ok. rewrite !headingMark_match.
  destruct (starts_with false (str "###") s); [|reflexivity].
  destruct (skipn 3 s) as [|c r]; [reflexivity|].
  destruct (is_space c); reflexivity.
Qed.

Lemma heading_needs_hash s :
  ahead_ok headingMark 0 s = true -> hd 0%N s = 35%N.
Proof.
  intros H. apply headingMark_spec in H. destruct H as [c [rest [_ ->]]].
  reflexivity.
Qed.

Lemma cut_rec_not_nil (B : js_string -> bool) s : cut_rec B s <> [].
Proof.
  induction s as [|c s IH]; simpl; [discriminate|].
  destruct ((c =? NL)%N && B s); [discriminate|].
  destruct (cut_rec B s); [congruence|discriminate].
Qed.

Lemma firstn_succ_nth (l : js_string) k :
  k < length l -> firstn (S k) l = firstn k l ++ [nth k l 0%N].
Proof.
  revert k. induction l as [|x l IH]; intros k H; simpl in H; [lia|].
  destruct k as [|k]; [reflexivity|]. simpl. f_equal. apply IH. lia.
Qed.

(** The cut by positions and the cut along the string agree. *)
Lemma slices_cut_rec (s : js_string) n p q :
  p <= q -> q + n = length s ->
  slices s p (filter (boundary headingMark s) (seq q n))
  = prep (firstn (q - p) (skipn p s))
         (cut_rec (ahead_ok headingMark 0) (skipn q s)).
Proof.
  revert p q. induction n as [|n IH]; intros p q Hpq Hlen.
  - simpl. replace (skipn q s) with (@nil code_unit)
      by (symmetry; apply skipn_all2; lia).
    simpl. rewrite app_nil_r. rewrite firstn_all2; [reflexivity|].
    rewrite length_skipn. lia.
  - rewrite filter_seq_step. rewrite (skipn_nth s q) by lia.
    unfold boundary at 1. rewrite ahead_heading_pos.
    set (t := skipn (S q) s). cbn [cut_rec].
    pose proof (cut_rec_not_nil (ahead_ok headingMark 0) t) as Hn.
    destruct ((nth q s 0 =? NL)%N && ahead_ok headingMark 0 t) eqn:E.
    + cbn [slices]. rewrite (IH (S q) (S q)) by lia. fold t.
      rewrite Nat.sub_diag. cbn [firstn].
      destruct (cut_rec (ahead_ok headingMark 0) t); [congruence|].
      cbn [prep app]. rewrite app_nil_r. reflexivity.
    + rewrite (IH p (S q)) by lia. fold t.
      destruct (cut_rec (ahead_ok headingMark 0) t) as [|h l];
        [congruence|].
      cbn [prep]. f_equal.
      replace (S q - p) with (S (q - p)) by lia.
      rewrite firstn_succ_nth by (rewrite length_skipn; lia).
      rewrite <- app_assoc. cbn [app]. f_equal. f_equal.
      rewrite nth_skipn. f_equal. lia.
Qed.

Lemma cut_lines_cut_rec (s : js_string) :
  cut_lines headingMark s = cut_rec (ahead_ok headingMark 0) s.
Proof.
  unfold cut_lines. rewrite (slices_cut_rec s (length s) 0 0) by lia.
  simpl.
  pose proof (cut_rec_not_nil (ahead_ok headingMark 0) s) as Hn.
  destruct (cut_rec (ahead_ok headingMark 0) s); [congruence|reflexivity].
Qed.

Lemma hd_app_default (u t : js_string) :
  hd 0%N (u ++ t) = hd (hd 0%N t) u.
Proof. destruct u; reflexivity. Qed.

(** Where no line break has a "#" behind it, nothing is cut. *)
Lemma cut_rec_calm (u t : js_string) :
  calm u (hd 0%N t) = true ->
  cut_rec (ahead_ok headingMark 0) (u ++ t)
  = prep u (cut_rec (ahead_ok headingMark 0) t).
Proof.
  induction u as [|c u IH]; intros H.
  - simpl. pose proof (cut_rec_not_nil (ahead_ok headingMark 0) t) as Hn.
    destruct (cut_rec (ahead_ok headingMark 0) t); [congruence|reflexivity].
  - cbn [calm] in H. apply andb_true_iff in H. destruct H as [Hc H].
    cbn [app cut_rec]. rewrite (IH H).
    assert (E : (c =? NL)%N && ahead_ok headingMark 0 (u ++ t) = false).
    { destruct (c =? NL)%N; [|reflexivity]. cbn [andb].
      destruct (ahead_ok headingMark 0 (u ++ t)) eqn:A; [|reflexivity].
      apply heading_needs_hash in A. rewrite hd_app_default in A.
      cbn [negb orb] in Hc. apply negb_true_iff, N.eqb_neq in Hc.
      exfalso. apply Hc. exact A. }
    rewrite E.
    pose proof (cut_rec_not_nil (ahead_ok headingMark 0) t) as Hn.
    destruct (cut_rec (ahead_ok headingMark 0) t); [congruence|reflexivity].
Qed.

Lemma calm_unmarked (v : js_string) (f : code_unit) :
  unmarked v -> (f =? 35)%N = false -> calm v f = true.
Proof.
  intros Hv Hf. induction v as [|c v IH]; [reflexivity|].
  simpl. rewrite (IH (unmarked_tail _ _ Hv)). rewrite andb_true_r.
  apply orb_true_iff. right. apply negb_true_iff.
  destruct v as [|d v]; [exact Hf|]. simpl.
  pose proof (unmarked_head _ _ (unmarked_tail _ _ Hv)) as Hd.
  unfold unmarked_char in Hd. apply andb_true_iff in Hd.
  destruct Hd as [Hd _]. apply negb_true_iff in Hd. exact Hd.
Qed.

Lemma calm_piece (b : FormattedStep) (f : code_unit) :
  well_formed_step b -> (f =? 35)%N = false ->
  calm (stepBlock b ++ stepGap b) f = true /\ calm (stepBlock b) f = true.
Proof.
  intros Hb Hf. pose proof (stepBlock_tail_unmarked b Hb) as Hu.
  assert (Hg : unmarked (stepGap b)).
  { apply all_space_unmarked.
    destruct Hb as [_ [_ [_ [_ [_ [_ [_ [_ [_ [_ Hg]]]]]]]]]]. exact Hg. }
  rewrite stepBlock_shape. split.
  - rewrite <- app_assoc.
    set (v := (stepNumber b ++ str ": " ++ stepTitle b
               ++ NL :: stepBody b) ++ stepGap b).
    assert (Hv : calm v f = true).
    { apply calm_unmarked; [|exact Hf]. apply unmarked_app; assumption. }
    simpl. rewrite Hv. reflexivity.
  - set (v := stepNumber b ++ str ": " ++ stepTitle b ++ NL :: stepBody b).
    assert (Hv : calm v f = true) by (apply calm_unmarked; assumption).
    simpl. rewrite Hv. reflexivity.
Qed.

Lemma stepBlocks_heading (bs : list FormattedStep) :
  bs <> [] -> Forall well_formed_step bs ->
  ahead_ok headingMark 0 (stepBlocks bs) = true.
Proof.
  intros Hne F. destruct (stepBlocks_ends bs Hne F) as [[rest Er] _].
  apply (headingMark_spec 0). rewrite Er. exists 32%N, rest.
  split; reflexivity.
Qed.

(** The blocks are cut into their pieces. *)
Lemma cut_stepBlocks (bs : list FormattedStep) :
  bs <> [] -> Forall well_formed_step bs ->
  cut_rec (ahead_ok headingMark 0) (stepBlocks bs) = stepPieces bs.
Proof.
  induction bs as [|b bs IH]; intros Hne F; [congruence|].
  inversion F as [|? ? Hb F']. subst.
  destruct bs as [|b' bs'].
  - simpl stepBlocks. simpl stepPieces.
    rewrite <- (app_nil_r (stepBlock b)) at 1.
    rewrite (cut_rec_calm (stepBlock b) []
               (proj2 (calm_piece b 0%N Hb eq_refl))).
    cbn [cut_rec prep]. rewrite app_nil_r. reflexivity.
  - change (stepBlocks (b :: b' :: bs'))
      with (stepBlock b ++ stepGap b ++ NL :: stepBlocks (b' :: bs')).
    change (stepPieces (b :: b' :: bs'))
      with ((stepBlock b ++ stepGap b) :: stepPieces (b' :: bs')).
    rewrite app_assoc.
    rewrite (cut_rec_calm (stepBlock b ++ stepGap b)
               (NL :: stepBlocks (b' :: bs'))
               (proj1 (calm_piece b NL Hb eq_refl))).
    cbn [cut_rec]. rewrite N.eqb_refl.
    rewrite (stepBlocks_heading (b' :: bs') ltac:(discriminate) F').
    cbn [andb prep]. rewrite app_nil_r.
    rewrite (IH ltac:(discriminate) F'). reflexivity.
Qed.

Lemma trim_piece (b : FormattedStep) :
  well_formed_step b ->
  trim (stepBlock b ++ stepGap b) = stepBlock b /\
  trim (stepBlock b) = stepBlock b.
Proof.
  intros Hb. destruct (stepBlock_ends b Hb) as [Hh [Hl Hn]].
  assert (T : trim (stepBlock b) = stepBlock b) by (apply trim_fix; assumption).
  split; [|exact T].
  apply (trim_unique [] (stepBlock b) (stepGap b)); [reflexivity| |exact T].
  destruct Hb as [_ [_ [_ [_ [_ [_ [_ [_ [_ [_ Hg]]]]]]]]]]. exact Hg.
Qed.

Lemma cleanStep_trim (a b : js_string) :
  trim a = trim b -> cleanStep a = cleanStep b.
Proof. intros E. unfold cleanStep. rewrite E. reflexivity. Qed.

Lemma cleanStep_block (b : FormattedStep) (raw : js_string) :
  well_formed_step b -> trim raw = stepBlock b ->
  cleanStep raw = Normal (stepOf b).
Proof.
  intros Hb E.
  destruct Hb as [Hn [Fd [Ho [Hu [Ht [Htn [Hs [_ [Hbt [Hbn _]]]]]]]]]].
  apply (cleanStep_stepHeader raw (str "### ") (stepNumber b) (stepTitle b)
           (stepBody b)); auto.
Qed.

Lemma pieces_cleaned (bs : list FormattedStep) :
  Forall well_formed_step bs ->
  filter nonblank (stepPieces bs) = stepPieces bs /\
  mapM cleanStep (stepPieces bs) = Normal (map stepOf bs) /\
  filter hasContent (map stepOf bs) = map stepOf bs.
Proof.
  induction bs as [|b bs IH]; intros F; [repeat split; reflexivity|].
  inversion F as [|? ? Hb F']. subst.
  destruct (IH F') as [I1 [I2 I3]].
  destruct (trim_piece b Hb) as [T1 T2].
  destruct (stepBlock_ends b Hb) as [_ [_ Hne]].
  assert (Hc : hasContent (stepOf b) = true).
  { apply hasContent_true. simpl.
    destruct Hb as [_ [_ [_ [_ [_ [_ [_ [_ [_ [Hbn _]]]]]]]]]]. exact Hbn. }
  assert (N1 : nonblank (stepBlock b ++ stepGap b) = true).
  { apply nonblank_trim. rewrite T1. exact Hne. }
  assert (N2 : nonblank (stepBlock b) = true).
  { apply nonblank_trim. rewrite T2. exact Hne. }
  split; [|split].
  - destruct bs as [|b' bs'].
    + cbn [stepPieces filter]. rewrite N2. reflexivity.
    + change (stepPieces (b :: b' :: bs'))
        with ((stepBlock b ++ stepGap b) :: stepPieces (b' :: bs')).
      cbn [filter]. rewrite N1, I1. reflexivity.
  - destruct bs as [|b' bs'].
    + cbn [stepPieces mapM]. rewrite (cleanStep_block b (stepBlock b) Hb T2).
      reflexivity.
    + change (stepPieces (b :: b' :: bs'))
        with ((stepBlock b ++ stepGap b) :: stepPieces (b' :: bs')).
      cbn [mapM]. rewrite (cleanStep_block b _ Hb T1), I2. reflexivity.
  - cbn [map filter]. rewrite Hc, I3. reflexivity.
Qed.

Lemma skipn_length_app (a b : js_string) : skipn (length a) (a ++ b) = b.
Proof.
  rewrite <- (Nat.add_0_r (length a)). apply skipn_app_length.
Qed.

Lemma search_here (r : regex) (s : js_string) (e : nat) :
  match_at r 0 s = Some e ->
  exec r s = Some {| index := 0; matched := firstn e s |}.
Proof.
  intros H. unfold exec.
  rewrite (search_first r 0 s 0 e); simpl; auto; try lia.
  all: try (rewrite Nat.sub_0_r; reflexivity).
  all: intros j Hj; lia.
Qed.

Lemma formatted_stages (g0 : js_string) (bs : list FormattedStep)
      (gN rest : js_string) :
  bs <> [] -> Forall well_formed_step bs -> all_space g0 -> all_space gN ->
  let text := response g0 bs gN rest in
  finalAnswerOf text = trim (drop_while is_lead rest) /\
  stepsTextOf text = str "## Solution Steps" ++ g0 ++ stepBlocks bs /\
  contentToParseOf (stepsTextOf text) = stepBlocks bs.
Proof.
  intros Hne F H0 HN text.
  set (hdr := str "## Solution Steps").
  remember (hdr ++ g0 ++ stepBlocks bs ++ gN) as pre eqn:Epre.
  assert (Et : text = pre ++ str "## Final Answer" ++ rest).
  { unfold text, response. rewrite Epre. unfold hdr.
    rewrite <- !app_assoc. reflexivity. }
  clearbody text.
  assert (Q : quiet pre).
  { rewrite Epre. apply quiet_app; [exact quiet_stepsHeading|].
    apply quiet_app; [apply quiet_unmarked, all_space_unmarked; exact H0|].
    apply quiet_app; [apply quiet_stepBlocks; exact F|].
    apply quiet_unmarked, all_space_unmarked. exact HN. }
  assert (Ex : exec finalAnswerRegex text
               = Some {| index := length pre;
                         matched := firstn 15 (str "## Final Answer" ++ rest)
                      |}).
  { unfold exec.
    rewrite (search_first finalAnswerRegex 0 text (length pre)
               (length pre + 15)).
    - simpl Nat.add. rewrite Et, skipn_length_app.
      replace (length pre + 15 - length pre) with 15 by lia. reflexivity.
    - rewrite Et, length_app. lia.
    - simpl Nat.add. rewrite finalAnswerRegex_match. rewrite Et.
      rewrite skipn_length_app. reflexivity.
    - intros j Hj. simpl Nat.add. rewrite finalAnswerRegex_match, Et.
      rewrite (Q _ j Hj). reflexivity. }
  assert (Ts : trim (hdr ++ g0 ++ stepBlocks bs) = hdr ++ g0 ++ stepBlocks bs).
  { destruct (stepBlocks_ends bs Hne F) as [[r Er] Hl].
    apply trim_fix; [reflexivity|].
    rewrite !app_assoc. rewrite hd_rev_app; [exact Hl|].
    rewrite Er. discriminate. }
  assert (Hs : stepsTextOf text = hdr ++ g0 ++ stepBlocks bs).
  { unfold stepsTextOf. rewrite Ex. cbn [index]. rewrite substring_0.
    rewrite Et, firstn_app, Nat.sub_diag, firstn_all. simpl firstn.
    rewrite app_nil_r. rewrite Epre.
    replace (hdr ++ g0 ++ stepBlocks bs ++ gN)
      with ([] ++ (hdr ++ g0 ++ stepBlocks bs) ++ gN)
      by (simpl; rewrite <- !app_assoc; reflexivity).
    apply trim_unique; [reflexivity|exact HN|exact Ts]. }
  split; [|split].
  - unfold finalAnswerOf. rewrite Ex. cbn [index matched].
    unfold substring_from. rewrite replace_lead.
    replace (skipn (length pre
                    + length (firstn 15 (str "## Final Answer" ++ rest)))
               text) with rest; [reflexivity|].
    rewrite Et. rewrite skipn_app_length. reflexivity.
  - exact Hs.
  - rewrite Hs. unfold contentToParseOf.
    rewrite (search_here stepsHeaderRegex (hdr ++ g0 ++ stepBlocks bs) 17).
    + cbn [index matched]. unfold substring_from.
      change (0 + length (firstn 17 (hdr ++ g0 ++ stepBlocks bs)))
        with (length hdr + 0).
      rewrite skipn_app_length. simpl skipn.
      rewrite <- (app_nil_r (g0 ++ stepBlocks bs)). rewrite <- app_assoc.
      apply trim_unique; [exact H0|reflexivity|].
      apply trim_stepBlocks; assumption.
    + rewrite stepsHeaderRegex_match. reflexivity.
Qed.

(** X9. A response in the format the prompt asks for, the heading
    "## Solution Steps", one or more blocks "### Step N: title" with their
    bodies, and the heading "## Final Answer", is read back exactly: the
    steps are the titles and bodies in their order, the final answer is what
    follows the last heading without its leading colons, asterisks and white
    space, trimmed, and the fallback flag is not set.  This holds when every
    step number is made of digits, every title is one trimmed line that is
    not empty, holds no "#" and no asterisk and does not begin with a colon,
    a period, a hyphen or white space, every body is trimmed, not empty and
    without "#" and asterisk, and only white space stands between the
    parts. *)
Theorem formatted_response (g0 : js_string) (bs : list FormattedStep)
        (gN rest : js_string) :
  bs <> [] -> Forall well_formed_step bs -> all_space g0 -> all_space gN ->
  parseResult (response g0 bs gN rest) =
    Normal (Some {| steps := map stepOf bs;
                    finalAnswer := trim (drop_while is_lead rest);
                    fallback := false |}).
Proof.
  intros Hne F H0 HN.
  destruct (formatted_stages g0 bs gN rest Hne F H0 HN) as [Hf [Hs Hc]].
  unfold parseResult.
  change (is_empty (response g0 bs gN rest)) with false. cbv iota.
  rewrite Hc, Hf. clear Hf Hs Hc.
  assert (Ht : test headingTest (stepBlocks bs) = true).
  { unfold headingTest.
    apply (test_lineStart_spec _ _ headingMark_not_nil). left.
    apply stepBlocks_heading; assumption. }
  unfold rawStepsOf. rewrite Ht. unfold headingSplit.
  rewrite (split_cut_lines _ headingMark_not_nl headingMark_not_nil).
  rewrite cut_lines_cut_rec, (cut_stepBlocks bs Hne F).
  destruct (pieces_cleaned bs F) as [P1 [P2 P3]].
  rewrite P1, P2. cbn [bind]. rewrite P3.
  unfold finish. destruct bs as [|b bs]; [congruence|]. reflexivity.
Qed.

Lemma formatted_response_witness :
  parseResult
    (response [NL; NL]
       [ {| stepNumber := str "1"; stepTitle := str "Setup";
            stepBody := join_nl [str "Do X."; str "1. then Y."];
            stepGap := [NL] |};
         {| stepNumber := str "2"; stepTitle := str "Solve";
            stepBody := str "Do Z."; stepGap := [] |} ]
       [NL; NL] (NL :: str "42" ++ [NL]))
  = Normal (Some {| steps :=
                      [ {| title := str "Setup";
                           content := join_nl [str "Do X."; str "1. then Y."]
                        |};
                        {| title := str "Solve"; content := str "Do Z." |} ];
                    finalAnswer := str "42"; fallback := false |}).
Proof.
  refine (formatted_response [NL; NL]
            [ {| stepNumber := str "1"; stepTitle := str "Setup";
                 stepBody := join_nl [str "Do X."; str "1. then Y."];
                 stepGap := [NL] |};
              {| stepNumber := str "2"; stepTitle := str "Solve";
                 stepBody := str "Do Z."; stepGap := [] |} ]
            [NL; NL] (NL :: str "42" ++ [NL]) _ _ _ _).
  - discriminate.
  - repeat constructor; vm_compute; reflexivity || discriminate.
  - reflexivity.
  - reflexivity.
Defined.

(* ------------------------------------------------------------------ *)
(** *** What a title never holds *)

Lemma infix_refl (s : js_string) : infix_of s s.
Proof. exists [], []. simpl. rewrite app_nil_r. reflexivity. Qed.

Lemma infix_trans (a b c : js_string) :
  infix_of a b -> infix_of b c -> infix_of a c.
Proof.
  intros [x [y E]] [u [v F]]. exists (u ++ x), (y ++ v).
  rewrite F, E. rewrite <- !app_assoc. reflexivity.
Qed.

Lemma infix_trim (s : js_string) : infix_of (trim s) s.
Proof.
  destruct (trim_decompose s) as [pre [post [E _]]]. exists pre, post. exact E.
Qed.

Lemma infix_skipn (n : nat) (s : js_string) : infix_of (skipn n s) s.
Proof.
  exists (firstn n s), []. rewrite app_nil_r. symmetry. apply firstn_skipn.
Qed.

Lemma infix_stripPrefix (t : js_string) : infix_of (stripPrefix t) t.
Proof.
  rewrite stripPrefix_match. destruct (match_at prefixBody 0 t).
  - eapply infix_trans; [apply infix_trim|apply infix_skipn].
  - apply infix_refl.
Qed.

Lemma forallb_infix (f : code_unit -> bool) (b s : js_string) :
  infix_of b s -> forallb f s = true -> forallb f b = true.
Proof.
  intros [a [c ->]] H. rewrite !forallb_app in H.
  apply andb_true_iff in H. destruct H as [_ H].
  apply andb_true_iff in H. tauto.
Qed.

Lemma has_bold_app_inv (a b : js_string) :
  has_bold (a ++ b) = false -> has_bold a = false /\ has_bold b = false.
Proof.
  induction a as [|x a IH]; intros H; [auto|].
  simpl in H. apply orb_false_iff in H. destruct H as [H1 H2].
  destruct (IH H2) as [Ia Ib]. split; [|exact Ib].
  simpl. rewrite Ia. rewrite orb_false_r.
  destruct a as [|y a]; [reflexivity|exact H1].
Qed.

Lemma has_bold_infix (b s : js_string) :
  infix_of b s -> has_bold s = false -> has_bold b = false.
Proof.
  intros [a [c ->]] H. apply has_bold_app_inv in H. destruct H as [_ H].
  apply has_bold_app_inv in H. tauto.
Qed.

Lemma has_bold_app (u w : js_string) :
  has_bold u = false -> has_bold w = false ->
  (hd 0%N (rev u) =? 42)%N = false ->
  has_bold (u ++ w) = false.
Proof.
  induction u as [|x u IH]; intros Hu Hw Hl; [exact Hw|].
  simpl in Hu. apply orb_false_iff in Hu. destruct Hu as [H1 H2].
  destruct u as [|y u].
  - simpl in *. rewrite Hw, orb_false_r.
    destruct w as [|z w]; [reflexivity|]. rewrite Hl. reflexivity.
  - change ((x :: y :: u) ++ w) with (x :: (y :: u) ++ w).
    cbn [has_bold]. change ((y :: u) ++ w) with (y :: u ++ w).
    cbv iota. change (y :: u ++ w) with ((y :: u) ++ w).
    rewrite IH; [rewrite H1; reflexivity|exact H2|exact Hw|].
    simpl rev in *.
    rewrite hd_app in Hl; [exact Hl|].
    intros E. apply app_eq_nil in E. destruct E as [_ E]. discriminate.
Qed.

Lemma boldStars_match pos s :
  match_at boldStars pos s =
  match s with
  | a :: b :: _ =>
      if (a =? 42)%N && (b =? 42)%N then Some (S (S pos)) else None
  | _ => None
  end.
Proof.
  unfold match_at, boldStars, lit. simpl. unfold char_is.
  destruct s as [|a [|b s]]; try reflexivity.
  - destruct (a =? 42)%N; reflexivity.
  - destruct (a =? 42)%N; [|reflexivity]. destruct (b =? 42)%N; reflexivity.
Qed.

Lemma search_bold_none pos s :
  search boldStars pos s = None -> has_bold s = false.
Proof.
  revert pos. induction s as [|a s IH]; intros pos H; [reflexivity|].
  cbn [search] in H. rewrite boldStars_match in H.
  destruct s as [|b s].
  - reflexivity.
  - destruct ((a =? 42)%N && (b =? 42)%N) eqn:E; [discriminate|].
    cbn [has_bold]. rewrite E. cbn [orb]. apply (IH (S pos)). exact H.
Qed.

Lemma search_bold_some pos s mt :
  search boldStars pos s = Some mt ->
  has_bold (firstn (index mt - pos) s) = false /\
  (hd 0%N (rev (firstn (index mt - pos) s)) =? 42)%N = false /\
  length (matched mt) = 2 /\ index mt - pos + 2 <= length s /\
  pos <= index mt.
Proof.
  revert pos. induction s as [|a s IH]; intros pos H.
  - cbn [search] in H. rewrite boldStars_match in H. discriminate.
  - cbn [search] in H. rewrite boldStars_match in H.
    destruct s as [|b s].
    + cbn [search] in H. rewrite boldStars_match in H. discriminate.
    + destruct ((a =? 42)%N && (b =? 42)%N) eqn:E.
      * clear IH.
        assert (Hmt : mt = {| index := pos;
                              matched := firstn 2 (a :: b :: s) |}).
        { replace 2 with (S (S pos) - pos) by lia. congruence. }
        subst mt. cbn [index matched]. rewrite Nat.sub_diag.
        repeat split; simpl; try reflexivity; lia.
      * destruct (IH (S pos) H) as [I1 [I2 [I3 [I4 I5]]]].
        destruct (search_some boldStars (S pos) (b :: s) mt H)
          as [e [_ [_ [Hm _]]]].
        replace (index mt - pos) with (S (index mt - S pos)) by lia.
        remember (index mt - S pos) as i eqn:Ei.
        split; [|split; [|split; [exact I3|split; [simpl in *; lia|lia]]]].
        -- destruct i as [|i]; [reflexivity|].
           change (firstn (S (S i)) (a :: b :: s))
             with (a :: b :: firstn i s).
           cbn [has_bold]. rewrite E. cbn [orb].
           change (firstn (S i) (b :: s)) with (b :: firstn i s) in I1.
           exact I1.
        -- destruct i as [|i].
           ++ simpl. cbn [skipn] in Hm. rewrite boldStars_match in Hm.
              destruct s as [|c s]; [discriminate|].
              destruct ((b =? 42)%N && (c =? 42)%N) eqn:E2; [|discriminate].
              apply andb_true_iff in E2. destruct E2 as [Eb _].
              rewrite Eb, andb_true_r in E. exact E.
           ++ change (firstn (S (S i)) (a :: b :: s))
                with (a :: firstn (S i) (b :: s)).
              simpl rev. rewrite hd_app; [exact I2|].
              simpl. intros E0. apply app_eq_nil in E0.
              destruct E0 as [_ E0]. discriminate.
Qed.

(** The global replacement leaves no bold marker behind. *)
Lemma replace_loop_no_bold :
  forall fuel pos s,
    length s < fuel -> has_bold (replace_loop fuel boldStars pos s) = false.
Proof.
  induction fuel as [|fuel IH]; intros pos s Hf; [lia|].
  cbn [replace_loop].
  destruct (search boldStars pos s) as [mt|] eqn:E.
  - destruct (search_bold_some pos s mt E) as [H1 [H2 [H3 [H4 H5]]]].
    rewrite H3. cbn [Nat.eqb].
    apply has_bold_app; [exact H1| |exact H2].
    apply IH. rewrite length_skipn. lia.
  - eapply search_bold_none. exact E.
Qed.

Lemma forallb_firstn (f : code_unit -> bool) n s :
  forallb f s = true -> forallb f (firstn n s) = true.
Proof.
  intros H. rewrite <- (firstn_skipn n s) in H. rewrite forallb_app in H.
  apply andb_true_iff in H. tauto.
Qed.

Lemma forallb_skipn (f : code_unit -> bool) n s :
  forallb f s = true -> forallb f (skipn n s) = true.
Proof.
  intros H. rewrite <- (firstn_skipn n s) in H. rewrite forallb_app in H.
  apply andb_true_iff in H. tauto.
Qed.

Lemma forallb_replace_first (f : code_unit -> bool) r s :
  forallb f s = true -> forallb f (replace_first r s) = true.
Proof.
  intros H. unfold replace_first. destruct (exec r s); [|exact H].
  rewrite forallb_app. apply andb_true_iff.
  split; [apply forallb_firstn|apply forallb_skipn]; exact H.
Qed.

Lemma forallb_replace_loop (f : code_unit -> bool) r :
  forall fuel pos s,
    forallb f s = true -> forallb f (replace_loop fuel r pos s) = true.
Proof.
  induction fuel as [|fuel IH]; intros pos s H; [exact H|].
  cbn [replace_loop]. destruct (search r pos s) as [mt|]; [|exact H].
  rewrite forallb_app. apply andb_true_iff.
  split; [apply forallb_firstn; exact H|].
  destruct (length (matched mt) =? 0).
  - pose proof (forallb_skipn f (index mt - pos) s H) as Hs.
    destruct (skipn (index mt - pos) s) as [|c rest]; [reflexivity|].
    simpl in Hs. apply andb_true_iff in Hs. destruct Hs as [Hc Hr].
    simpl. rewrite Hc. apply IH. exact Hr.
  - apply IH. apply forallb_skipn. exact H.
Qed.

Lemma split_nl_one_line (s : js_string) : Forall one_line (split_nl s).
Proof.
  induction s as [|c s IH]; simpl.
  - constructor; [reflexivity|constructor].
  - destruct (c =? NL)%N eqn:E.
    + constructor; [reflexivity|exact IH].
    + destruct (split_nl s) as [|h t]; inversion IH; subst.
      * constructor; [|constructor]. unfold one_line. simpl. rewrite E.
        reflexivity.
      * constructor; [|assumption]. unfold one_line in *. simpl.
        rewrite E. assumption.
Qed.

Lemma headerOf_one_line (raw : js_string) : one_line (headerOf raw).
Proof.
  unfold headerOf. apply (forallb_infix _ _ _ (infix_trim _)).
  pose proof (split_nl_one_line (trim raw)) as F.
  destruct (split_nl (trim raw)); [reflexivity|]. inversion F. assumption.
Qed.

Lemma candidateTitle_clean (raw : js_string) :
  one_line (candidateTitle raw) /\ has_bold (candidateTitle raw) = false.
Proof.
  unfold candidateTitle. split.
  - apply (forallb_infix _ _ _ (infix_stripPrefix _)).
    unfold stripMarkers, replace_all. apply forallb_replace_loop.
    apply forallb_replace_first. apply headerOf_one_line.
  - apply (has_bold_infix _ _ (infix_stripPrefix _)).
    unfold stripMarkers, replace_all. apply replace_loop_no_bold. lia.
Qed.

(** X10. No title of the result holds a line break or two asterisks in a
    row: the title is shown as plain text, and the bold markers of the header
    are all removed. *)
Theorem titles_plain (text : js_string) (p : ParsedResult) :
  parseResult text = Normal (Some p) ->
  Forall (fun st => one_line (title st) /\ has_bold (title st) = false)
         (steps p).
Proof.
  intros H. destruct text as [|c t] eqn:Et; [discriminate|].
  rewrite <- Et in *.
  destruct (parseResult_shape text ltac:(rewrite Et; discriminate))
    as [cleaned [_ [F E]]].
  rewrite E in H. inversion H. rewrite finish_steps.
  assert (K : Forall (fun st => one_line (title st)
                                /\ has_bold (title st) = false)
                     (filter hasContent cleaned)).
  { apply Forall_forall. intros st Hin. apply filter_In in Hin.
    destruct Hin as [Hin _].
    destruct (Forall2_In_r _ _ _ _ F Hin) as [raw [_ Hc]].
    rewrite cleanStep_cases in Hc. inversion Hc as [Hst]. clear Hc.
    destruct (candidateTitle_clean raw) as [C1 C2].
    destruct (bodyOf raw); destruct (candidateTitle raw); simpl;
      split; try reflexivity; assumption. }
  destruct (filter hasContent cleaned) as [|k kept]; [|exact K].
  destruct (is_empty _); constructor; [|constructor].
  split; reflexivity.
Qed.

Lemma titles_plain_witness :
  Forall (fun st => one_line (title st) /\ has_bold (title st) = false)
         [{| title := str "A*B"; content := str "body" |}].
Proof.
  apply (titles_plain (join_nl [str "### **A***B**"; str "body"])
           {| steps := [{| title := str "A*B"; content := str "body" |}];
              finalAnswer := []; fallback := false |}).
  vm_compute. reflexivity.
Defined.

(* ------------------------------------------------------------------ *)
(** *** The text of the copy button *)

Lemma digit_units_digits (d : Decimal.uint) :
  forallb is_digit (digit_units d) = true.
Proof. induction d; simpl; try rewrite IHd; reflexivity. Qed.

Lemma little_succ_not_nil (d : Decimal.uint) :
  Decimal.Little.succ d <> Decimal.Nil.
Proof. destruct d; discriminate. Qed.

Lemma to_little_uint_not_nil (n : nat) (acc : Decimal.uint) :
  acc <> Decimal.Nil -> Nat.to_little_uint n acc <> Decimal.Nil.
Proof.
  revert acc. induction n as [|n IH]; intros acc H; simpl; [exact H|].
  apply IH. apply little_succ_not_nil.
Qed.

Lemma revapp_not_nil (d acc : Decimal.uint) :
  acc <> Decimal.Nil -> Decimal.revapp d acc <> Decimal.Nil.
Proof.
  revert acc. induction d; intros acc H; simpl; try exact H;
    apply IHd; discriminate.
Qed.

Lemma decimal_not_nil (n : nat) : decimal n <> [].
Proof.
  unfold decimal, Nat.to_uint, Decimal.rev.
  pose proof (to_little_uint_not_nil n Decimal.zero ltac:(discriminate)) as H.
  destruct (Nat.to_little_uint n Decimal.zero) as [|d|d|d|d|d|d|d|d|d|d];
    [congruence| ..]; simpl;
    match goal with
    | |- digit_units (Decimal.revapp ?d ?acc) <> [] =>
        pose proof (revapp_not_nil d acc ltac:(discriminate)) as R;
        destruct (Decimal.revapp d acc); [congruence| ..]; discriminate
    end.
Qed.

(** X11. The text the copy button writes for a step, "Step N: title" and
    the content on the lines below, is read by the step cleaner as that very
    title and content, when the title is a trimmed line without "#" and
    asterisk that does not begin with a separator and the content is
    trimmed and not empty. *)
Theorem copied_step_reads_back (index : nat) (st : SolutionStep) :
  one_line (title st) -> unmarked (title st) ->
  trim (title st) = title st -> title st <> [] ->
  is_sep (hd 0%N (title st)) = false ->
  trim (content st) = content st -> content st <> [] ->
  cleanStep (stepCopyText index st) = Normal st.
Proof.
  intros Ho Hu Ht Htn Hs Hc Hcn.
  assert (E : stepCopyText index st
              = stepHeader [] (decimal (index + 1)) (title st)
                ++ NL :: content st).
  { unfold stepCopyText, stepHeader. simpl app.
    change (83%N :: 116%N :: 101%N :: 112%N :: 32%N
            :: decimal (index + 1) ++ str ": " ++ title st)
      with (str "Step " ++ decimal (index + 1) ++ str ": " ++ title st).
    rewrite <- !app_assoc. reflexivity. }
  destruct st as [ttl body]. simpl in *.
  apply (cleanStep_stepHeader _ [] (decimal (index + 1)) ttl body); auto.
  - rewrite E. apply trim_fix; [reflexivity|].
    change (stepHeader [] (decimal (index + 1)) ttl ++ NL :: body)
      with (stepHeader [] (decimal (index + 1)) ttl ++ [NL] ++ body).
    rewrite app_assoc. rewrite hd_rev_app by exact Hcn.
    apply (trim_fix_inv _ Hc Hcn).
  - apply decimal_not_nil.
  - apply digit_units_digits.
Qed.

Lemma copied_step_reads_back_witness :
  cleanStep (stepCopyText 11 {| title := str "Solve for x";
                                content := str "x = 2" |})
  = Normal {| title := str "Solve for x"; content := str "x = 2" |}.
Proof.
  apply (copied_step_reads_back 11
           {| title := str "Solve for x"; content := str "x = 2" |});
    vm_compute; reflexivity || discriminate.
Defined.

(* ================================================================== *)
(** ** The solver around the parser *)

Lemma parsedData_some (s : Solver) :
  result s <> [] -> exists p, parsedData s = Normal (Some p).
Proof.
  intros H. unfold parsedData, truthy.
  apply is_empty_false in H. rewrite H. simpl.
  apply is_empty_false in H.
  destruct (parseResult_shape (result s) H) as [cleaned [_ [_ E]]].
  eexists. exact E.
Qed.

Lemma panels_blank (s : Solver) :
  solveStatus s = COMPLETED -> result s = [] -> panels s = [].
Proof.
  intros Hs Hr.
  unfold panels, inputPanel, loadingPanel, resultPanel, errorPanel, parsedData.
  rewrite Hs, Hr. reflexivity.
Qed.

(** X12. The solver card shows at most one of its four panels, the input
    form, the loading view, the result and the error, and it shows none of
    them exactly when the status is COMPLETED and the result text is empty. *)
Theorem panels_exclusive (s : Solver) :
  length (panels s) <= 1 /\
  (panels s = [] <-> solveStatus s = COMPLETED /\ result s = []).
Proof.
  unfold panels, inputPanel, loadingPanel, resultPanel, errorPanel.
  destruct (solveStatus s) eqn:E; simpl;
    try (split; [lia|split; [discriminate|intros [D _]; discriminate]]).
  destruct (result s) as [|c r] eqn:Er.
  - unfold parsedData, truthy. rewrite Er. simpl. split; [lia|tauto].
  - destruct (parsedData_some s ltac:(rewrite Er; discriminate)) as [p Ep].
    rewrite Ep. simpl. split; [lia|].
    split; [discriminate|intros [_ D]; discriminate].
Qed.

Lemma step_invariant (m m' : Machine) (e : Event) :
  solver_invariant m -> step m e = Some m' -> solver_invariant m'.
Proof.
  destruct m as [[st it si la re] w]. unfold solver_invariant, step.
  unfold inputPanel, errorPanel, resultPanel.
  cbn [ui work solveStatus inputText selectedImage language result].
  intros I H. destruct e.
  - destruct st; try discriminate. injection H as <-. exact I.
  - destruct st; try discriminate. injection H as <-. exact I.
  - injection H as <-. exact I.
  - destruct st; try discriminate.
    destruct (truthy_opt si); try discriminate. injection H as <-. exact I.
  - destruct st; try discriminate. cbn [andb] in H.
    destruct (truthy it || truthy_opt si) eqn:A; [|discriminate].
    injection H as <-. unfold handleSolve.
    cbn [ui work solveStatus inputText selectedImage language result].
    assert (G : negb (truthy it) && negb (truthy_opt si) = false).
    { destruct (truthy it), (truthy_opt si); try reflexivity; discriminate. }
    rewrite G. cbn [ui work solveStatus result].
    destruct I as [_ ->]. split; [reflexivity|].
    eexists. split; [reflexivity|]. exact A.
  - destruct st; try discriminate.
    + cbn [orb] in H.
      destruct (parsedData _) as [[p|]|]; cbn in H; try discriminate.
      injection H as <-. unfold resetForm. cbn. split; [reflexivity|exact I].
    + injection H as <-. unfold resetForm. cbn. split; [reflexivity|tauto].
  - destruct st.
    + destruct I as [_ ->]. destruct k; discriminate.
    + destruct I as [Hr [q [-> Hq]]].
      destruct k as [|k]; [|destruct k; discriminate].
      cbn in H. injection H as <-. cbn. split; [exact Hr|].
      exists q. split; [reflexivity|exact Hq].
    + destruct I as [Hr [q [-> Hq]]].
      destruct k as [|k]; [|destruct k; discriminate]. discriminate.
    + rewrite I in H. destruct k; discriminate.
    + destruct I as [-> _]. destruct k; discriminate.
  - destruct st.
    + destruct I as [_ ->]. destruct k; discriminate.
    + destruct I as [Hr [q [-> Hq]]].
      destruct k as [|k]; [|destruct k; discriminate]. discriminate.
    + destruct I as [Hr [q [-> Hq]]].
      destruct k as [|k]; [|destruct k; discriminate].
      cbn in H. injection H as <-. reflexivity.
    + rewrite I in H. destruct k; discriminate.
    + destruct I as [-> _]. destruct k; discriminate.
  - destruct st.
    + destruct I as [_ ->]. destruct k; discriminate.
    + destruct I as [Hr [q [-> Hq]]].
      destruct k as [|k]; [|destruct k; discriminate]. discriminate.
    + destruct I as [Hr [q [-> Hq]]].
      destruct k as [|k]; [|destruct k; discriminate].
      cbn in H. injection H as <-. split; reflexivity.
    + rewrite I in H. destruct k; discriminate.
    + destruct I as [-> _]. destruct k; discriminate.
Qed.

Lemma run_invariant (es : list Event) :
  forall m m', solver_invariant m -> run m es = Some m' ->
               solver_invariant m'.
Proof.
  induction es as [|e es IH]; intros m m' I H; simpl in H.
  - injection H as <-. exact I.
  - destruct (step m e) as [m1|] eqn:E; [|discriminate].
    apply (IH m1 m'); [|exact H]. eapply step_invariant; eauto.
Qed.

(** X13. In every state the solver reaches from its start: while idle or
    loading the result text is empty; a timer or a request is under way only
    while loading, and never more than one; every request carries a question
    text or an image; and in the error state the result text begins with
    "Error: ". *)
Theorem solver_keeps_invariant (es : list Event) (m : Machine) :
  run initial es = Some m -> solver_invariant m.
Proof.
  apply run_invariant. split; reflexivity.
Qed.

Lemma solver_keeps_invariant_witness :
  solver_invariant
    {| ui := {| solveStatus := ERROR; inputText := str "2+2";
                selectedImage := None; language := str "English";
                result := str "Error: quota" |};
       work := [] |}.
Proof.
  apply (solver_keeps_invariant
           [TypeText (str "2+2"); ClickSolve; TimerFires 0;
            Rejected 0 (str "quota")]).
  reflexivity.
Defined.

Lemma step_stuck (m m' : Machine) (e : Event) :
  solveStatus (ui m) = COMPLETED -> result (ui m) = [] -> work m = [] ->
  step m e = Some m' ->
  solveStatus (ui m') = COMPLETED /\ result (ui m') = [] /\ work m' = [].
Proof.
  destruct m as [[st it si la re] w]. cbn [ui work solveStatus result].
  intros -> -> -> H. destruct e; cbn in H; try discriminate.
  - injection H as <-. cbn. auto.
  - destruct k; discriminate.
  - destruct k; discriminate.
  - destruct k; discriminate.
Qed.

(** X14. A state the solver reaches with the status COMPLETED and an empty
    result, as after a request answered with the empty string, is a dead end:
    in it and in every state that follows, the status stays COMPLETED, the
    result stays empty, no panel is shown and the reset button does not
    exist. *)
Theorem blank_answer_stuck (es0 es : list Event) (m m' : Machine) :
  run initial es0 = Some m ->
  solveStatus (ui m) = COMPLETED -> result (ui m) = [] ->
  run m es = Some m' ->
  solveStatus (ui m') = COMPLETED /\ result (ui m') = [] /\
  panels (ui m') = [] /\ step m' ClickReset = None.
Proof.
  intros Hr Hs He H.
  assert (S : solveStatus (ui m') = COMPLETED /\ result (ui m') = []).
  { pose proof (run_invariant es0 initial m
                  ltac:(split; reflexivity) Hr) as I.
    unfold solver_invariant in I. rewrite Hs in I.
    clear Hr. revert m Hs He I H.
    induction es as [|e es IH]; intros m Hs He I H; simpl in H.
    - injection H as <-. auto.
    - destruct (step m e) as [m1|] eqn:E; [|discriminate].
      destruct (step_stuck m m1 e Hs He I E) as [S1 [S2 S3]].
      apply (IH m1 S1 S2 S3 H). }
  destruct S as [S1 S2]. repeat split; try assumption.
  - apply panels_blank; assumption.
  - unfold step, resultPanel, errorPanel, parsedData.
    rewrite S1, S2. reflexivity.
Qed.

Lemma blank_answer_stuck_witness :
  let m := {| ui := {| solveStatus := COMPLETED; inputText := str "2+2";
                       selectedImage := Some (str "data:image/png;base64,AA");
                       language := str "English"; result := [] |};
              work := [] |} in
  solveStatus (ui m) = COMPLETED /\ result (ui m) = [] /\
  panels (ui m) = [] /\ step m ClickReset = None.
Proof.
  refine (blank_answer_stuck
            [TypeText (str "2+2"); ClickSolve; TimerFires 0;
             Resolved 0 []]
            [ImageLoaded (str "data:image/png;base64,AA")]
            {| ui := {| solveStatus := COMPLETED; inputText := str "2+2";
                        selectedImage := None;
                        language := str "English"; result := [] |};
               work := [] |} _ _ _ _ _); reflexivity.
Defined.

Lemma step_form_request (m m' : Machine) (e : Event) :
  solver_invariant m -> form_request m -> step m e = Some m' ->
  form_request m'.
Proof.
  destruct m as [[st it si la re] w]. unfold solver_invariant, form_request, step.
  unfold inputPanel, errorPanel, resultPanel.
  cbn [ui work solveStatus inputText selectedImage language result].
  intros I F H. destruct e.
  - destruct st; try discriminate. injection H as <-.
    destruct I as [_ ->]. cbn. intros q [[]|[]].
  - destruct st; try discriminate. injection H as <-.
    destruct I as [_ ->]. cbn. intros q [[]|[]].
  - injection H as <-. exact F.
  - destruct st; try discriminate.
    destruct (truthy_opt si); try discriminate. injection H as <-. exact F.
  - destruct st; try discriminate. cbn [andb] in H.
    destruct (truthy it || truthy_opt si) eqn:A; [|discriminate].
    injection H as <-. unfold handleSolve.
    cbn [ui work solveStatus inputText selectedImage language result].
    assert (G : negb (truthy it) && negb (truthy_opt si) = false).
    { destruct (truthy it), (truthy_opt si); try reflexivity; discriminate. }
    rewrite G. destruct I as [_ ->]. cbn.
    intros q [[E|[]]|[E|[]]]; [|discriminate].
    injection E as <-. cbn. auto.
  - destruct st; try discriminate.
    + cbn [orb] in H.
      destruct (parsedData _) as [[p|]|]; cbn in H; try discriminate.
      injection H as <-. rewrite I. cbn. intros q [[]|[]].
    + injection H as <-. destruct I as [-> _]. cbn. intros q [[]|[]].
  - destruct st.
    + destruct I as [_ ->]. destruct k; discriminate.
    + destruct I as [Hr [q0 [-> Hq]]].
      destruct k as [|k]; [|destruct k; discriminate].
      cbn in H. injection H as <-. cbn.
      intros q [[E|[]]|[E|[]]]; [discriminate|].
      injection E as <-. apply (F q0). left. left. reflexivity.
    + destruct I as [Hr [q0 [-> Hq]]].
      destruct k as [|k]; [|destruct k; discriminate]. discriminate.
    + rewrite I in H. destruct k; discriminate.
    + destruct I as [-> _]. destruct k; discriminate.
  - destruct st.
    + destruct I as [_ ->]. destruct k; discriminate.
    + destruct I as [Hr [q0 [-> Hq]]].
      destruct k as [|k]; [|destruct k; discriminate]. discriminate.
    + destruct I as [Hr [q0 [-> Hq]]].
      destruct k as [|k]; [|destruct k; discriminate].
      cbn in H. injection H as <-. cbn. intros q [[]|[]].
    + rewrite I in H. destruct k; discriminate.
    + destruct I as [-> _]. destruct k; discriminate.
  - destruct st.
    + destruct I as [_ ->]. destruct k; discriminate.
    + destruct I as [Hr [q0 [-> Hq]]].
      destruct k as [|k]; [|destruct k; discriminate]. discriminate.
    + destruct I as [Hr [q0 [-> Hq]]].
      destruct k as [|k]; [|destruct k; discriminate].
      cbn in H. injection H as <-. cbn. intros q [[]|[]].
    + rewrite I in H. destruct k; discriminate.
    + destruct I as [-> _]. destruct k; discriminate.
Qed.

Lemma run_form_request (es : list Event) :
  forall m m', solver_invariant m -> form_request m -> run m es = Some m' ->
               form_request m'.
Proof.
  induction es as [|e es IH]; intros m m' I F H; simpl in H.
  - injection H as <-. exact F.
  - destruct (step m e) as [m1|] eqn:E; [|discriminate].
    apply (IH m1 m'); [| |exact H].
    + eapply step_invariant; eauto.
    + eapply step_form_request; eauto.
Qed.

(** X15. A request that is under way, or the timer before it, is for the
    text and the language the state holds: what the answer will be shown for
    is what was on the form when the button was pressed.  The image is not
    part of this: the loading of an image can end after the button was
    pressed. *)
Theorem request_is_of_form (es : list Event) (m : Machine) (q : Request) :
  run initial es = Some m ->
  In (TimerSet q) (work m) \/ In (Requested q) (work m) ->
  questionText q = inputText (ui m) /\ targetLanguage q = language (ui m).
Proof.
  intros H. revert q.
  apply (run_form_request es initial m); [split; reflexivity| |exact H].
  intros q [[]|[]].
Qed.

Lemma request_is_of_form_witness :
  questionText {| questionText := str "2+2"; imageDataUri := None;
                  targetLanguage := str "Hindi" |} = str "2+2"
  /\ targetLanguage {| questionText := str "2+2"; imageDataUri := None;
                       targetLanguage := str "Hindi" |} = str "Hindi".
Proof.
  refine (request_is_of_form
            [TypeText (str "2+2"); PickLanguage (str "Hindi"); ClickSolve;
             ImageLoaded (str "data:image/png;base64,AA"); TimerFires 0]
            {| ui := {| solveStatus := SOLVING; inputText := str "2+2";
                        selectedImage := Some (str "data:image/png;base64,AA");
                        language := str "Hindi"; result := [] |};
               work := [Requested {| questionText := str "2+2";
                                     imageDataUri := None;
                                     targetLanguage := str "Hindi" |}] |}
            _ _ _).
  - reflexivity.
  - right. left. reflexivity.
Defined.
